(** * hasoon2: record store, summary and grouping of a bookkeeping ledger

    A shallow embedding of
    - the in-memory record store ([MemStorage], server/storage.ts),
    - the summary and delete handlers of server/routes.ts,
    - the date/name grouping of the daily-operations view and the name
      grouping of the PDF report (client/src/pages/home.tsx),
    - [formatDate] (client/src/lib/utils.ts),
    - the form tests, the expanded dates, the expenses card and the layout
      of the PDF report (client/src/pages/home.tsx),
    - the calculator (client/src/components/Calculator.tsx),
    together with the properties the specification states about them and
    further properties of the code.

    JavaScript numbers are IEEE-754 binary64 values; they are modelled by
    the standard library's [spec_float] with [prec = 53] and [emax = 1024],
    so that [+] and [-] round exactly as the program's do. *)

From Stdlib Require Import ZArith List String Ascii Bool Lia.
From Stdlib Require Import Permutation Sorted QArith.
From Stdlib Require Import Floats.SpecFloat.
Import ListNotations.

Local Open Scope string_scope.
Local Open Scope list_scope.
Local Open Scope Z_scope.

(* ================================================================== *)
(** * Part I: definitions                                              *)
(* ================================================================== *)

(** ** JavaScript numbers *)

Module Js.

Definition number := spec_float.

Definition prec : Z := 53.
Definition emax : Z := 1024.

(** The literal [0] and the other special values. *)
Definition zero : number := S754_zero false.
Definition NaN : number := S754_nan.
Definition Infinity (neg : bool) : number := S754_infinity neg.

(** [a + b] and [a - b] on numbers. *)
Definition add (a b : number) : number := SFadd prec emax a b.
Definition sub (a b : number) : number := SFsub prec emax a b.

(** The number nearest to the integer [n] (round to nearest, ties to even). *)
Definition ofZ (n : Z) : number := binary_normalize prec emax n 0 false.

(** The number nearest to [(-1)^neg * m * 10^e], for [m >= 0]: an integer
    is rounded directly, a proper fraction through the quotient and the
    position of the remainder, as the division of two numbers is. *)
Definition ofDecimal (neg : bool) (m e : Z) : number :=
  let v :=
    if 0 <=? e then binary_normalize prec emax (m * 10 ^ e) 0 false
    else
      let '(q, e', l) := SFdiv_core_binary prec emax m 0 (10 ^ (- e)) 0 in
      binary_round_aux prec emax false q e' l in
  if neg then SFopp v else v.

(** The exact rational value of a finite number. *)
Definition toQ (x : number) : option Q :=
  match x with
  | S754_zero _ => Some 0%Q
  | S754_finite s m e =>
      let v := if 0 <=? e then inject_Z (Zpos m * 2 ^ e)
               else Qmake (Zpos m) (Z.to_pos (2 ^ (- e))) in
      Some (if s then Qopp v else v)
  | _ => None
  end.

(** [x === y] on numbers: [NaN] differs from itself, [+0] equals [-0]. *)
Definition strictEq (x y : number) : bool := SFeqb x y.

(** *** parseFloat

    [parseFloat] skips leading white space and reads the longest prefix that
    is a decimal literal: an optional sign, then [Infinity] or digits with an
    optional fraction and an optional exponent.  Without such a prefix the
    result is [NaN].  Strings are held in their UTF-8 encoding, as
    sequences of bytes.  The white space skipped is the white space and the
    line terminators of the language: TAB, LF, VT, FF, CR and SP, which are
    one byte each, U+00A0, which is two bytes, and U+1680, U+2000 to U+200A,
    U+2028, U+2029, U+202F, U+205F, U+3000 and U+FEFF, which are three. *)

Definition code (c : ascii) : Z := Z.of_N (N_of_ascii c).

Definition isWhiteSpace (c : ascii) : bool :=
  ((9 <=? code c) && (code c <=? 13)) || (code c =? 32).

(** U+00A0 is the two bytes 194, 160. *)
Definition isWhiteSpace2 (a b : ascii) : bool :=
  (code a =? 194) && (code b =? 160).

(** U+1680 is the three bytes 225, 154, 128; U+2000 to U+200A are 226, 128
    and 128 to 138; U+2028, U+2029 and U+202F are 226, 128 and 168, 169 and
    175; U+205F is 226, 129, 159; U+3000 is 227, 128, 128; U+FEFF is 239,
    187, 191. *)
Definition isWhiteSpace3 (a b c : ascii) : bool :=
  ((code a =? 225) && ((code b =? 154) && (code c =? 128)))
  || ((code a =? 226)
      && (((code b =? 128)
           && (((128 <=? code c) && (code c <=? 138))
               || (code c =? 168) || (code c =? 169) || (code c =? 175)))
          || ((code b =? 129) && (code c =? 159))))
  || ((code a =? 227) && ((code b =? 128) && (code c =? 128)))
  || ((code a =? 239) && ((code b =? 187) && (code c =? 191))).

Definition isDigit (c : ascii) : bool := (48 <=? code c) && (code c <=? 57).

Fixpoint trimStart (s : string) : string :=
  match s with
  | String a r1 =>
      if isWhiteSpace a then trimStart r1
      else
        match r1 with
        | String b r2 =>
            if isWhiteSpace2 a b then trimStart r2
            else
              match r2 with
              | String c r3 => if isWhiteSpace3 a b c then trimStart r3 else s
              | EmptyString => s
              end
        | EmptyString => s
        end
  | EmptyString => s
  end.

(** [digits s acc n] reads the digits at the head of [s], continuing the
    value [acc] read so far and the count [n]; it returns the value, the
    count and the rest of the string. *)
Fixpoint digits (s : string) (acc n : Z) : Z * Z * string :=
  match s with
  | String c r =>
      if isDigit c then digits r (10 * acc + (code c - 48)) (n + 1)
      else (acc, n, s)
  | EmptyString => (acc, n, s)
  end.

Definition sign (s : string) : bool * string :=
  match s with
  | String "-"%char r => (true, r)
  | String "+"%char r => (false, r)
  | _ => (false, s)
  end.

(** The value of an exponent part at the head of [s], 0 when there is none. *)
Definition exponentPart (s : string) : Z :=
  match s with
  | String c r =>
      if ((c =? "e")%char || (c =? "E")%char)%bool then
        let '(neg, r1) := sign r in
        let '(v, n, _) := digits r1 0 0 in
        if n =? 0 then 0 else if neg then - v else v
      else 0
  | EmptyString => 0
  end.

Definition parseFloat (s : string) : number :=
  let '(neg, s1) := sign (trimStart s) in
  if prefix "Infinity" s1 then Infinity neg
  else
    let '(ip, ni, r1) := digits s1 0 0 in
    let '(m, nf, r2) :=
      match r1 with
      | String "."%char r => digits r ip 0
      | _ => (ip, 0, r1)
      end in
    if ni + nf =? 0 then NaN else ofDecimal neg m (exponentPart r2 - nf).

(** *** Integers held in numbers

    Identifiers and counters are integers held in numbers.  [toZ] reads an
    integral number back; [postIncrement n] is the value [n + 1] that [n++]
    stores, computed by the addition of numbers. *)

Definition toZ (x : number) : Z :=
  match x with
  | S754_finite s m e =>
      let v := if 0 <=? e then Zpos m * 2 ^ e else Zpos m / 2 ^ (- e) in
      if s then - v else v
  | _ => 0
  end.

Definition postIncrement (n : Z) : Z := toZ (add (ofZ n) (ofZ 1)).

(** *** Array.prototype.sort

    The sort is stable; [cmp a b <= 0] keeps [a] before [b].  It is modelled
    by a stable insertion sort, which for a consistent comparator returns
    the one stable sorted arrangement. *)

Fixpoint insert {A : Type} (cmp : A -> A -> Z) (x : A) (l : list A) : list A :=
  match l with
  | [] => [x]
  | y :: r => if cmp x y <=? 0 then x :: l else y :: insert cmp x r
  end.

Definition sort {A : Type} (cmp : A -> A -> Z) (l : list A) : list A :=
  fold_right (insert cmp) [] l.

(** [reduce] with a callback that may throw: the first exception ends it. *)
Fixpoint reduce {A B : Type} (f : B -> A -> option B) (l : list A) (acc : B)
  : option B :=
  match l with
  | [] => Some acc
  | x :: r => match f acc x with
              | Some acc' => reduce f r acc'
              | None => None
              end
  end.

End Js.

(** ** Map<number, V> (storage.ts)

    A [Map] iterates in insertion order; [set] on a present key keeps its
    position.  Keys are the integer identifiers. *)

Module JsMap.

Definition t (V : Type) := list (Z * V).

Definition empty {V : Type} : t V := [].

Fixpoint get {V : Type} (m : t V) (k : Z) : option V :=
  match m with
  | [] => None
  | (k', v) :: r => if k' =? k then Some v else get r k
  end.

Definition has {V : Type} (m : t V) (k : Z) : bool :=
  match get m k with Some _ => true | None => false end.

Fixpoint set {V : Type} (m : t V) (k : Z) (v : V) : t V :=
  match m with
  | [] => [(k, v)]
  | (k', v') :: r => if k' =? k then (k, v) :: r else (k', v') :: set r k v
  end.

Fixpoint remove {V : Type} (m : t V) (k : Z) : t V :=
  match m with
  | [] => []
  | (k', v') :: r => if k' =? k then remove r k else (k', v') :: remove r k
  end.

(** [delete] returns whether the key was present, and the map without it. *)
Definition delete {V : Type} (m : t V) (k : Z) : bool * t V :=
  (has m k, remove m k).

Definition keys {V : Type} (m : t V) : list Z := map fst m.
Definition values {V : Type} (m : t V) : list V := map snd m.

End JsMap.

(** ** Data model (shared/schema.ts) *)

Module Customer.
Record t := mk {
  id : Z;
  name : string;
  goodsType : string;
  carCount : Js.number;
  amount : string;
  paymentStatus : string;   (* "paid" or "unpaid" *)
  createdAt : Z             (* time value of the Date, in milliseconds *)
}.
End Customer.

Module Expense.
Record t := mk {
  id : Z;
  description : string;
  amount : string;
  createdAt : Z
}.
End Expense.

Module InsertCustomer.
Record t := mk {
  name : string;
  goodsType : string;
  carCount : Js.number;
  amount : string;
  paymentStatus : string
}.
End InsertCustomer.

Module InsertExpense.
Record t := mk {
  description : string;
  amount : string
}.
End InsertExpense.

(** [Partial<InsertCustomer>]: a field is supplied ([Some]) or absent. *)
Module PartialCustomer.
Record t := mk {
  name : option string;
  goodsType : option string;
  carCount : option Js.number;
  amount : option string;
  paymentStatus : option string
}.
End PartialCustomer.

Module PartialExpense.
Record t := mk {
  description : option string;
  amount : option string
}.
End PartialExpense.

(** [{ ...record, ...updates }]: a supplied field overrides. *)
Definition spread {A : Type} (old : A) (upd : option A) : A :=
  match upd with Some v => v | None => old end.

(** ** MemStorage (server/storage.ts) *)

Module MemStorage.

Record t := mk {
  customers : JsMap.t Customer.t;
  expenses : JsMap.t Expense.t;
  currentCustomerId : Z;
  currentExpenseId : Z
}.

Definition constructor : t := mk JsMap.empty JsMap.empty 1 1.

Definition byCreatedAtDesc {A : Type} (createdAt : A -> Z) (a b : A) : Z :=
  createdAt b - createdAt a.

Definition getAllCustomers (s : t) : list Customer.t :=
  Js.sort (byCreatedAtDesc Customer.createdAt) (JsMap.values (customers s)).

Definition getCustomer (id : Z) (s : t) : option Customer.t :=
  JsMap.get (customers s) id.

(** [now] is the time value [new Date()] yields at the call. *)
Definition createCustomer (now : Z) (insertCustomer : InsertCustomer.t) (s : t)
  : Customer.t * t :=
  let id := currentCustomerId s in
  let customer :=
    Customer.mk id
      (InsertCustomer.name insertCustomer)
      (InsertCustomer.goodsType insertCustomer)
      (InsertCustomer.carCount insertCustomer)
      (InsertCustomer.amount insertCustomer)
      (InsertCustomer.paymentStatus insertCustomer)
      now in
  (customer,
   mk (JsMap.set (customers s) id customer) (expenses s)
      (Js.postIncrement id) (currentExpenseId s)).

Definition mergeCustomer (customer : Customer.t) (updates : PartialCustomer.t)
  : Customer.t :=
  Customer.mk
    (Customer.id customer)
    (spread (Customer.name customer) (PartialCustomer.name updates))
    (spread (Customer.goodsType customer) (PartialCustomer.goodsType updates))
    (spread (Customer.carCount customer) (PartialCustomer.carCount updates))
    (spread (Customer.amount customer) (PartialCustomer.amount updates))
    (spread (Customer.paymentStatus customer)
            (PartialCustomer.paymentStatus updates))
    (Customer.createdAt customer).

Definition updateCustomer (id : Z) (updates : PartialCustomer.t) (s : t)
  : option Customer.t * t :=
  match JsMap.get (customers s) id with
  | None => (None, s)
  | Some customer =>
      let updatedCustomer := mergeCustomer customer updates in
      (Some updatedCustomer,
       mk (JsMap.set (customers s) id updatedCustomer) (expenses s)
          (currentCustomerId s) (currentExpenseId s))
  end.

Definition deleteCustomer (id : Z) (s : t) : bool * t :=
  let '(deleted, m) := JsMap.delete (customers s) id in
  (deleted, mk m (expenses s) (currentCustomerId s) (currentExpenseId s)).

Definition getAllExpenses (s : t) : list Expense.t :=
  Js.sort (byCreatedAtDesc Expense.createdAt) (JsMap.values (expenses s)).

Definition getExpense (id : Z) (s : t) : option Expense.t :=
  JsMap.get (expenses s) id.

Definition createExpense (now : Z) (insertExpense : InsertExpense.t) (s : t)
  : Expense.t * t :=
  let id := currentExpenseId s in
  let expense :=
    Expense.mk id
      (InsertExpense.description insertExpense)
      (InsertExpense.amount insertExpense)
      now in
  (expense,
   mk (customers s) (JsMap.set (expenses s) id expense)
      (currentCustomerId s) (Js.postIncrement id)).

Definition mergeExpense (expense : Expense.t) (updates : PartialExpense.t)
  : Expense.t :=
  Expense.mk
    (Expense.id expense)
    (spread (Expense.description expense) (PartialExpense.description updates))
    (spread (Expense.amount expense) (PartialExpense.amount updates))
    (Expense.createdAt expense).

Definition updateExpense (id : Z) (updates : PartialExpense.t) (s : t)
  : option Expense.t * t :=
  match JsMap.get (expenses s) id with
  | None => (None, s)
  | Some expense =>
      let updatedExpense := mergeExpense expense updates in
      (Some updatedExpense,
       mk (customers s) (JsMap.set (expenses s) id updatedExpense)
          (currentCustomerId s) (currentExpenseId s))
  end.

Definition deleteExpense (id : Z) (s : t) : bool * t :=
  let '(deleted, m) := JsMap.delete (expenses s) id in
  (deleted, mk (customers s) m (currentCustomerId s) (currentExpenseId s)).

Definition clearAllData (s : t) : t := mk JsMap.empty JsMap.empty 1 1.

(** The shape of a store the operations build: no identifier is stored
    twice, and a record is stored under its own identifier. *)
Definition wf (s : t) : Prop :=
  NoDup (JsMap.keys (customers s))
  /\ NoDup (JsMap.keys (expenses s))
  /\ (forall k c, In (k, c) (customers s) -> Customer.id c = k)
  /\ (forall k e, In (k, e) (expenses s) -> Expense.id e = k).

End MemStorage.

(** ** Routes (server/routes.ts) *)

Module Routes.

Record Summary := mkSummary {
  totalRevenue : Js.number;
  totalExpenses : Js.number;
  netTotal : Js.number;
  totalCars : Js.number;
  customerCount : Z;
  expenseCount : Z
}.

(** The body of the GET /api/summary handler, on the two lists read. *)
Definition summaryOf (customers : list Customer.t) (expenses : list Expense.t)
  : Summary :=
  let totalRevenue :=
    fold_left (fun sum customer =>
                 Js.add sum (Js.parseFloat (Customer.amount customer)))
              customers Js.zero in
  let totalExpenses :=
    fold_left (fun sum expense =>
                 Js.add sum (Js.parseFloat (Expense.amount expense)))
              expenses Js.zero in
  let totalCars :=
    fold_left (fun sum customer => Js.add sum (Customer.carCount customer))
              customers Js.zero in
  let netTotal := Js.sub totalRevenue totalExpenses in
  mkSummary totalRevenue totalExpenses netTotal totalCars
            (Z.of_nat (List.length customers)) (Z.of_nat (List.length expenses)).

(** GET /api/summary: the status and the body sent. *)
Definition getSummary (s : MemStorage.t) : Z * Summary :=
  let customers := MemStorage.getAllCustomers s in
  let expenses := MemStorage.getAllExpenses s in
  (200, summaryOf customers expenses).

(** DELETE /api/customers/:id and DELETE /api/expenses/:id: the status and
    the message sent, and the store afterwards.  [id] is
    [parseInt(req.params.id)]; a parameter that is no number finds no record,
    as an absent id does.  Nothing in the handlers throws, so that their
    [catch] branches, which answer 500, are not reached. *)
Definition deleteCustomer (id : Z) (s : MemStorage.t)
  : (Z * string) * MemStorage.t :=
  let '(deleted, s') := MemStorage.deleteCustomer id s in
  if negb deleted then ((404, "Customer not found"), s')
  else ((200, "Customer deleted successfully"), s').

Definition deleteExpense (id : Z) (s : MemStorage.t)
  : (Z * string) * MemStorage.t :=
  let '(deleted, s') := MemStorage.deleteExpense id s in
  if negb deleted then ((404, "Expense not found"), s')
  else ((200, "Expense deleted successfully"), s').

(** DELETE /api/clear-all. *)
Definition clearAll (s : MemStorage.t) : (Z * string) * MemStorage.t :=
  ((200, "All data cleared successfully"), MemStorage.clearAllData s).

End Routes.

(** ** Plain objects used as dictionaries (home.tsx)

    The accumulators of the [reduce] calls are object literals [{}].  Reading
    [acc[k]] finds an own property or, failing that, a property inherited
    from [Object.prototype]; own string keys are enumerated array indices
    first, in ascending order, then the other keys in creation order. *)

Module JsObject.

Definition t (V : Type) := list (string * V).

Definition empty {V : Type} : t V := [].

Definition prototypeKeys : list string :=
  [ "constructor"; "__defineGetter__"; "__defineSetter__"; "hasOwnProperty";
    "__lookupGetter__"; "__lookupSetter__"; "isPrototypeOf";
    "propertyIsEnumerable"; "toString"; "valueOf"; "__proto__";
    "toLocaleString" ].

Definition inherited (k : string) : bool :=
  existsb (String.eqb k) prototypeKeys.

Fixpoint get {V : Type} (o : t V) (k : string) : option V :=
  match o with
  | [] => None
  | (k', v) :: r => if String.eqb k' k then Some v else get r k
  end.

Fixpoint set {V : Type} (o : t V) (k : string) (v : V) : t V :=
  match o with
  | [] => [(k, v)]
  | (k', v') :: r =>
      if String.eqb k' k then (k, v) :: r else (k', v') :: set r k v
  end.

(** [arrayIndex k] is [Some n] when [k] is the canonical decimal form of an
    integer [0 <= n < 2^32 - 1]. *)
Definition arrayIndex (k : string) : option Z :=
  match k with
  | EmptyString => None
  | String c r =>
      let '(v, n, rest) := Js.digits k 0 0 in
      if (String.eqb rest "" && (negb (Ascii.eqb c "0") || (n =? 1))
          && (v <? 2 ^ 32 - 1))%bool
      then Some v else None
  end.

Definition isIndex {V : Type} (p : string * V) : bool :=
  match arrayIndex (fst p) with Some _ => true | None => false end.

Definition indexOf {V : Type} (p : string * V) : Z :=
  match arrayIndex (fst p) with Some n => n | None => 0 end.

Definition entries {V : Type} (o : t V) : list (string * V) :=
  Js.sort (fun a b => indexOf a - indexOf b) (filter isIndex o)
  ++ filter (fun p => negb (isIndex p)) o.

Definition keys {V : Type} (o : t V) : list string := map fst (entries o).
Definition values {V : Type} (o : t V) : list V := map snd (entries o).

End JsObject.

(** ** The daily-operations view and the PDF report (home.tsx) *)

Module Group.
Record t := mk {
  name : string;
  goodsType : string;
  totalCars : Js.number;
  totalAmount : Js.number;
  entries : list Customer.t;
  allPaid : bool
}.
End Group.

Module PdfGroup.
Record t := mk {
  name : string;
  goodsType : string;
  totalCars : Js.number;
  totalAmount : Js.number;
  entries : list Customer.t
}.
End PdfGroup.

Module Home.

Section View.

(** [Intl.DateTimeFormat('en-GB', { year: 'numeric', month: '2-digit',
    day: '2-digit' }).format] belongs to the platform and depends on the
    time zone of the host: it is a parameter, applied to the time value. *)
Variable dateTimeFormat : Z -> string.

Definition formatDate (date : Z) : string := dateTimeFormat date.

(** *** customersByDate *)

Definition byDateStep (acc : JsObject.t (list Customer.t))
  (customer : Customer.t) : option (JsObject.t (list Customer.t)) :=
  let dateKey := formatDate (Customer.createdAt customer) in
  match JsObject.get acc dateKey with
  | Some dateCustomers =>
      Some (JsObject.set acc dateKey (dateCustomers ++ [customer]))
  | None =>
      (* an inherited property is truthy and has no [push]: TypeError *)
      if JsObject.inherited dateKey then None
      else Some (JsObject.set acc dateKey ([] ++ [customer]))
  end.

Definition customersByDate (customers : list Customer.t)
  : option (JsObject.t (list Customer.t)) :=
  Js.reduce byDateStep customers JsObject.empty.

(** *** recentDates *)

(** [customersByDate[k][0].createdAt]; every key of the object holds a
    non-empty array, the other branch is there for totality. *)
Definition firstCreatedAt (byDate : JsObject.t (list Customer.t))
  (k : string) : Z :=
  match JsObject.get byDate k with
  | Some (customer :: _) => Customer.createdAt customer
  | _ => 0
  end.

Definition sortedDates (byDate : JsObject.t (list Customer.t)) : list string :=
  Js.sort (fun a b => firstCreatedAt byDate b - firstCreatedAt byDate a)
          (JsObject.keys byDate).

Definition recentDates (byDate : JsObject.t (list Customer.t)) : list string :=
  firstn 3 (sortedDates byDate).

End View.

(** *** groupedByName *)

Definition addEntry (group : Group.t) (customer : Customer.t) : Group.t :=
  Group.mk
    (Group.name group)
    (Group.goodsType group)
    (Js.add (Group.totalCars group) (Customer.carCount customer))
    (Js.add (Group.totalAmount group) (Js.parseFloat (Customer.amount customer)))
    (Group.entries group ++ [customer])
    (if String.eqb (Customer.paymentStatus customer) "unpaid" then false
     else Group.allPaid group).

Definition newGroup (customer : Customer.t) : Group.t :=
  Group.mk (Customer.name customer) (Customer.goodsType customer)
           Js.zero Js.zero [] true.

Definition byNameStep (acc : JsObject.t Group.t) (customer : Customer.t)
  : option (JsObject.t Group.t) :=
  let name := Customer.name customer in
  match JsObject.get acc name with
  | Some group => Some (JsObject.set acc name (addEntry group customer))
  | None =>
      (* an inherited property is truthy and has no [entries] array whose
         [push] could be called: TypeError *)
      if JsObject.inherited name then None
      else Some (JsObject.set acc name (addEntry (newGroup customer) customer))
  end.

Definition groupedByName (dateCustomers : list Customer.t)
  : option (JsObject.t Group.t) :=
  Js.reduce byNameStep dateCustomers JsObject.empty.

(** *** One date of the view *)

Record DateSection := mkDateSection {
  dateKey : string;
  customerGroups : list Group.t;
  totalDayAmount : Js.number
}.

Definition renderDate (byDate : JsObject.t (list Customer.t)) (dateKey : string)
  : option DateSection :=
  match JsObject.get byDate dateKey with
  | None => None
  | Some dateCustomers =>
      match groupedByName dateCustomers with
      | None => None
      | Some grouped =>
          let customerGroups := JsObject.values grouped in
          let totalDayAmount :=
            fold_left (fun sum group => Js.add sum (Group.totalAmount group))
                      customerGroups Js.zero in
          Some (mkDateSection dateKey customerGroups totalDayAmount)
      end
  end.

(** [keys.map(render)], where [render] may throw. *)
Fixpoint renderDates (byDate : JsObject.t (list Customer.t))
  (keys : list string) : option (list DateSection) :=
  match keys with
  | [] => Some []
  | k :: r =>
      match renderDate byDate k with
      | None => None
      | Some d => match renderDates byDate r with
                  | None => None
                  | Some ds => Some (d :: ds)
                  end
      end
  end.

(** The list rendered by the view: nothing for no customers, else the three
    most recent dates. *)
Definition dailyOperations (dateTimeFormat : Z -> string)
  (customers : list Customer.t) : option (list DateSection) :=
  match customers with
  | [] => Some []
  | _ =>
      match customersByDate dateTimeFormat customers with
      | None => None
      | Some byDate => renderDates byDate (recentDates byDate)
      end
  end.

(** *** groupedCustomers of the PDF report *)

Definition pdfAddEntry (group : PdfGroup.t) (customer : Customer.t)
  : PdfGroup.t :=
  PdfGroup.mk
    (PdfGroup.name group)
    (PdfGroup.goodsType group)
    (Js.add (PdfGroup.totalCars group) (Customer.carCount customer))
    (Js.add (PdfGroup.totalAmount group)
            (Js.parseFloat (Customer.amount customer)))
    (PdfGroup.entries group ++ [customer]).

Definition pdfNewGroup (customer : Customer.t) : PdfGroup.t :=
  PdfGroup.mk (Customer.name customer) (Customer.goodsType customer)
              Js.zero Js.zero [].

Definition pdfStep (acc : JsObject.t PdfGroup.t) (customer : Customer.t)
  : option (JsObject.t PdfGroup.t) :=
  let name := Customer.name customer in
  match JsObject.get acc name with
  | Some group => Some (JsObject.set acc name (pdfAddEntry group customer))
  | None =>
      if JsObject.inherited name then None
      else Some (JsObject.set acc name
                   (pdfAddEntry (pdfNewGroup customer) customer))
  end.

Definition groupedCustomers (customers : list Customer.t)
  : option (JsObject.t PdfGroup.t) :=
  Js.reduce pdfStep customers JsObject.empty.

(** The groups the report prints, in order. *)
Definition pdfGroups (customers : list Customer.t) : option (list PdfGroup.t) :=
  option_map JsObject.values (groupedCustomers customers).

End Home.

(** ** A date format for examples: en-GB in the UTC time zone *)

Module EnGB.

Definition msPerDay : Z := 86400000.

(** The civil date (year, month, day) of a day number counted from
    1970-01-01, in the proleptic Gregorian calendar. *)
Definition civilFromDays (days : Z) : Z * Z * Z :=
  let z := days + 719468 in
  let era := z / 146097 in
  let doe := z - era * 146097 in
  let yoe := (doe - doe / 1460 + doe / 36524 - doe / 146096) / 365 in
  let doy := doe - (365 * yoe + yoe / 4 - yoe / 100) in
  let mp := (5 * doy + 2) / 153 in
  let d := doy - (153 * mp + 2) / 5 + 1 in
  let m := if mp <? 10 then mp + 3 else mp - 9 in
  let y := yoe + era * 400 in
  (if m <=? 2 then y + 1 else y, m, d).

Definition digitChar (n : Z) : ascii := ascii_of_N (Z.to_N (48 + n mod 10)).

Definition twoDigits (n : Z) : string :=
  String (digitChar (n / 10)) (String (digitChar n) "").

Fixpoint decimalDigits (fuel : nat) (n : Z) (acc : string) : string :=
  match fuel with
  | O => acc
  | S fuel' =>
      let acc' := String (digitChar n) acc in
      if n <? 10 then acc' else decimalDigits fuel' (n / 10) acc'
  end.

(** "DD/MM/YYYY" for the years from 1 on. *)
Definition format (date : Z) : string :=
  let '(y, m, d) := civilFromDays (date / msPerDay) in
  (twoDigits d ++ "/" ++ twoDigits m ++ "/" ++ decimalDigits 7 y "")%string.

(** The day number of a civil date, the inverse of [civilFromDays]. *)
Definition daysFromCivil (ymd : Z * Z * Z) : Z :=
  let '(y, m, d) := ymd in
  let y' := if m <=? 2 then y - 1 else y in
  let era := y' / 400 in
  let yoe := y' - era * 400 in
  let mp := if 2 <? m then m - 3 else m + 9 in
  let doy := (153 * mp + 2) / 5 + d - 1 in
  let doe := yoe * 365 + yoe / 4 - yoe / 100 + doy in
  era * 146097 + doe - 719468.

(** The largest time value of a Date; the dates considered are those from
    1970 to it. *)
Definition maxTime : Z := 8640000000000000.

Definition validTime (date : Z) : Prop := 0 <= date <= maxTime.

End EnGB.

(** ** Vocabulary of the properties *)

(** The sum of the parsed amounts, as the handlers fold it: from [0], left
    to right. *)
Definition sumAmounts (amounts : list string) : Js.number :=
  fold_left (fun sum a => Js.add sum (Js.parseFloat a)) amounts Js.zero.

(** Merging a partial update: what each field of the result is. *)
Definition merged {A : Type} (old : A) (upd : option A) (new : A) : Prop :=
  (forall v, upd = Some v -> new = v) /\ (upd = None -> new = old).

(** *** Amounts as exact decimals

    The specification reads an amount as an exact decimal: digits, then
    possibly a point and fractional digits.  [exactAmount] is that reading,
    as a rational; [fractionDigits] counts the digits after the point. *)

Definition exactAmount (a : string) : option Q :=
  let '(ip, ni, r1) := Js.digits a 0 0 in
  match r1 with
  | EmptyString => if 0 <? ni then Some (inject_Z ip) else None
  | String "."%char r =>
      let '(m, nf, r2) := Js.digits r ip 0 in
      if (String.eqb r2 "" && (0 <? ni + nf))%bool
      then Some (Qmake m (Z.to_pos (10 ^ nf))) else None
  | _ => None
  end.

Definition fractionDigits (a : string) : Z :=
  let '(_, _, r1) := Js.digits a 0 0 in
  match r1 with
  | String "."%char r => let '(_, nf, _) := Js.digits r 0 0 in nf
  | _ => 0
  end.

(** The exact sum of a list of amounts, when each is a decimal. *)
Fixpoint exactSum (amounts : list string) : option Q :=
  match amounts with
  | [] => Some 0%Q
  | a :: r =>
      match exactAmount a, exactSum r with
      | Some q, Some t => Some (q + t)%Q
      | _, _ => None
      end
  end.

(** The computed sum is finite and its value is the exact sum. *)
Definition sumIsExact (amounts : list string) : Prop :=
  exists q e, Js.toQ (sumAmounts amounts) = Some q
              /\ exactSum amounts = Some e /\ (q == e)%Q.

(** Whole-number amounts: a non-empty string of digits, and its value. *)
Fixpoint allDigits (a : string) : bool :=
  match a with
  | EmptyString => true
  | String c r => (Js.isDigit c && allDigits r)%bool
  end.

Definition wholeNumber (a : string) : bool :=
  match a with
  | EmptyString => false
  | String _ _ => allDigits a
  end.

Fixpoint digitsValue (a : string) (acc : Z) : Z :=
  match a with
  | EmptyString => acc
  | String c r => digitsValue r (10 * acc + (Js.code c - 48))
  end.

Definition wholeValue (a : string) : Z := digitsValue a 0.

Definition wholeTotal (amounts : list string) : Z :=
  fold_right Z.add 0 (map wholeValue amounts).

(** *** Grouping by a key

    The three [reduce] calls of home.tsx have one shape: look the key of the
    element up in the accumulator, create its group when there is none, add
    the element to the group.  [groupStep] is that shape, [groupOf] the
    group a key must end up with: the elements of that key, in order, added
    to the group created from the first of them. *)

Section GroupBy.
Context {A G : Type}.
Variables (key : A -> string) (init : A -> G) (add : G -> A -> G).

Definition groupStep (acc : JsObject.t G) (x : A) : option (JsObject.t G) :=
  match JsObject.get acc (key x) with
  | Some g => Some (JsObject.set acc (key x) (add g x))
  | None =>
      if JsObject.inherited (key x) then None
      else Some (JsObject.set acc (key x) (add (init x) x))
  end.

Definition withKey (k : string) (l : list A) : list A :=
  filter (fun x => String.eqb (key x) k) l.

Definition groupOf (k : string) (l : list A) : option G :=
  match withKey k l with
  | [] => None
  | x :: rest => Some (fold_left add (x :: rest) (init x))
  end.

(** The accumulator after the elements [l]: one property for each key that
    occurs, holding that key's group. *)
Definition groups (l : list A) (o : JsObject.t G) : Prop :=
  NoDup (map fst o)
  /\ forall k g, In (k, g) o <-> groupOf k l = Some g.

Definition noInheritedKey (l : list A) : Prop :=
  Forall (fun x => JsObject.inherited (key x) = false) l.

End GroupBy.

(** *** What a name group is

    [isGroupOf n l g]: [g] is the group of the name [n] among the customers
    [l] of one date: its entries are the customers of that name, in order,
    and its other fields are computed from them. *)

Definition notUnpaid (c : Customer.t) : bool :=
  negb (String.eqb (Customer.paymentStatus c) "unpaid").

Definition sumCars (l : list Customer.t) : Js.number :=
  fold_left (fun sum c => Js.add sum (Customer.carCount c)) l Js.zero.

Definition isGroupOf (n : string) (l : list Customer.t) (g : Group.t) : Prop :=
  Group.name g = n
  /\ Group.entries g = withKey Customer.name n l
  /\ Group.entries g <> []
  /\ Group.totalAmount g = sumAmounts (map Customer.amount (Group.entries g))
  /\ Group.totalCars g = sumCars (Group.entries g)
  /\ Group.allPaid g = forallb notUnpaid (Group.entries g)
  /\ (forall c, hd_error (Group.entries g) = Some c ->
                Group.goodsType g = Customer.goodsType c).

(** The date key of a customer, and the customers of a date. *)
Definition dateKeyOf (dateTimeFormat : Z -> string) (c : Customer.t) : string :=
  Home.formatDate dateTimeFormat (Customer.createdAt c).

Definition customersOfDate (dateTimeFormat : Z -> string) (k : string)
  (l : list Customer.t) : list Customer.t :=
  withKey (dateKeyOf dateTimeFormat) k l.

(** The payment status is one of the two the schema names. *)
Definition validStatus (c : Customer.t) : Prop :=
  Customer.paymentStatus c = "paid" \/ Customer.paymentStatus c = "unpaid".

(** A customer with its payment status set to unpaid. *)
Definition markUnpaid (c : Customer.t) : Customer.t :=
  Customer.mk (Customer.id c) (Customer.name c) (Customer.goodsType c)
              (Customer.carCount c) (Customer.amount c) "unpaid"
              (Customer.createdAt c).

(** The sum over the date partitions of the sums over their name groups of
    [totalAmount], each sum folded from [0] as [totalDayAmount] is. *)
Definition sumOfGroupTotals (sections : list Home.DateSection) : Js.number :=
  fold_left (fun sum d =>
               Js.add sum
                 (fold_left (fun s g => Js.add s (Group.totalAmount g))
                            (Home.customerGroups d) Js.zero))
            sections Js.zero.

(** All the entries of all the groups, in the order of the view. *)
Definition allEntries (sections : list Home.DateSection) : list Customer.t :=
  List.concat
    (map (fun d => List.concat (map Group.entries (Home.customerGroups d)))
         sections).

Definition zsum (l : list Z) : Z := fold_right Z.add 0 l.

(** Customers whose amounts are whole numbers, and the integer total. *)
Definition wholeAmounts (l : list Customer.t) : Prop :=
  Forall (fun c => wholeNumber (Customer.amount c) = true) l.

Definition amountValue (c : Customer.t) : Z := wholeValue (Customer.amount c).

Definition amountsTotal (l : list Customer.t) : Z := zsum (map amountValue l).

(** *** Dates

    A date key stands for a calendar day when the customers of one key are
    contiguous in time: a customer created between two customers of one date
    has that date too.  [moreRecent l k k']: every customer of date [k] was
    created after every customer of date [k']. *)

Definition calendarDays (dateTimeFormat : Z -> string) (l : list Customer.t)
  : Prop :=
  forall a b c, In a l -> In b l -> In c l ->
    Customer.createdAt a <= Customer.createdAt b <= Customer.createdAt c ->
    dateKeyOf dateTimeFormat a = dateKeyOf dateTimeFormat c ->
    dateKeyOf dateTimeFormat b = dateKeyOf dateTimeFormat a.

Definition moreRecent (dateTimeFormat : Z -> string) (l : list Customer.t)
  (k k' : string) : Prop :=
  forall c c', In c l -> In c' l ->
    dateKeyOf dateTimeFormat c = k -> dateKeyOf dateTimeFormat c' = k' ->
    Customer.createdAt c' < Customer.createdAt c.

(** The stores the program can be in: the new store, and whatever the
    methods make of such a store. *)
Inductive reachable : MemStorage.t -> Prop :=
| reach_new : reachable MemStorage.constructor
| reach_createCustomer now ins s :
    reachable s -> reachable (snd (MemStorage.createCustomer now ins s))
| reach_updateCustomer id upd s :
    reachable s -> reachable (snd (MemStorage.updateCustomer id upd s))
| reach_deleteCustomer id s :
    reachable s -> reachable (snd (MemStorage.deleteCustomer id s))
| reach_createExpense now ins s :
    reachable s -> reachable (snd (MemStorage.createExpense now ins s))
| reach_updateExpense id upd s :
    reachable s -> reachable (snd (MemStorage.updateExpense id upd s))
| reach_deleteExpense id s :
    reachable s -> reachable (snd (MemStorage.deleteExpense id s))
| reach_clearAllData s :
    reachable s -> reachable (MemStorage.clearAllData s).

(** The exact sum of the group totals, as a rational. *)
Definition exactSumOfGroupTotals (sections : list Home.DateSection) : option Q :=
  fold_left (fun sum g =>
               match sum, Js.toQ (Group.totalAmount g) with
               | Some q, Some t => Some (q + t)%Q
               | _, _ => None
               end)
            (List.concat (map Home.customerGroups sections)) (Some 0%Q).

(** A mantissa with no bit shifted out of it yet. *)
Definition exactRecord (m : Z) : shr_record :=
  {| shr_m := m; shr_r := false; shr_s := false |}.

(** ** Example data *)

Module Ex.

(** 2 November 2024, 00:00 UTC, and the two days after it. *)
Definition day1 : Z := 1730505600000.
Definition day2 : Z := day1 + EnGB.msPerDay.
Definition day3 : Z := day2 + EnGB.msPerDay.

Definition customer (id : Z) (name amount status : string) (cars at_ : Z)
  : Customer.t :=
  Customer.mk id name "X" (Js.ofZ cars) amount status at_.

(** The scenario of the specification: two entries of customer A on one
    day, one paid and one not, and one expense. *)
Definition scenarioC : list Customer.t :=
  [ customer 1 "A" "100" "paid" 2 day1;
    customer 2 "A" "50" "unpaid" 1 (day1 + 1000) ].

Definition scenarioE : list Expense.t := [ Expense.mk 1 "fuel" "30" day1 ].

(** Amounts with one fractional digit, on one day. *)
Definition tenths : list Customer.t :=
  [ customer 1 "A" "1.1" "paid" 1 day1;
    customer 2 "B" "2.2" "paid" 1 (day1 + 1000);
    customer 3 "A" "3.3" "paid" 1 (day1 + 2000) ].

(** The same customer on two days. *)
Definition twoDays : list Customer.t :=
  [ customer 2 "A" "50" "paid" 1 day2;
    customer 1 "A" "100" "paid" 2 day1 ].

(** Five customers over four days, most recent first. *)
Definition fourDays : list Customer.t :=
  [ customer 5 "B" "70" "paid" 1 (day3 + EnGB.msPerDay + 5000);
    customer 4 "A" "60" "unpaid" 1 (day3 + 4000);
    customer 3 "B" "20" "paid" 3 (day2 + 3000);
    customer 2 "A" "50" "paid" 1 (day2 + 2000);
    customer 1 "A" "100" "paid" 2 day1 ].

(** The four most recent of them, over three days. *)
Definition threeDays : list Customer.t := firstn 4 fourDays.

(** A store holding one customer and one expense. *)
Definition store : MemStorage.t :=
  snd (MemStorage.createExpense day1 (InsertExpense.mk "fuel" "30")
         (snd (MemStorage.createCustomer day1
                 (InsertCustomer.mk "A" "X" (Js.ofZ 2) "100" "paid")
                 MemStorage.constructor))).

End Ex.

(** ** More of the numbers: tests, comparison, product and quotient

    [||] on numbers, [isNaN], [>], [*] and [/]. *)

Module JsNumber.

Definition isNaN (x : Js.number) : bool :=
  match x with S754_nan => true | _ => false end.

(** [a > b]: false when either is [NaN]. *)
Definition gt (a b : Js.number) : bool := SFltb b a.

Definition mul (a b : Js.number) : Js.number := SFmul Js.prec Js.emax a b.
Definition div (a b : Js.number) : Js.number := SFdiv Js.prec Js.emax a b.

(** A number is falsy when it is [0], [-0] or [NaN]; [a || b] is [a] unless
    [a] is falsy. *)
Definition truthy (x : Js.number) : bool :=
  match x with
  | S754_zero _ | S754_nan => false
  | _ => true
  end.

Definition or (a b : Js.number) : Js.number := if truthy a then a else b.

End JsNumber.

(** ** Set<string> (home.tsx)

    A [Set] holds each value once and iterates in insertion order. *)

Module JsSet.

Definition t := list string.

Definition has (s : t) (k : string) : bool := existsb (String.eqb k) s.

Definition add (s : t) (k : string) : t := if has s k then s else s ++ [k].

Definition delete (s : t) (k : string) : t :=
  filter (fun x => negb (String.eqb x k)) s.

(** [new Set(s)]: a set of its own with the same values. *)
Definition copy (s : t) : t := s.

End JsSet.

(** ** More of the page (home.tsx) *)

Module HomePage.

(** The test of the [amount] field of [customerSchema] and of
    [expenseSchema]:
    [(val) => !isNaN(parseFloat(val)) && parseFloat(val) > 0]. *)
Definition amountRefine (val : string) : bool :=
  negb (JsNumber.isNaN (Js.parseFloat val))
  && JsNumber.gt (Js.parseFloat val) Js.zero.

(** The click on the header of a date: the set of expanded dates that
    [setExpandedDates] receives. *)
Definition toggleExpanded (expandedDates : JsSet.t) (dateKey : string)
  : JsSet.t :=
  let isExpanded := JsSet.has expandedDates dateKey in
  let newExpanded := JsSet.copy expandedDates in
  if isExpanded then JsSet.delete newExpanded dateKey
  else JsSet.add newExpanded dateKey.

(** The expenses card: absent when there is no expense, else the rows of
    [expenses.slice(0, 3)]. *)
Definition expensesCard (expenses : list Expense.t) : option (list Expense.t) :=
  if 0 <? Z.of_nat (List.length expenses) then Some (firstn 3 expenses)
  else None.

End HomePage.

(** The distinct strings of a list, in the order of their first
    occurrences. *)
Fixpoint distinct (l : list string) : list string :=
  match l with
  | [] => []
  | k :: r => k :: filter (fun k' => negb (String.eqb k' k)) (distinct r)
  end.

(** The order in which the own keys of an object are enumerated, given the
    order [ks] in which they were created: the array indices first,
    ascending, then the other keys as created. *)
Definition isArrayIndex (k : string) : bool :=
  match JsObject.arrayIndex k with Some _ => true | None => false end.

Definition indexValue (k : string) : Z :=
  match JsObject.arrayIndex k with Some n => n | None => 0 end.

Definition enumerationOrder (ks : list string) : list string :=
  Js.sort (fun a b => indexValue a - indexValue b) (filter isArrayIndex ks)
  ++ filter (fun k => negb (isArrayIndex k)) ks.

(** *** The dates the view keeps

    [shownDates] are the date keys that [recentDates] keeps of the customers
    [l], none when [customersByDate] throws; [shownCustomers] are the
    customers of those dates, in the order of [l]; [dateCount] is the number
    of distinct date keys of [l]. *)

Definition shownDates (dateTimeFormat : Z -> string) (l : list Customer.t)
  : list string :=
  match Home.customersByDate dateTimeFormat l with
  | Some byDate => Home.recentDates byDate
  | None => []
  end.

Definition shown (dateTimeFormat : Z -> string) (l : list Customer.t)
  (c : Customer.t) : bool :=
  existsb (String.eqb (dateKeyOf dateTimeFormat c)) (shownDates dateTimeFormat l).

Definition shownCustomers (dateTimeFormat : Z -> string) (l : list Customer.t)
  : list Customer.t :=
  filter (shown dateTimeFormat l) l.

Definition dateCount (dateTimeFormat : Z -> string) (l : list Customer.t) : nat :=
  List.length (distinct (map (dateKeyOf dateTimeFormat) l)).

(** The time by which the date [k] is sorted: that of the first customer of
    [l] with that date. *)
Definition firstTimeOf (dateTimeFormat : Z -> string) (l : list Customer.t)
  (k : string) : Z :=
  match customersOfDate dateTimeFormat k l with
  | c :: _ => Customer.createdAt c
  | [] => 0
  end.

(** ** The PDF report (home.tsx, generatePDF)

    The jsPDF document is written through [setFont], [setFontSize], [text],
    [addPage] and [save]; the report is the sequence of these calls.
    Positions are in the unit of the document; they are integers far below
    2^53, on which the arithmetic of numbers is exact, and are held in [Z]. *)

Module Pdf.

Inductive Command :=
| SetFont (fontName fontStyle : string)
| SetFontSize (size : Z)
| Text (text : string) (x y : Z) (align : option string)
| AddPage
| Save (filename : string).

End Pdf.

Module Report.

Section GeneratePDF.

(** What belongs to the platform: the date format of [formatDate], the
    string a template literal gives a number, [toLocaleString] of a number
    in the locale of the host, and [toISOString] of a date. *)
Variable dateTimeFormat : Z -> string.
Variable numberToString : Js.number -> string.
Variable toLocaleString : Js.number -> string.
Variable toISOString : Z -> string.

(** [s.split('T')[0]]: what precedes the first "T". *)
Fixpoint beforeT (s : string) : string :=
  match s with
  | EmptyString => EmptyString
  | String c r => if Ascii.eqb c "T" then EmptyString else String c (beforeT r)
  end.

(** [if (yPosition > limit) { doc.addPage(); yPosition = 20; }] *)
Definition pageBreak (limit yPosition : Z) : list Pdf.Command * Z :=
  if limit <? yPosition then ([Pdf.AddPage], 20) else ([], yPosition).

(** [group.entries.forEach((entry, entryIndex) => ...)] *)
Fixpoint entryLines (entries : list Customer.t) (entryIndex yPosition : Z)
  : list Pdf.Command :=
  match entries with
  | [] => []
  | entry :: rest =>
      [ Pdf.SetFontSize 8;
        Pdf.Text
          ("     Entry " ++ numberToString (Js.ofZ (entryIndex + 1)) ++ ": "
           ++ numberToString (Customer.carCount entry) ++ " cars - "
           ++ toLocaleString (Js.parseFloat (Customer.amount entry))
           ++ " IQD ("
           ++ (if String.eqb (Customer.paymentStatus entry) "paid"
               then "Paid" else "Unpaid")
           ++ ")")%string
          25 (yPosition + 32 + entryIndex * 8) None ]
      ++ entryLines rest (entryIndex + 1) yPosition
  end.

(** The body of [Object.values(groupedCustomers).forEach((group, index) =>
    ...)] for one group: the calls, and [yPosition] afterwards. *)
Definition groupBlock (group : PdfGroup.t) (index yPosition : Z)
  : list Pdf.Command * Z :=
  let '(break, yPosition) := pageBreak 240 yPosition in
  (break
   ++ [ Pdf.SetFontSize 12;
        Pdf.Text (numberToString (Js.ofZ (index + 1)) ++ ". "
                  ++ PdfGroup.name group)%string 20 yPosition None;
        Pdf.SetFontSize 10;
        Pdf.Text ("   Goods Type: " ++ PdfGroup.goodsType group)%string
                 20 (yPosition + 8) None;
        Pdf.Text ("   Total Cars: "
                  ++ numberToString (PdfGroup.totalCars group))%string
                 20 (yPosition + 16) None;
        Pdf.Text ("   Total Amount: "
                  ++ toLocaleString (PdfGroup.totalAmount group)
                  ++ " IQD")%string
                 20 (yPosition + 24) None ]
   ++ entryLines (PdfGroup.entries group) 0 yPosition,
   yPosition + (40 + Z.of_nat (List.length (PdfGroup.entries group)) * 8)).

Fixpoint groupBlocks (groups : list PdfGroup.t) (index yPosition : Z)
  : list Pdf.Command * Z :=
  match groups with
  | [] => ([], yPosition)
  | group :: rest =>
      let '(calls, yPosition) := groupBlock group index yPosition in
      let '(calls', yPosition) := groupBlocks rest (index + 1) yPosition in
      (calls ++ calls', yPosition)
  end.

(** The body of [data.expenses.forEach((expense, index) => ...)]. *)
Definition expenseLine (expense : Expense.t) (index yPosition : Z)
  : list Pdf.Command * Z :=
  let '(break, yPosition) := pageBreak 250 yPosition in
  (break
   ++ [ Pdf.SetFontSize 10;
        Pdf.Text (numberToString (Js.ofZ (index + 1)) ++ ". "
                  ++ Expense.description expense ++ ": "
                  ++ toLocaleString (Js.parseFloat (Expense.amount expense))
                  ++ " IQD")%string 20 yPosition None ],
   yPosition + 12).

Fixpoint expenseLines (expenses : list Expense.t) (index yPosition : Z)
  : list Pdf.Command * Z :=
  match expenses with
  | [] => ([], yPosition)
  | expense :: rest =>
      let '(calls, yPosition) := expenseLine expense index yPosition in
      let '(calls', yPosition) := expenseLines rest (index + 1) yPosition in
      (calls ++ calls', yPosition)
  end.

(** [(summary as any)?.field || 0], the summary being the one the page
    holds, [{}] until it is loaded. *)
Definition summaryField (summary : option Routes.Summary)
  (field : Routes.Summary -> Js.number) : Js.number :=
  match summary with
  | Some s => JsNumber.or (field s) Js.zero
  | None => Js.zero
  end.

(** [generatePDF]: the calls made on the document, in order.  When the
    grouping throws, the document, with the header drawn on it, is dropped
    and nothing is saved: [None].  [reportTime] and [saveTime] are the time
    values of the two [new Date()]. *)
Definition generatePDF (customers : list Customer.t) (expenses : list Expense.t)
  (summary : option Routes.Summary) (reportTime saveTime : Z)
  : option (list Pdf.Command) :=
  let header :=
    [ Pdf.SetFont "helvetica" "normal";
      Pdf.SetFontSize 20;
      Pdf.Text "Hassan Accounts - Operations Report" 105 20 (Some "center");
      Pdf.SetFontSize 12;
      Pdf.Text ("Report Date: "
                ++ Home.formatDate dateTimeFormat reportTime)%string
               105 30 (Some "center") ] in
  let yPosition := 50 in
  match Home.pdfGroups customers with
  | None => None
  | Some groups =>
      let operations :=
        [ Pdf.SetFontSize 16; Pdf.Text "Operations:" 20 yPosition None ] in
      let yPosition := yPosition + 15 in
      let '(blocks, yPosition) := groupBlocks groups 0 yPosition in
      let yPosition := yPosition + 10 in
      let '(break1, yPosition) := pageBreak 240 yPosition in
      let expensesHeading :=
        [ Pdf.SetFontSize 16; Pdf.Text "Expenses:" 20 yPosition None ] in
      let yPosition := yPosition + 15 in
      let '(lines, yPosition) := expenseLines expenses 0 yPosition in
      let yPosition := yPosition + 15 in
      let '(break2, yPosition) := pageBreak 240 yPosition in
      let summaryHeading :=
        [ Pdf.SetFontSize 16; Pdf.Text "Summary:" 20 yPosition None ] in
      let yPosition := yPosition + 15 in
      let totals :=
        [ Pdf.SetFontSize 12;
          Pdf.Text ("Total Revenue: "
                    ++ toLocaleString (summaryField summary Routes.totalRevenue)
                    ++ " IQD")%string 20 yPosition None;
          Pdf.Text ("Total Expenses: "
                    ++ toLocaleString (summaryField summary Routes.totalExpenses)
                    ++ " IQD")%string 20 (yPosition + 12) None;
          Pdf.Text ("Net Total: "
                    ++ toLocaleString (summaryField summary Routes.netTotal)
                    ++ " IQD")%string 20 (yPosition + 24) None ] in
      Some (header ++ operations ++ blocks ++ break1 ++ expensesHeading
            ++ lines ++ break2 ++ summaryHeading ++ totals
            ++ [ Pdf.Save ("hassan-accounts-"
                           ++ beforeT (toISOString saveTime) ++ ".pdf")%string ])
  end.

End GeneratePDF.

End Report.

(** *** Where the texts of a report are

    A text drawn: the page it is on, the font size in force, its vertical
    position and the text.  [placed calls page size] lists the texts that
    the calls draw, in order, from the page and the font size in force
    before them. *)

Record Placed := mkPlaced {
  page : Z;
  fontSize : Z;
  top : Z;
  content : string
}.

Fixpoint placed (calls : list Pdf.Command) (page size : Z) : list Placed :=
  match calls with
  | [] => []
  | Pdf.AddPage :: rest => placed rest (page + 1) size
  | Pdf.SetFontSize n :: rest => placed rest page n
  | Pdf.Text text _ y _ :: rest =>
      mkPlaced page size y text :: placed rest page size
  | _ :: rest => placed rest page size
  end.

Fixpoint pageAfter (calls : list Pdf.Command) (page : Z) : Z :=
  match calls with
  | [] => page
  | Pdf.AddPage :: rest => pageAfter rest (page + 1)
  | _ :: rest => pageAfter rest page
  end.

Fixpoint sizeAfter (calls : list Pdf.Command) (size : Z) : Z :=
  match calls with
  | [] => size
  | Pdf.SetFontSize n :: rest => sizeAfter rest n
  | _ :: rest => sizeAfter rest size
  end.

(** [above a b]: the text [a] is on an earlier page than [b], or higher on
    the same page. *)
Definition above (a b : Placed) : Prop :=
  page a < page b \/ (page a = page b /\ top a < top b).

(** A position is a page and a height; [upTo] orders positions. *)
Definition upTo (p q : Z * Z) : Prop :=
  fst p < fst q \/ (fst p = fst q /\ snd p <= snd q).

(** [segment calls p y p' y']: from the page [p] with the pen at height [y],
    the calls draw their texts each below the one before, none above the pen
    and all of them above the position [(p', y')] at which they leave the pen;
    no text is higher than 20, and none but those of font size 8 lower
    than 279. *)
Definition segment (calls : list Pdf.Command) (p y p' y' : Z) : Prop :=
  pageAfter calls p = p'
  /\ upTo (p, y) (p', y')
  /\ forall size,
       StronglySorted above (placed calls p size)
       /\ Forall (fun t =>
                    upTo (p, y) (page t, top t)
                    /\ (page t < p' \/ (page t = p' /\ top t < y'))
                    /\ 20 <= top t
                    /\ (fontSize t <> 8 -> top t <= 279))
                 (placed calls p size).

(** ** The calculator (components/Calculator.tsx)

    The component holds four state variables; a handler reads the state of
    the render it belongs to and sets new values, which the next render
    sees.  A handler is a function from the state to the next state. *)

(** [s.indexOf(t)]: the position of the first occurrence, [-1] without. *)
Definition indexOf (s t : string) : Z :=
  match String.index 0 t s with
  | Some n => Z.of_nat n
  | None => -1
  end.

Module Calculator.

Record State := mkState {
  display : string;
  previousValue : option Js.number;       (* [None] is [null] *)
  operation : option string;
  waitingForNewValue : bool
}.

(** The state of the first render: the arguments of the [useState] calls. *)
Definition initial : State := mkState "0" None None false.

(** The signs on the operator buttons: U+00F7 and U+00D7, in UTF-8, and the
    ASCII minus and plus. *)
Definition divideSign : string := String "195"%char (String "183"%char "").
Definition timesSign : string := String "195"%char (String "151"%char "").

(** *** The buttons of the pad *)

Inductive Digit := D0 | D1 | D2 | D3 | D4 | D5 | D6 | D7 | D8 | D9.

Definition digitString (d : Digit) : string :=
  match d with
  | D0 => "0" | D1 => "1" | D2 => "2" | D3 => "3" | D4 => "4"
  | D5 => "5" | D6 => "6" | D7 => "7" | D8 => "8" | D9 => "9"
  end.

Inductive Operator := Divide | Times | Minus | Plus.

Definition operatorString (o : Operator) : string :=
  match o with
  | Divide => divideSign
  | Times => timesSign
  | Minus => "-"
  | Plus => "+"
  end.

Inductive Button :=
| Num (d : Digit)         (* [onClick={() => inputNumber("7")}] *)
| Dot                     (* [onClick={inputDot}] *)
| Clear                   (* [onClick={clear}] *)
| Op (o : Operator)       (* [onClick={() => performOperation("+")}] *)
| Equals.                 (* [onClick={handleEquals}] *)

(** The buttons that enter a number: the digits and the point. *)
Inductive Entry := EDigit (d : Digit) | EDot.

Definition entryButton (e : Entry) : Button :=
  match e with EDigit d => Num d | EDot => Dot end.

Section Handlers.

(** [String(result)], the decimal form of a number, belongs to the
    platform. *)
Variable toString : Js.number -> string.

Definition inputNumber (num : string) (st : State) : State :=
  if waitingForNewValue st then
    mkState num (previousValue st) (operation st) false
  else
    mkState (if String.eqb (display st) "0" then num
             else (display st ++ num)%string)
            (previousValue st) (operation st) (waitingForNewValue st).

Definition inputDot (st : State) : State :=
  if waitingForNewValue st then
    mkState "0." (previousValue st) (operation st) false
  else if indexOf (display st) "." =? -1 then
    mkState (display st ++ ".")%string
            (previousValue st) (operation st) (waitingForNewValue st)
  else st.

Definition clear (st : State) : State := mkState "0" None None false.

Definition calculate (firstValue secondValue : Js.number) (operation : string)
  : Js.number :=
  if String.eqb operation "+" then Js.add firstValue secondValue
  else if String.eqb operation "-" then Js.sub firstValue secondValue
  else if String.eqb operation timesSign then JsNumber.mul firstValue secondValue
  else if String.eqb operation divideSign then JsNumber.div firstValue secondValue
  else if String.eqb operation "=" then secondValue
  else secondValue.

(** A string is truthy unless it is empty. *)
Definition truthyString (s : string) : bool := negb (String.eqb s "").

Definition performOperation (nextOperation : string) (st : State) : State :=
  let inputValue := Js.parseFloat (display st) in
  match previousValue st with
  | None =>
      mkState (display st) (Some inputValue) (Some nextOperation) true
  | Some previous =>
      match operation st with
      | Some op =>
          if truthyString op then
            let currentValue := JsNumber.or previous Js.zero in
            let result := calculate currentValue inputValue op in
            mkState (toString result) (Some result) (Some nextOperation) true
          else mkState (display st) (previousValue st) (Some nextOperation) true
      | None => mkState (display st) (previousValue st) (Some nextOperation) true
      end
  end.

Definition handleEquals (st : State) : State :=
  let inputValue := Js.parseFloat (display st) in
  match previousValue st, operation st with
  | Some previous, Some op =>
      if truthyString op then
        let result := calculate previous inputValue op in
        mkState (toString result) None None true
      else st
  | _, _ => st
  end.

Definition press (b : Button) (st : State) : State :=
  match b with
  | Num d => inputNumber (digitString d) st
  | Dot => inputDot st
  | Clear => clear st
  | Op o => performOperation (operatorString o) st
  | Equals => handleEquals st
  end.

(** The state after the buttons are pressed one after the other. *)
Definition run (buttons : list Button) (st : State) : State :=
  fold_left (fun st b => press b st) buttons st.

(** What the display shows once the digits and points [es] are pressed on
    the calculator as it opens. *)
Definition entered (es : list Entry) : string :=
  display (run (map entryButton es) initial).

End Handlers.

Definition digitValue (d : Digit) : Z :=
  match d with
  | D0 => 0 | D1 => 1 | D2 => 2 | D3 => 3 | D4 => 4
  | D5 => 5 | D6 => 6 | D7 => 7 | D8 => 8 | D9 => 9
  end.

(** The integer that a sequence of digits writes. *)
Definition digitsNumber (ds : list Digit) : Z :=
  fold_left (fun acc d => 10 * acc + digitValue d) ds 0.

End Calculator.

(** A display as the digit and point buttons build it: a whole part with no
    superfluous zero in front, alone or followed by a point and digits. *)
Definition wholePart (ip : string) : Prop :=
  wholeNumber ip = true
  /\ (ip = "0" \/ exists c r, ip = String c r /\ c <> "0"%char).

Definition typedLiteral (d : string) : Prop :=
  exists ip,
    wholePart ip
    /\ (d = ip
        \/ exists fp, allDigits fp = true /\ d = (ip ++ "." ++ fp)%string).

(** The calculator holds a result, or a display that is being typed. *)
Definition entering (st : Calculator.State) : Prop :=
  Calculator.waitingForNewValue st = true
  \/ typedLiteral (Calculator.display st).

(** A number that is not [NaN] and has the sign [s]: a zero, a finite
    number or an infinity of that sign. *)
Definition hasSign (s : bool) (x : Js.number) : Prop :=
  match x with
  | S754_nan => False
  | S754_zero s' | S754_infinity s' | S754_finite s' _ _ => s' = s
  end.

(** ** The store and the summary: vocabulary *)

(** The identifiers handed out lie below the counters: every stored
    identifier is at least 1 and below its counter, as long as the counter,
    a number, has not reached 2^53, where [n++] stops counting. *)
Definition countersAhead (s : MemStorage.t) : Prop :=
  1 <= MemStorage.currentCustomerId s <= 2 ^ 53
  /\ 1 <= MemStorage.currentExpenseId s <= 2 ^ 53
  /\ (forall k, In k (JsMap.keys (MemStorage.customers s)) ->
        1 <= k /\ (k < MemStorage.currentCustomerId s
                   \/ 2 ^ 53 - 1 <= MemStorage.currentCustomerId s))
  /\ (forall k, In k (JsMap.keys (MemStorage.expenses s)) ->
        1 <= k /\ (k < MemStorage.currentExpenseId s
                   \/ 2 ^ 53 - 1 <= MemStorage.currentExpenseId s)).

(** Most recent first. *)
Definition newestFirst {A : Type} (createdAt : A -> Z) (l : list A) : Prop :=
  StronglySorted (fun a b => createdAt b <= createdAt a) l.

(** Expenses whose amounts are whole numbers, and the integer total. *)
Definition wholeExpenses (l : list Expense.t) : Prop :=
  Forall (fun e => wholeNumber (Expense.amount e) = true) l.

Definition expensesTotal (l : list Expense.t) : Z :=
  zsum (map (fun e => wholeValue (Expense.amount e)) l).

(** Car counts that are non-negative integers, and the integer total. *)
Definition carsValue (c : Customer.t) : Z := Js.toZ (Customer.carCount c).

Definition wholeCars (l : list Customer.t) : Prop :=
  Forall (fun c => Customer.carCount c = Js.ofZ (carsValue c) /\ 0 <= carsValue c) l.

Definition carsTotal (l : list Customer.t) : Z := zsum (map carsValue l).

(** ** More example data *)

Module Sample.

(** A store with two customers and two expenses, created in this order. *)
Definition store2 : MemStorage.t :=
  snd (MemStorage.createExpense (Ex.day2 + 500) (InsertExpense.mk "tolls" "5")
    (snd (MemStorage.createCustomer Ex.day2
            (InsertCustomer.mk "B" "Y" (Js.ofZ 3) "40" "unpaid")
            Ex.store))).

Definition newCustomer : InsertCustomer.t :=
  InsertCustomer.mk "C" "Z" (Js.ofZ 1) "70" "paid".

Definition newExpense : InsertExpense.t := InsertExpense.mk "rent" "20".


(** Stand-ins for the functions of the platform. *)
Definition showNumber (x : Js.number) : string := "n".
Definition showTime (t : Z) : string := "2024-11-02T00:00:00.000Z".

End Sample.

(* ================================================================== *)
(** * Part II: properties                                              *)
(* ================================================================== *)

Lemma fold_left_map_amount {A : Type} (f : A -> string) (l : list A) (z : Js.number) :
  fold_left (fun sum x => Js.add sum (Js.parseFloat (f x))) l z
  = fold_left (fun sum a => Js.add sum (Js.parseFloat a)) (map f l) z.
Proof.
  revert z; induction l as [|x l IH]; intros z; simpl; [reflexivity|apply IH].
Qed.

Lemma strictEq_refl (x : Js.number) : x <> Js.NaN -> Js.strictEq x x = true.
Proof.
  unfold Js.strictEq, SFeqb; destruct x as [s|s| |s m e]; intros N.
  - reflexivity.
  - now destruct s.
  - now contradiction N.
  - simpl; destruct s; rewrite Z.compare_refl, Pos.compare_cont_refl; reflexivity.
Qed.

(** ** Maps *)

Section JsMapFacts.
Context {V : Type}.
Implicit Types (m : JsMap.t V) (k : Z) (v : V).

Lemma get_set_same m k v : JsMap.get (JsMap.set m k v) k = Some v.
Proof.
  induction m as [|[k' v'] m IH]; simpl.
  - now rewrite Z.eqb_refl.
  - destruct (k' =? k) eqn:E; simpl.
    + now rewrite Z.eqb_refl.
    + now rewrite E.
Qed.

Lemma get_set_other m k k' v :
  k' <> k -> JsMap.get (JsMap.set m k v) k' = JsMap.get m k'.
Proof.
  intros N; induction m as [|[k0 v0] m IH]; simpl.
  - destruct (k =? k') eqn:E; [apply Z.eqb_eq in E; congruence | reflexivity].
  - destruct (k0 =? k) eqn:E; simpl.
    + apply Z.eqb_eq in E; subst k0.
      destruct (k =? k') eqn:E'; [apply Z.eqb_eq in E'; congruence | reflexivity].
    + destruct (k0 =? k'); [reflexivity | apply IH].
Qed.

Lemma get_remove_same m k : JsMap.get (JsMap.remove m k) k = None.
Proof.
  induction m as [|[k' v'] m IH]; simpl; [reflexivity|].
  destruct (k' =? k) eqn:E; simpl; [apply IH | now rewrite E].
Qed.

Lemma get_remove_other m k k' :
  k' <> k -> JsMap.get (JsMap.remove m k) k' = JsMap.get m k'.
Proof.
  intros N; induction m as [|[k0 v0] m IH]; simpl; [reflexivity|].
  destruct (k0 =? k) eqn:E; simpl.
  - apply Z.eqb_eq in E; subst k0.
    destruct (k =? k') eqn:E'; [apply Z.eqb_eq in E'; congruence | apply IH].
  - destruct (k0 =? k'); [reflexivity | apply IH].
Qed.

Lemma remove_absent m k : JsMap.get m k = None -> JsMap.remove m k = m.
Proof.
  induction m as [|[k' v'] m IH]; simpl; [reflexivity|].
  destruct (k' =? k); [discriminate | intros H; now rewrite IH].
Qed.

Lemma in_remove m k k' v :
  In (k', v) (JsMap.remove m k) <-> In (k', v) m /\ k' <> k.
Proof.
  induction m as [|[k0 v0] m IH]; simpl; [tauto|].
  destruct (k0 =? k) eqn:E.
  - apply Z.eqb_eq in E; subst k0. rewrite IH. split.
    + tauto.
    + intros [[H|H] N]; [inversion H; congruence | tauto].
  - apply Z.eqb_neq in E. simpl. rewrite IH. split.
    + intros [H|H]; [inversion H; subst; tauto | tauto].
    + tauto.
Qed.

Lemma in_keys m k v : In (k, v) m -> In k (JsMap.keys m).
Proof. intros H; apply (in_map fst) in H; exact H. Qed.

Lemma get_None_keys m k : JsMap.get m k = None <-> ~ In k (JsMap.keys m).
Proof.
  induction m as [|[k' v'] m IH]; simpl; [tauto|].
  destruct (k' =? k) eqn:E.
  - apply Z.eqb_eq in E; split; [discriminate | tauto].
  - apply Z.eqb_neq in E; rewrite IH; tauto.
Qed.

Lemma keys_set m k v :
  JsMap.keys (JsMap.set m k v)
  = if JsMap.has m k then JsMap.keys m else JsMap.keys m ++ [k].
Proof.
  unfold JsMap.has; induction m as [|[k' v'] m IH]; simpl; [reflexivity|].
  destruct (k' =? k) eqn:E; simpl.
  - apply Z.eqb_eq in E; now subst.
  - rewrite IH; now destruct (JsMap.get m k).
Qed.

Lemma NoDup_keys_set m k v :
  NoDup (JsMap.keys m) -> NoDup (JsMap.keys (JsMap.set m k v)).
Proof.
  intros H; rewrite keys_set; unfold JsMap.has.
  destruct (JsMap.get m k) eqn:G; [exact H|].
  apply get_None_keys in G.
  apply NoDup_rev in H. rewrite <- (rev_involutive (_ ++ _)).
  apply NoDup_rev. rewrite rev_app_distr; simpl.
  constructor; [rewrite <- in_rev; exact G | exact H].
Qed.

Lemma in_set m k v k' v' :
  NoDup (JsMap.keys m) ->
  In (k', v') (JsMap.set m k v) ->
  (k' = k /\ v' = v) \/ (In (k', v') m /\ k' <> k).
Proof.
  induction m as [|[k0 v0] m IH]; simpl; intros ND.
  - intros [H|[]]; inversion H; auto.
  - inversion ND as [|? ? Hn ND']; subst.
    destruct (k0 =? k) eqn:E; simpl.
    + apply Z.eqb_eq in E; subst k0.
      intros [H|H]; [inversion H; auto|].
      right; split; [auto|].
      intros ->; apply Hn; eapply in_keys; eauto.
    + apply Z.eqb_neq in E.
      intros [H|H]; [inversion H; subst; auto|].
      destruct (IH ND' H) as [?|[? ?]]; auto.
Qed.

Lemma NoDup_keys_remove m k :
  NoDup (JsMap.keys m) -> NoDup (JsMap.keys (JsMap.remove m k)).
Proof.
  induction m as [|[k0 v0] m IH]; simpl; intros ND; [constructor|].
  inversion ND as [|? ? Hn ND']; subst.
  destruct (k0 =? k); simpl; [auto|].
  constructor; [|auto].
  intros H; apply Hn.
  apply in_map_iff in H; destruct H as [[k1 v1] [E H]]; simpl in E; subst k1.
  apply in_remove in H; destruct H as [H _]; eapply in_keys; eauto.
Qed.

End JsMapFacts.

(** ** The stable sort *)

Section SortFacts.
Context {A : Type} (cmp : A -> A -> Z).

Lemma insert_perm (x : A) (l : list A) : Permutation (Js.insert cmp x l) (x :: l).
Proof.
  induction l as [|y l IH]; simpl; [reflexivity|].
  destruct (cmp x y <=? 0); [reflexivity|].
  rewrite IH; apply perm_swap.
Qed.

Lemma sort_perm (l : list A) : Permutation (Js.sort cmp l) l.
Proof.
  induction l as [|x l IH]; simpl; [reflexivity|].
  rewrite insert_perm; now constructor.
Qed.

Lemma sort_In (l : list A) (x : A) : In x (Js.sort cmp l) <-> In x l.
Proof.
  split; apply Permutation_in; [apply sort_perm | symmetry; apply sort_perm].
Qed.

End SortFacts.

(** ** The record store *)

Section StoreInvariant.
Import MemStorage.

Lemma wf_constructor : wf constructor.
Proof. repeat split; simpl; try constructor; intros ? ? []. Qed.

Lemma wf_clearAllData (s : t) : wf (clearAllData s).
Proof. apply wf_constructor. Qed.

Lemma wf_createCustomer now ins (s : t) : wf s -> wf (snd (createCustomer now ins s)).
Proof.
  intros (Hc & He & Ic & Ie); repeat split; simpl; auto.
  - now apply NoDup_keys_set.
  - intros k c H; apply in_set in H; [|exact Hc].
    destruct H as [[-> ->]|[H _]]; [reflexivity | now apply Ic].
Qed.

Lemma wf_createExpense now ins (s : t) : wf s -> wf (snd (createExpense now ins s)).
Proof.
  intros (Hc & He & Ic & Ie); repeat split; simpl; auto.
  - now apply NoDup_keys_set.
  - intros k e H; apply in_set in H; [|exact He].
    destruct H as [[-> ->]|[H _]]; [reflexivity | now apply Ie].
Qed.

Lemma get_In {V : Type} (m : JsMap.t V) k v : JsMap.get m k = Some v -> In (k, v) m.
Proof.
  induction m as [|[k' v'] m IH]; simpl; [discriminate|].
  destruct (k' =? k) eqn:E.
  - apply Z.eqb_eq in E; intros [= ->]; subst; now left.
  - intros H; right; now apply IH.
Qed.

Lemma wf_updateCustomer id upd (s : t) : wf s -> wf (snd (updateCustomer id upd s)).
Proof.
  intros W; unfold updateCustomer.
  destruct (JsMap.get (customers s) id) as [c|] eqn:G; [|exact W].
  destruct W as (Hc & He & Ic & Ie); repeat split; simpl; auto.
  - now apply NoDup_keys_set.
  - intros k c' H; apply in_set in H; [|exact Hc].
    destruct H as [[-> ->]|[H _]]; [|now apply Ic].
    simpl; apply Ic; now apply get_In.
Qed.

Lemma wf_updateExpense id upd (s : t) : wf s -> wf (snd (updateExpense id upd s)).
Proof.
  intros W; unfold updateExpense.
  destruct (JsMap.get (expenses s) id) as [e|] eqn:G; [|exact W].
  destruct W as (Hc & He & Ic & Ie); repeat split; simpl; auto.
  - now apply NoDup_keys_set.
  - intros k e' H; apply in_set in H; [|exact He].
    destruct H as [[-> ->]|[H _]]; [|now apply Ie].
    simpl; apply Ie; now apply get_In.
Qed.

Lemma wf_deleteCustomer id (s : t) : wf s -> wf (snd (deleteCustomer id s)).
Proof.
  intros (Hc & He & Ic & Ie); repeat split; simpl; auto.
  - now apply NoDup_keys_remove.
  - intros k c H; apply in_remove in H; destruct H; now apply Ic.
Qed.

Lemma wf_deleteExpense id (s : t) : wf s -> wf (snd (deleteExpense id s)).
Proof.
  intros (Hc & He & Ic & Ie); repeat split; simpl; auto.
  - now apply NoDup_keys_remove.
  - intros k e H; apply in_remove in H; destruct H; now apply Ie.
Qed.

End StoreInvariant.

(** Every store the program can be in is well formed. *)
Lemma reachable_wf (s : MemStorage.t) : reachable s -> MemStorage.wf s.
Proof.
  induction 1.
  - apply wf_constructor.
  - now apply wf_createCustomer.
  - now apply wf_updateCustomer.
  - now apply wf_deleteCustomer.
  - now apply wf_createExpense.
  - now apply wf_updateExpense.
  - now apply wf_deleteExpense.
  - apply wf_clearAllData.
Qed.

Lemma in_values {V : Type} (m : JsMap.t V) (v : V) :
  In v (JsMap.values m) <-> exists k, In (k, v) m.
Proof.
  unfold JsMap.values; rewrite in_map_iff; split.
  - intros [[k v'] [E H]]; simpl in E; subst; eauto.
  - intros [k H]; exists (k, v); auto.
Qed.

Lemma merged_spread {A : Type} (old : A) (upd : option A) :
  merged old upd (spread old upd).
Proof. destruct upd; split; simpl; congruence. Qed.

(** C6.  An update of a stored record returns, and stores under the same
    identifier, a record with the same [id] and [createdAt], each supplied
    field replaced by the update's value and each field not supplied
    unchanged; the records under the other identifiers stay as they are.
    This holds of a stored customer whatever the expenses are, and of a
    stored expense whatever the customers are. *)
Theorem update_preserves_id_createdAt
  (s : MemStorage.t) (cid eid : Z)
  (cu : PartialCustomer.t) (eu : PartialExpense.t) :
  (forall c,
      MemStorage.getCustomer cid s = Some c ->
      exists c',
        fst (MemStorage.updateCustomer cid cu s) = Some c'
        /\ MemStorage.getCustomer cid (snd (MemStorage.updateCustomer cid cu s))
           = Some c'
        /\ Customer.id c' = Customer.id c
        /\ Customer.createdAt c' = Customer.createdAt c
        /\ merged (Customer.name c) (PartialCustomer.name cu) (Customer.name c')
        /\ merged (Customer.goodsType c) (PartialCustomer.goodsType cu)
                  (Customer.goodsType c')
        /\ merged (Customer.carCount c) (PartialCustomer.carCount cu)
                  (Customer.carCount c')
        /\ merged (Customer.amount c) (PartialCustomer.amount cu)
                  (Customer.amount c')
        /\ merged (Customer.paymentStatus c) (PartialCustomer.paymentStatus cu)
                  (Customer.paymentStatus c')
        /\ (forall id, id <> cid ->
              MemStorage.getCustomer id (snd (MemStorage.updateCustomer cid cu s))
              = MemStorage.getCustomer id s))
  /\ (forall e,
      MemStorage.getExpense eid s = Some e ->
      exists e',
        fst (MemStorage.updateExpense eid eu s) = Some e'
        /\ MemStorage.getExpense eid (snd (MemStorage.updateExpense eid eu s))
           = Some e'
        /\ Expense.id e' = Expense.id e
        /\ Expense.createdAt e' = Expense.createdAt e
        /\ merged (Expense.description e) (PartialExpense.description eu)
                  (Expense.description e')
        /\ merged (Expense.amount e) (PartialExpense.amount eu)
                  (Expense.amount e')
        /\ (forall id, id <> eid ->
              MemStorage.getExpense id (snd (MemStorage.updateExpense eid eu s))
              = MemStorage.getExpense id s)).
Proof.
  unfold MemStorage.getCustomer, MemStorage.getExpense.
  unfold MemStorage.updateCustomer, MemStorage.updateExpense.
  split.
  - intros c Hc. rewrite Hc; cbn [fst snd MemStorage.customers].
    exists (MemStorage.mergeCustomer c cu).
    rewrite get_set_same.
    do 4 (split; [reflexivity|]).
    do 5 (split; [apply merged_spread|]).
    intros id N; now apply get_set_other.
  - intros e He. rewrite He; cbn [fst snd MemStorage.expenses].
    exists (MemStorage.mergeExpense e eu).
    rewrite get_set_same.
    do 4 (split; [reflexivity|]).
    do 2 (split; [apply merged_spread|]).
    intros id N; now apply get_set_other.
Qed.

(** C7.  From any store, after [clearAllData] both collections are empty
    and both counters are 1: the next customer and the next expense created,
    in either order, each receive id 1. *)
Theorem clearAllData_resets (s : MemStorage.t)
  (now1 now2 : Z) (ic : InsertCustomer.t) (ie : InsertExpense.t) :
  let s0 := MemStorage.clearAllData s in
  MemStorage.getAllCustomers s0 = []
  /\ MemStorage.getAllExpenses s0 = []
  /\ MemStorage.customers s0 = JsMap.empty
  /\ MemStorage.expenses s0 = JsMap.empty
  /\ MemStorage.currentCustomerId s0 = 1
  /\ MemStorage.currentExpenseId s0 = 1
  /\ Customer.id (fst (MemStorage.createCustomer now1 ic s0)) = 1
  /\ Expense.id (fst (MemStorage.createExpense now1 ie s0)) = 1
  /\ Expense.id (fst (MemStorage.createExpense now2 ie
                        (snd (MemStorage.createCustomer now1 ic s0)))) = 1
  /\ Customer.id (fst (MemStorage.createCustomer now2 ic
                         (snd (MemStorage.createExpense now1 ie s0)))) = 1.
Proof. cbv zeta; repeat split. Qed.

(** C10.  The two kinds of record are isolated: a customer operation leaves
    the expenses and the expense counter as they are, an expense operation
    leaves the customers and the customer counter as they are. *)
Theorem kinds_isolated (s : MemStorage.t) (now id : Z)
  (ic : InsertCustomer.t) (cu : PartialCustomer.t)
  (ie : InsertExpense.t) (eu : PartialExpense.t) :
  let same_expenses s' :=
    MemStorage.expenses s' = MemStorage.expenses s
    /\ MemStorage.currentExpenseId s' = MemStorage.currentExpenseId s in
  let same_customers s' :=
    MemStorage.customers s' = MemStorage.customers s
    /\ MemStorage.currentCustomerId s' = MemStorage.currentCustomerId s in
  same_expenses (snd (MemStorage.createCustomer now ic s))
  /\ same_expenses (snd (MemStorage.updateCustomer id cu s))
  /\ same_expenses (snd (MemStorage.deleteCustomer id s))
  /\ same_customers (snd (MemStorage.createExpense now ie s))
  /\ same_customers (snd (MemStorage.updateExpense id eu s))
  /\ same_customers (snd (MemStorage.deleteExpense id s)).
Proof.
  cbv zeta; unfold MemStorage.updateCustomer, MemStorage.updateExpense.
  destruct (JsMap.get (MemStorage.customers s) id);
    destruct (JsMap.get (MemStorage.expenses s) id); simpl; repeat split.
Qed.

Lemma deleteCustomer_absent (id : Z) (s : MemStorage.t) :
  MemStorage.getCustomer id s = None ->
  MemStorage.deleteCustomer id s = (false, s).
Proof.
  unfold MemStorage.getCustomer, MemStorage.deleteCustomer, JsMap.delete, JsMap.has.
  intros H; rewrite H, (remove_absent _ _ H); now destruct s.
Qed.

Lemma deleteExpense_absent (id : Z) (s : MemStorage.t) :
  MemStorage.getExpense id s = None ->
  MemStorage.deleteExpense id s = (false, s).
Proof.
  unfold MemStorage.getExpense, MemStorage.deleteExpense, JsMap.delete, JsMap.has.
  intros H; rewrite H, (remove_absent _ _ H); now destruct s.
Qed.

Lemma listed_customer_key (s : MemStorage.t) (c : Customer.t) :
  MemStorage.wf s -> In c (MemStorage.getAllCustomers s) ->
  In (Customer.id c, c) (MemStorage.customers s).
Proof.
  intros (_ & _ & Ic & _) H.
  apply sort_In, in_values in H; destruct H as [k H].
  now rewrite (Ic _ _ H).
Qed.

Lemma listed_expense_key (s : MemStorage.t) (e : Expense.t) :
  MemStorage.wf s -> In e (MemStorage.getAllExpenses s) ->
  In (Expense.id e, e) (MemStorage.expenses s).
Proof.
  intros (_ & _ & _ & Ie) H.
  apply sort_In, in_values in H; destruct H as [k H].
  now rewrite (Ie _ _ H).
Qed.

(** C9.  In every well-formed store, hence in every store the program can
    be in, a record is created and then deleted by its id through the DELETE
    route: the store's delete returns [true], the route answers 200 and
    leaves the store without the record, which is no longer listed nor found
    by its id; a second DELETE request with the same id, on the store the
    first one left, is answered 404, not with a failure, the store's delete
    returning [false], and the store stays as it is.  This for customers and
    for expenses. *)
Theorem create_delete_roundtrip (s : MemStorage.t) (now : Z)
  (ic : InsertCustomer.t) (ie : InsertExpense.t) (W : MemStorage.wf s) :
  (let c := fst (MemStorage.createCustomer now ic s) in
   let s1 := snd (MemStorage.createCustomer now ic s) in
   let s2 := snd (Routes.deleteCustomer (Customer.id c) s1) in
   In c (MemStorage.getAllCustomers s1)
   /\ MemStorage.deleteCustomer (Customer.id c) s1 = (true, s2)
   /\ Routes.deleteCustomer (Customer.id c) s1
      = ((200, "Customer deleted successfully"), s2)
   /\ ~ In c (MemStorage.getAllCustomers s2)
   /\ (forall c', In c' (MemStorage.getAllCustomers s2) ->
                  Customer.id c' <> Customer.id c)
   /\ MemStorage.getCustomer (Customer.id c) s2 = None
   /\ MemStorage.deleteCustomer (Customer.id c) s2 = (false, s2)
   /\ Routes.deleteCustomer (Customer.id c) s2
      = ((404, "Customer not found"), s2))
  /\
  (let e := fst (MemStorage.createExpense now ie s) in
   let s1 := snd (MemStorage.createExpense now ie s) in
   let s2 := snd (Routes.deleteExpense (Expense.id e) s1) in
   In e (MemStorage.getAllExpenses s1)
   /\ MemStorage.deleteExpense (Expense.id e) s1 = (true, s2)
   /\ Routes.deleteExpense (Expense.id e) s1
      = ((200, "Expense deleted successfully"), s2)
   /\ ~ In e (MemStorage.getAllExpenses s2)
   /\ (forall e', In e' (MemStorage.getAllExpenses s2) ->
                  Expense.id e' <> Expense.id e)
   /\ MemStorage.getExpense (Expense.id e) s2 = None
   /\ MemStorage.deleteExpense (Expense.id e) s2 = (false, s2)
   /\ Routes.deleteExpense (Expense.id e) s2
      = ((404, "Expense not found"), s2)).
Proof.
  split; cbv zeta.
  - pose proof (wf_createCustomer now ic s W) as W1.
    pose proof (wf_deleteCustomer (MemStorage.currentCustomerId s) _ W1) as W2.
    set (c := fst (MemStorage.createCustomer now ic s)) in *.
    set (s1 := snd (MemStorage.createCustomer now ic s)) in *.
    assert (Hid : Customer.id c = MemStorage.currentCustomerId s) by reflexivity.
    rewrite Hid.
    assert (G1 : JsMap.get (MemStorage.customers s1) (MemStorage.currentCustomerId s) = Some c)
      by (simpl; apply get_set_same).
    assert (D1 : fst (MemStorage.deleteCustomer (MemStorage.currentCustomerId s) s1) = true).
    { unfold MemStorage.deleteCustomer, JsMap.delete, JsMap.has; now rewrite G1. }
    assert (R1 : Routes.deleteCustomer (MemStorage.currentCustomerId s) s1
                 = ((200, "Customer deleted successfully"),
                    snd (MemStorage.deleteCustomer (MemStorage.currentCustomerId s) s1))).
    { unfold Routes.deleteCustomer.
      destruct (MemStorage.deleteCustomer _ s1) as [d s']; simpl in D1; now subst d. }
    rewrite R1; cbn [snd].
    set (s2 := snd (MemStorage.deleteCustomer (MemStorage.currentCustomerId s) s1)) in *.
    assert (G2 : MemStorage.getCustomer (MemStorage.currentCustomerId s) s2 = None)
      by (unfold MemStorage.getCustomer; simpl; apply get_remove_same).
    assert (L : forall c', In c' (MemStorage.getAllCustomers s2) ->
                           Customer.id c' <> MemStorage.currentCustomerId s).
    { intros c' H; apply (listed_customer_key _ _ W2) in H.
      simpl in H; apply in_remove in H; tauto. }
    split; [|split; [|split; [|split; [|split; [|split; [|split]]]]]].
    + apply sort_In, in_values; exists (MemStorage.currentCustomerId s).
      now apply get_In.
    + rewrite <- D1; subst s2.
      now destruct (MemStorage.deleteCustomer (MemStorage.currentCustomerId s) s1).
    + reflexivity.
    + intros H; now apply (L c H).
    + exact L.
    + exact G2.
    + now apply deleteCustomer_absent.
    + unfold Routes.deleteCustomer; now rewrite (deleteCustomer_absent _ _ G2).
  - pose proof (wf_createExpense now ie s W) as W1.
    pose proof (wf_deleteExpense (MemStorage.currentExpenseId s) _ W1) as W2.
    set (e := fst (MemStorage.createExpense now ie s)) in *.
    set (s1 := snd (MemStorage.createExpense now ie s)) in *.
    assert (Hid : Expense.id e = MemStorage.currentExpenseId s) by reflexivity.
    rewrite Hid.
    assert (G1 : JsMap.get (MemStorage.expenses s1) (MemStorage.currentExpenseId s) = Some e)
      by (simpl; apply get_set_same).
    assert (D1 : fst (MemStorage.deleteExpense (MemStorage.currentExpenseId s) s1) = true).
    { unfold MemStorage.deleteExpense, JsMap.delete, JsMap.has; now rewrite G1. }
    assert (R1 : Routes.deleteExpense (MemStorage.currentExpenseId s) s1
                 = ((200, "Expense deleted successfully"),
                    snd (MemStorage.deleteExpense (MemStorage.currentExpenseId s) s1))).
    { unfold Routes.deleteExpense.
      destruct (MemStorage.deleteExpense _ s1) as [d s']; simpl in D1; now subst d. }
    rewrite R1; cbn [snd].
    set (s2 := snd (MemStorage.deleteExpense (MemStorage.currentExpenseId s) s1)) in *.
    assert (G2 : MemStorage.getExpense (MemStorage.currentExpenseId s) s2 = None)
      by (unfold MemStorage.getExpense; simpl; apply get_remove_same).
    assert (L : forall e', In e' (MemStorage.getAllExpenses s2) ->
                           Expense.id e' <> MemStorage.currentExpenseId s).
    { intros e' H; apply (listed_expense_key _ _ W2) in H.
      simpl in H; apply in_remove in H; tauto. }
    split; [|split; [|split; [|split; [|split; [|split; [|split]]]]]].
    + apply sort_In, in_values; exists (MemStorage.currentExpenseId s).
      now apply get_In.
    + rewrite <- D1; subst s2.
      now destruct (MemStorage.deleteExpense (MemStorage.currentExpenseId s) s1).
    + reflexivity.
    + intros H; now apply (L e H).
    + exact L.
    + exact G2.
    + now apply deleteExpense_absent.
    + unfold Routes.deleteExpense; now rewrite (deleteExpense_absent _ _ G2).
Qed.

(** ** Numbers: integers below 2^53 are added exactly *)

Section Binary64.

Lemma digits2_bounds (p : positive) :
  2 ^ (Zpos (digits2_pos p) - 1) <= Zpos p < 2 ^ Zpos (digits2_pos p).
Proof.
  induction p as [p IH|p IH|]; simpl digits2_pos.
  - rewrite Pos2Z.inj_succ; change (Zpos p~1) with (2 * Zpos p + 1).
    replace (Z.succ (Zpos (digits2_pos p)) - 1) with (Z.succ (Zpos (digits2_pos p) - 1)) by lia.
    rewrite !Z.pow_succ_r by lia. lia.
  - rewrite Pos2Z.inj_succ; change (Zpos p~0) with (2 * Zpos p).
    replace (Z.succ (Zpos (digits2_pos p)) - 1) with (Z.succ (Zpos (digits2_pos p) - 1)) by lia.
    rewrite !Z.pow_succ_r by lia. lia.
  - simpl; lia.
Qed.

Lemma digits2_unique (p : positive) (d : Z) :
  2 ^ (d - 1) <= Zpos p < 2 ^ d -> Zpos (digits2_pos p) = d.
Proof.
  intros [L U]. pose proof (digits2_bounds p) as [L' U'].
  assert (0 < d).
  { destruct (Z.le_gt_cases d 0) as [H|H]; [|exact H].
    assert (2 ^ d <= 2 ^ 0) by (destruct (Z.lt_ge_cases d 0);
      [rewrite Z.pow_neg_r by lia; simpl; lia | apply Z.pow_le_mono_r; lia]).
    simpl in *; lia. }
  destruct (Z.lt_trichotomy (Zpos (digits2_pos p)) d) as [H1|[H1|H1]]; [|exact H1|].
  - assert (2 ^ Zpos (digits2_pos p) <= 2 ^ (d - 1)) by (apply Z.pow_le_mono_r; lia). lia.
  - assert (2 ^ d <= 2 ^ (Zpos (digits2_pos p) - 1)) by (apply Z.pow_le_mono_r; lia). lia.
Qed.

Lemma digits2_shift (p q : positive) (k : Z) :
  0 <= k -> Zpos q = Zpos p * 2 ^ k ->
  Zpos (digits2_pos q) = Zpos (digits2_pos p) + k.
Proof.
  intros Hk E. apply digits2_unique. rewrite E.
  pose proof (digits2_bounds p) as [L U].
  replace (Zpos (digits2_pos p) + k - 1) with ((Zpos (digits2_pos p) - 1) + k) by lia.
  rewrite !Z.pow_add_r by lia.
  assert (0 < 2 ^ k) by (apply Z.pow_pos_nonneg; lia).
  split; [apply Z.mul_le_mono_nonneg_r; lia | apply Z.mul_lt_mono_pos_r; lia].
Qed.

Lemma iter_xO_pow2 (m d : positive) :
  Zpos (Pos.iter xO m d) = Zpos m * 2 ^ Zpos d.
Proof.
  induction d as [|d IH] using Pos.peano_ind.
  - simpl; lia.
  - rewrite Pos.iter_succ.
    change (Zpos (Pos.iter xO m d)~0) with (2 * Zpos (Pos.iter xO m d)).
    rewrite IH, Pos2Z.inj_succ, Z.pow_succ_r by lia. lia.
Qed.

Lemma iter_pos_shift {A : Type} (f : A -> A) (p : positive) (x : A) :
  iter_pos f p (f x) = f (iter_pos f p x).
Proof.
  revert x; induction p as [p IH|p IH|]; intros x; simpl; [|
    |reflexivity]; now rewrite !IH.
Qed.

Lemma iter_pos_succ {A : Type} (f : A -> A) (p : positive) (x : A) :
  iter_pos f (Pos.succ p) x = f (iter_pos f p x).
Proof.
  revert x; induction p as [p IH|p IH|]; intros x; simpl; [| |reflexivity].
  - now rewrite !IH, !iter_pos_shift.
  - now rewrite !iter_pos_shift.
Qed.

Lemma shr_1_double (m : Z) : 0 <= m -> shr_1 (exactRecord (2 * m)) = exactRecord m.
Proof. destruct m; [reflexivity | reflexivity | lia]. Qed.

Lemma iter_shr_exact (j : positive) (m : Z) :
  0 <= m -> iter_pos shr_1 j (exactRecord (m * 2 ^ Zpos j)) = exactRecord m.
Proof.
  intros Hm; induction j as [|j IH] using Pos.peano_ind.
  - cbn [iter_pos]. replace (m * 2 ^ 1) with (2 * m) by lia. now apply shr_1_double.
  - rewrite iter_pos_succ, Pos2Z.inj_succ, Z.pow_succ_r by lia.
    replace (m * (2 * 2 ^ Zpos j)) with (2 * (m * 2 ^ Zpos j)) by lia.
    rewrite <- iter_pos_shift, shr_1_double; [exact IH|].
    apply Z.mul_nonneg_nonneg; [exact Hm | apply Z.pow_nonneg; lia].
Qed.

Lemma fexp_small (x : Z) :
  -1021 <= x -> fexp Js.prec Js.emax x = x - 53.
Proof. unfold fexp, emin, Js.prec, Js.emax; lia. Qed.

(** Rounding leaves a mantissa of 53 bits as it is. *)
Lemma round_aux_step (s : bool) (m : Z) (e e' : Z) (M : positive) :
  shr_fexp Js.prec Js.emax m e loc_Exact = (exactRecord (Zpos M), e') ->
  Zpos (digits2_pos M) = 53 -> -1074 <= e' <= 971 ->
  binary_round_aux Js.prec Js.emax s m e loc_Exact = S754_finite s M e'.
Proof.
  intros H1 HM He. unfold binary_round_aux. rewrite H1.
  cbn [exactRecord shr_m loc_of_shr_record round_nearest_even].
  unfold shr_fexp at 1. cbn [Zdigits2]. rewrite HM, fexp_small by lia.
  replace (53 + e' - 53 - e') with 0 by lia.
  cbn [shr shr_record_of_loc shr_m].
  replace (e' <=? Js.emax - Js.prec) with true; [reflexivity|].
  symmetry; apply Z.leb_le; unfold Js.prec, Js.emax; lia.
Qed.

(** The integer [n < 2^53], given as [n * 2^k] with exponent [-k], rounds
    to itself: to the mantissa of 53 bits that holds it. *)
Lemma binary_round_int (s : bool) (n q : positive) (k : Z) :
  0 <= k -> Zpos n < 2 ^ 53 -> Zpos q = Zpos n * 2 ^ k ->
  binary_round Js.prec Js.emax s q (- k)
  = S754_finite s (Z.to_pos (Zpos n * 2 ^ (53 - Zpos (digits2_pos n))))
                (Zpos (digits2_pos n) - 53).
Proof.
  intros Hk Hn Hq.
  set (d := Zpos (digits2_pos n)).
  assert (Hd : 1 <= d <= 53).
  { subst d; split; [lia|].
    pose proof (digits2_bounds n) as [L _].
    destruct (Z.le_gt_cases (Zpos (digits2_pos n)) 53) as [H|H]; [exact H|].
    assert (2 ^ 53 <= 2 ^ (Zpos (digits2_pos n) - 1)) by (apply Z.pow_le_mono_r; lia).
    lia. }
  assert (Hpos : 0 < Zpos n * 2 ^ (53 - d))
    by (apply Z.mul_pos_pos; [lia | apply Z.pow_pos_nonneg; lia]).
  assert (HM : Zpos (digits2_pos (Z.to_pos (Zpos n * 2 ^ (53 - d)))) = 53).
  { rewrite (digits2_shift n _ (53 - d)); [fold d; lia | lia |].
    rewrite Z2Pos.id; [reflexivity | exact Hpos]. }
  assert (Hdq : Zpos (digits2_pos q) = d + k) by (now apply digits2_shift).
  unfold binary_round. rewrite Hdq.
  replace (d + k + - k) with d by lia.
  rewrite fexp_small by lia.
  unfold shl_align.
  destruct (d - 53 - - k) as [|j|j] eqn:Ej.
  - (* the mantissa is already in place *)
    apply round_aux_step; [|exact HM|lia].
    unfold shr_fexp; cbn [Zdigits2]. rewrite Hdq.
    replace (d + k + - k) with d by lia. rewrite fexp_small by lia.
    rewrite Ej; cbn [shr shr_record_of_loc].
    replace (- k) with (d - 53) by lia.
    unfold exactRecord; rewrite Z2Pos.id by exact Hpos.
    rewrite Hq; replace k with (53 - d) by lia; reflexivity.
  - (* bits are shifted out, all of them zero *)
    apply round_aux_step; [|exact HM|lia].
    unfold shr_fexp; cbn [Zdigits2]. rewrite Hdq.
    replace (d + k + - k) with d by lia. rewrite fexp_small by lia.
    rewrite Ej; cbn [shr shr_record_of_loc].
    fold (exactRecord (Zpos q)).
    replace (Zpos q) with ((Zpos n * 2 ^ (53 - d)) * 2 ^ Zpos j).
    + rewrite iter_shr_exact by lia.
      rewrite Z2Pos.id by exact Hpos. f_equal; lia.
    + rewrite Hq, <- Z.mul_assoc, <- Z.pow_add_r by lia. f_equal; f_equal; lia.
  - (* the mantissa is shifted left into place *)
    apply round_aux_step; [| |lia].
    + unfold shr_fexp; cbn [Zdigits2].
      assert (Hi : Zpos (Pos.iter xO q j) = Zpos n * 2 ^ (53 - d)).
      { rewrite iter_xO_pow2, Hq, <- Z.mul_assoc, <- Z.pow_add_r by lia.
        f_equal; f_equal; lia. }
      assert (Hdi : Zpos (digits2_pos (Pos.iter xO q j)) = 53).
      { rewrite (digits2_shift n _ (53 - d)); [fold d; lia | lia | exact Hi]. }
      rewrite Hdi, fexp_small by lia.
      replace (53 + (d - 53) - 53 - (d - 53)) with 0 by lia.
      cbn [shr shr_record_of_loc]. unfold exactRecord.
      rewrite Z2Pos.id by exact Hpos. now rewrite Hi.
    + exact HM.
Qed.

Lemma digits2_le_53 (n : positive) :
  Zpos n < 2 ^ 53 -> 1 <= Zpos (digits2_pos n) <= 53.
Proof.
  intros Hn; split; [lia|].
  pose proof (digits2_bounds n) as [L _].
  destruct (Z.le_gt_cases (Zpos (digits2_pos n)) 53) as [H|H]; [exact H|].
  assert (2 ^ 53 <= 2 ^ (Zpos (digits2_pos n) - 1)) by (apply Z.pow_le_mono_r; lia).
  lia.
Qed.

Lemma ofZ_pos (n : positive) :
  Zpos n < 2 ^ 53 ->
  Js.ofZ (Zpos n)
  = S754_finite false (Z.to_pos (Zpos n * 2 ^ (53 - Zpos (digits2_pos n))))
                (Zpos (digits2_pos n) - 53).
Proof.
  intros Hn. unfold Js.ofZ, binary_normalize.
  change 0 with (- 0). apply binary_round_int; [lia | exact Hn | lia].
Qed.

Lemma shl_align_value (m : positive) (e e' : Z) :
  e' <= e -> Zpos (fst (shl_align m e e')) = Zpos m * 2 ^ (e - e').
Proof.
  intros H. unfold shl_align.
  destruct (e' - e) as [|j|j] eqn:E; cbn [fst].
  - replace (e - e') with 0 by lia. lia.
  - lia.
  - rewrite iter_xO_pow2. f_equal; f_equal; lia.
Qed.

(** Two non-negative integers whose sum is below 2^53 are added exactly. *)
Lemma add_ofZ (a b : Z) :
  0 <= a -> 0 <= b -> a + b < 2 ^ 53 ->
  Js.add (Js.ofZ a) (Js.ofZ b) = Js.ofZ (a + b).
Proof.
  intros Ha Hb Hab.
  destruct a as [|pa|pa]; [|destruct b as [|pb|pb]|]; try lia.
  - (* 0 + b *)
    destruct b as [|pb|pb]; [reflexivity| |lia].
    rewrite Z.add_0_l, ofZ_pos by lia. reflexivity.
  - (* a + 0 *)
    rewrite Z.add_0_r, ofZ_pos by lia. reflexivity.
  - (* both positive *)
    pose proof (digits2_le_53 pa ltac:(lia)) as Hda.
    pose proof (digits2_le_53 pb ltac:(lia)) as Hdb.
    rewrite (ofZ_pos pa), (ofZ_pos pb) by lia.
    set (da := Zpos (digits2_pos pa)) in *.
    set (db := Zpos (digits2_pos pb)) in *.
    assert (Pa : 0 < Zpos pa * 2 ^ (53 - da))
      by (apply Z.mul_pos_pos; [lia | apply Z.pow_pos_nonneg; lia]).
    assert (Pb : 0 < Zpos pb * 2 ^ (53 - db))
      by (apply Z.mul_pos_pos; [lia | apply Z.pow_pos_nonneg; lia]).
    unfold Js.add, SFadd. cbn [cond_Zopp].
    set (ez := Z.min (da - 53) (db - 53)).
    rewrite !shl_align_value by (subst ez; lia).
    rewrite !Z2Pos.id by assumption.
    rewrite <- !Z.mul_assoc, <- !Z.pow_add_r by (subst ez; lia).
    replace (53 - da + (da - 53 - ez)) with (- ez) by lia.
    replace (53 - db + (db - 53 - ez)) with (- ez) by lia.
    rewrite <- Z.mul_add_distr_r.
    change (Zpos pa + Zpos pb) with (Zpos (pa + pb)).
    assert (Ps : 0 < Zpos (pa + pb) * 2 ^ (- ez))
      by (apply Z.mul_pos_pos; [lia | apply Z.pow_pos_nonneg; subst ez; lia]).
    destruct (Zpos (pa + pb) * 2 ^ (- ez)) as [|q|q] eqn:Eq; try lia.
    unfold binary_normalize.
    replace ez with (- (- ez)) at 1 by lia.
    rewrite (binary_round_int false (pa + pb) q (- ez));
      [| subst ez; lia | exact Hab | symmetry; exact Eq].
    symmetry; apply ofZ_pos; exact Hab.
Qed.

Lemma toZ_ofZ (n : Z) : 0 <= n < 2 ^ 53 -> Js.toZ (Js.ofZ n) = n.
Proof.
  intros [H0 Hn]. destruct n as [|p|p]; [reflexivity| |lia].
  pose proof (digits2_le_53 p Hn) as Hd.
  rewrite ofZ_pos by exact Hn. unfold Js.toZ.
  set (d := Zpos (digits2_pos p)) in *.
  assert (Pp : 0 < Zpos p * 2 ^ (53 - d))
    by (apply Z.mul_pos_pos; [lia | apply Z.pow_pos_nonneg; lia]).
  rewrite Z2Pos.id by exact Pp.
  destruct (0 <=? d - 53) eqn:E.
  - apply Z.leb_le in E. replace d with 53 by lia. simpl; lia.
  - replace (- (d - 53)) with (53 - d) by lia.
    apply Z.div_mul. apply Z.pow_nonzero; lia.
Qed.

(** Below 2^53 the counter [n++] stores [n + 1]. *)
Lemma postIncrement_exact (n : Z) :
  0 <= n -> n + 1 < 2 ^ 53 -> Js.postIncrement n = n + 1.
Proof.
  intros H0 Hn. unfold Js.postIncrement.
  rewrite add_ofZ by lia. apply toZ_ofZ; lia.
Qed.

End Binary64.

(** ** parseFloat on whole numbers *)

Section ParseWhole.

Lemma digit_code (c : ascii) : Js.isDigit c = true -> 48 <= Js.code c <= 57.
Proof.
  unfold Js.isDigit; intros H; apply andb_prop in H.
  destruct H as [H1 H2]; apply Z.leb_le in H1, H2; lia.
Qed.

Lemma digit_not_space (c : ascii) :
  Js.isDigit c = true -> Js.isWhiteSpace c = false.
Proof.
  intros H; apply digit_code in H; unfold Js.isWhiteSpace.
  replace (Js.code c <=? 13) with false by (symmetry; apply Z.leb_gt; lia).
  replace (Js.code c =? 32) with false by (symmetry; apply Z.eqb_neq; lia).
  now rewrite andb_false_r.
Qed.

(** A byte below 128 that is no white space starts no white space. *)
Lemma trimStart_ascii (c : ascii) (r : string) :
  Js.code c < 128 -> Js.isWhiteSpace c = false ->
  Js.trimStart (String c r) = String c r.
Proof.
  intros B W.
  assert (N : forall n, 128 <= n -> (Js.code c =? n) = false)
    by (intros n Hn; apply Z.eqb_neq; lia).
  assert (W2 : forall b, Js.isWhiteSpace2 c b = false)
    by (intros b; unfold Js.isWhiteSpace2; now rewrite N by lia).
  assert (W3 : forall b d, Js.isWhiteSpace3 c b d = false)
    by (intros b d; unfold Js.isWhiteSpace3; now rewrite !N by lia).
  destruct r as [|b [|d r]]; cbn [Js.trimStart]; rewrite W; try reflexivity;
    rewrite W2; try reflexivity; now rewrite W3.
Qed.

Lemma trimStart_digit (c : ascii) (r : string) :
  Js.isDigit c = true -> Js.trimStart (String c r) = String c r.
Proof.
  intros H; apply trimStart_ascii; [|now apply digit_not_space].
  apply digit_code in H; lia.
Qed.

Lemma digit_head (c : ascii) (r : string) :
  Js.isDigit c = true ->
  Js.sign (String c r) = (false, String c r)
  /\ prefix "Infinity" (String c r) = false.
Proof.
  intros H; destruct c as [[] [] [] [] [] [] [] []];
    vm_compute in H; try discriminate H; split; reflexivity.
Qed.

Lemma digits_all (a : string) (acc n : Z) :
  allDigits a = true ->
  Js.digits a acc n = (digitsValue a acc, n + Z.of_nat (String.length a), "").
Proof.
  revert acc n; induction a as [|c r IH]; intros acc n H; simpl in *.
  - f_equal; f_equal; lia.
  - apply andb_prop in H; destruct H as [Hc Hr].
    rewrite Hc, IH by exact Hr. f_equal; f_equal; lia.
Qed.

Lemma digitsValue_bounds (a : string) (acc : Z) :
  allDigits a = true -> 0 <= acc -> acc <= digitsValue a acc.
Proof.
  revert acc; induction a as [|c r IH]; intros acc H Hacc;
    cbn [allDigits digitsValue] in *; [lia|].
  apply andb_prop in H; destruct H as [Hc Hr]. apply digit_code in Hc.
  specialize (IH (10 * acc + (Js.code c - 48)) Hr). lia.
Qed.

Lemma wholeValue_nonneg (a : string) : wholeNumber a = true -> 0 <= wholeValue a.
Proof.
  intros H; apply digitsValue_bounds; [|lia].
  destruct a; [discriminate | exact H].
Qed.

Lemma parseFloat_whole (a : string) :
  wholeNumber a = true -> Js.parseFloat a = Js.ofZ (wholeValue a).
Proof.
  destruct a as [|c r]; [discriminate|]; intros H.
  assert (Hc : Js.isDigit c = true) by (simpl in H; now apply andb_prop in H).
  unfold Js.parseFloat.
  rewrite (trimStart_digit c r Hc).
  destruct (digit_head c r Hc) as [-> ->].
  rewrite digits_all by exact H.
  cbn [String.length Js.exponentPart].
  replace (0 + Z.of_nat (S (String.length r)) + 0 =? 0) with false
    by (symmetry; apply Z.eqb_neq; lia).
  unfold Js.ofDecimal, wholeValue, Js.ofZ.
  cbn [Z.sub Z.opp Z.leb Z.compare Z.add]. 
  now rewrite Z.pow_0_r, Z.mul_1_r.
Qed.

Lemma wholeTotal_nonneg (amounts : list string) :
  Forall (fun a => wholeNumber a = true) amounts -> 0 <= wholeTotal amounts.
Proof.
  induction 1 as [|a l Ha Hl IH]; unfold wholeTotal in *; simpl; [lia|].
  apply wholeValue_nonneg in Ha; lia.
Qed.

(** A sum of whole-number amounts, started from an integer, is the integer
    sum as long as that stays below 2^53. *)
Lemma fold_whole (amounts : list string) (acc : Z) :
  Forall (fun a => wholeNumber a = true) amounts ->
  0 <= acc -> acc + wholeTotal amounts < 2 ^ 53 ->
  fold_left (fun sum a => Js.add sum (Js.parseFloat a)) amounts (Js.ofZ acc)
  = Js.ofZ (acc + wholeTotal amounts).
Proof.
  intros H; revert acc; induction H as [|a l Ha Hl IH]; intros acc Hacc Hlt.
  - unfold wholeTotal; simpl; now rewrite Z.add_0_r.
  - unfold wholeTotal in *; simpl in *.
    pose proof (wholeValue_nonneg a Ha) as Hv.
    pose proof (wholeTotal_nonneg l Hl) as Ht; unfold wholeTotal in Ht.
    rewrite parseFloat_whole, add_ofZ by (assumption || lia).
    rewrite IH by lia. f_equal; lia.
Qed.

End ParseWhole.

(** ** Objects as dictionaries *)

Section JsObjectFacts.
Context {V : Type}.
Implicit Types (o : JsObject.t V) (k : string) (v : V).

Lemma oget_In o k v : JsObject.get o k = Some v -> In (k, v) o.
Proof.
  induction o as [|[k' v'] o IH]; simpl; [discriminate|].
  destruct (String.eqb k' k) eqn:E.
  - apply String.eqb_eq in E; intros [= ->]; subst; now left.
  - intros H; right; now apply IH.
Qed.

Lemma oget_None o k : JsObject.get o k = None <-> ~ In k (map fst o).
Proof.
  induction o as [|[k' v'] o IH]; simpl; [tauto|].
  destruct (String.eqb k' k) eqn:E.
  - apply String.eqb_eq in E; split; [discriminate | tauto].
  - apply String.eqb_neq in E; rewrite IH; tauto.
Qed.

Lemma oIn_get o k v : NoDup (map fst o) -> In (k, v) o -> JsObject.get o k = Some v.
Proof.
  induction o as [|[k' v'] o IH]; simpl; intros ND; [tauto|].
  inversion ND as [|? ? Hn ND']; subst.
  intros [H|H].
  - inversion H; subst; now rewrite String.eqb_refl.
  - destruct (String.eqb k' k) eqn:E; [|now apply IH].
    apply String.eqb_eq in E; subst k'.
    exfalso; apply Hn; now apply (in_map fst) in H.
Qed.

Lemma okeys_set o k v :
  map fst (JsObject.set o k v)
  = match JsObject.get o k with
    | Some _ => map fst o
    | None => map fst o ++ [k]
    end.
Proof.
  induction o as [|[k' v'] o IH]; simpl; [reflexivity|].
  destruct (String.eqb k' k) eqn:E; simpl.
  - apply String.eqb_eq in E; now subst.
  - rewrite IH; now destruct (JsObject.get o k).
Qed.

Lemma NoDup_snoc {B : Type} (l : list B) (x : B) :
  NoDup l -> ~ In x l -> NoDup (l ++ [x]).
Proof.
  intros H N. apply NoDup_rev in H. rewrite <- (rev_involutive (_ ++ _)).
  apply NoDup_rev. rewrite rev_app_distr; simpl.
  constructor; [rewrite <- in_rev; exact N | exact H].
Qed.

Lemma NoDup_okeys_set o k v :
  NoDup (map fst o) -> NoDup (map fst (JsObject.set o k v)).
Proof.
  intros H; rewrite okeys_set.
  destruct (JsObject.get o k) eqn:E; [exact H|].
  apply NoDup_snoc; [exact H | now apply oget_None].
Qed.

Lemma oIn_set o k v k' v' :
  NoDup (map fst o) ->
  In (k', v') (JsObject.set o k v)
  <-> (k' = k /\ v' = v) \/ (k' <> k /\ In (k', v') o).
Proof.
  induction o as [|[k0 v0] o IH]; simpl; intros ND.
  - split; [intros [H|[]]; inversion H; auto | intros [[-> ->]|[_ []]]; auto].
  - inversion ND as [|? ? Hn ND']; subst.
    destruct (String.eqb k0 k) eqn:E; simpl.
    + apply String.eqb_eq in E; subst k0. split.
      * intros [H|H]; [inversion H; auto|].
        right; split; [|auto].
        intros ->; apply Hn; now apply (in_map fst) in H.
      * intros [[-> ->]|[N [H|H]]]; [auto | inversion H; congruence | auto].
    + apply String.eqb_neq in E. rewrite (IH ND'). split.
      * intros [H|[H|H]]; [inversion H; subst; auto | auto | tauto].
      * intros [[-> ->]|[N [H|H]]]; auto.
Qed.

Lemma filter_split_perm {B : Type} (f : B -> bool) (l : list B) :
  Permutation (filter f l ++ filter (fun x => negb (f x)) l) l.
Proof.
  induction l as [|x l IH]; simpl; [reflexivity|].
  destruct (f x); simpl.
  - now constructor.
  - symmetry; apply Permutation_cons_app; now symmetry.
Qed.

Lemma entries_perm o : Permutation (JsObject.entries o) o.
Proof.
  unfold JsObject.entries. rewrite sort_perm. apply filter_split_perm.
Qed.

Lemma values_perm o : Permutation (JsObject.values o) (map snd o).
Proof. apply Permutation_map, entries_perm. Qed.

Lemma keys_perm o : Permutation (JsObject.keys o) (map fst o).
Proof. apply Permutation_map, entries_perm. Qed.

(** With no array index among the keys, the enumeration is in creation
    order. *)
Lemma entries_creation_order o :
  Forall (fun p => JsObject.arrayIndex (fst p) = None) o -> JsObject.entries o = o.
Proof.
  intros H; unfold JsObject.entries.
  assert (E1 : filter JsObject.isIndex o = []).
  { induction H as [|p l Hp Hl IH]; simpl; [reflexivity|].
    unfold JsObject.isIndex at 1; now rewrite Hp. }
  assert (E2 : filter (fun p => negb (JsObject.isIndex p)) o = o).
  { induction H as [|p l Hp Hl IH]; simpl; [reflexivity|].
    unfold JsObject.isIndex at 1; rewrite Hp; simpl. f_equal; apply IH.
    simpl in E1; unfold JsObject.isIndex at 1 in E1; now rewrite Hp in E1. }
  now rewrite E1, E2.
Qed.

End JsObjectFacts.

(** ** Grouping by a key *)

Lemma reduce_snoc {A B : Type} (f : B -> A -> option B) (l : list A) (x : A) (acc : B) :
  Js.reduce f (l ++ [x]) acc
  = match Js.reduce f l acc with Some o => f o x | None => None end.
Proof.
  revert acc; induction l as [|y l IH]; intros acc; simpl.
  - now destruct (f acc x).
  - destruct (f acc y); [apply IH | reflexivity].
Qed.

Section GroupByFacts.
Context {A G : Type}.
Variables (key : A -> string) (init : A -> G) (add : G -> A -> G).

Lemma withKey_snoc (k : string) (l : list A) (x : A) :
  withKey key k (l ++ [x])
  = withKey key k l ++ (if String.eqb (key x) k then [x] else []).
Proof. unfold withKey; rewrite filter_app; reflexivity. Qed.

Lemma groupOf_snoc_other (k : string) (l : list A) (x : A) :
  key x <> k -> groupOf key init add k (l ++ [x]) = groupOf key init add k l.
Proof.
  intros N; unfold groupOf; rewrite withKey_snoc.
  apply String.eqb_neq in N; rewrite N, app_nil_r; reflexivity.
Qed.

Lemma groupOf_snoc_same (l : list A) (x : A) :
  groupOf key init add (key x) (l ++ [x])
  = Some (add (match groupOf key init add (key x) l with
               | Some g => g
               | None => init x
               end) x).
Proof.
  unfold groupOf; rewrite withKey_snoc, String.eqb_refl.
  destruct (withKey key (key x) l) as [|y ys]; simpl; [reflexivity|].
  now rewrite fold_left_app.
Qed.

Lemma groups_nil : groups key init add [] [].
Proof.
  split; [constructor|]; intros k g; split; [intros [] | discriminate].
Qed.

Lemma groups_step (l : list A) (o o' : JsObject.t G) (x : A) :
  groups key init add l o -> groupStep key init add o x = Some o' ->
  groups key init add (l ++ [x]) o'.
Proof.
  intros [ND H] S. unfold groupStep in S.
  assert (E : match JsObject.get o (key x) with
              | Some g => g | None => init x end
              = match groupOf key init add (key x) l with
                | Some g => g | None => init x end).
  { destruct (JsObject.get o (key x)) as [g|] eqn:Eg.
    - apply oget_In, H in Eg; now rewrite Eg.
    - destruct (groupOf key init add (key x) l) as [g|] eqn:Eo; [|reflexivity].
      apply H, (oIn_get _ _ _ ND) in Eo; congruence. }
  assert (S' : o' = JsObject.set o (key x)
                 (add (match JsObject.get o (key x) with
                       | Some g => g | None => init x end) x)).
  { destruct (JsObject.get o (key x)); [congruence|].
    destruct (JsObject.inherited (key x)); congruence. }
  rewrite E in S'; subst o'; clear S E.
  split; [now apply NoDup_okeys_set|].
  intros k g; rewrite (oIn_set _ _ _ _ _ ND).
  destruct (string_dec k (key x)) as [->|N].
  - rewrite groupOf_snoc_same; split.
    + intros [[_ ->]|[N _]]; [reflexivity | congruence].
    + intros [= <-]; auto.
  - rewrite groupOf_snoc_other by congruence. rewrite <- H; split.
    + intros [[? _]|[_ ?]]; [congruence | assumption].
    + auto.
Qed.

Lemma groupStep_total (l : list A) (o : JsObject.t G) (x : A) :
  JsObject.inherited (key x) = false ->
  exists o', groupStep key init add o x = Some o'.
Proof.
  intros E; unfold groupStep; rewrite E.
  destruct (JsObject.get o (key x)); eauto.
Qed.

(** A grouping that returns, returns the groups of the list. *)
Lemma groupBy_groups (l : list A) (o : JsObject.t G) :
  Js.reduce (groupStep key init add) l JsObject.empty = Some o ->
  groups key init add l o.
Proof.
  revert o; induction l as [|x l IH] using rev_ind; intros o.
  - simpl; intros [= <-]; apply groups_nil.
  - rewrite reduce_snoc.
    destruct (Js.reduce _ l JsObject.empty) as [o1|]; [|discriminate].
    intros S; eapply groups_step; eauto.
Qed.

(** It returns when no key is the name of an inherited property. *)
Lemma groupBy_total (l : list A) :
  noInheritedKey key l ->
  exists o, Js.reduce (groupStep key init add) l JsObject.empty = Some o.
Proof.
  induction l as [|x l IH] using rev_ind; intros H.
  - simpl; eauto.
  - apply Forall_app in H; destruct H as [Hl Hx].
    destruct (IH Hl) as [o1 E]. rewrite reduce_snoc, E.
    inversion Hx; subst. now apply (groupStep_total l).
Qed.

(** Following [groupOf]: the group of a key that occurs. *)
Lemma groupOf_Some (k : string) (l : list A) (g : G) :
  groupOf key init add k l = Some g ->
  exists x xs, withKey key k l = x :: xs /\ g = fold_left add (x :: xs) (init x).
Proof.
  unfold groupOf; destruct (withKey key k l) as [|x xs]; [discriminate|].
  intros [= <-]; eauto.
Qed.

Lemma groupOf_occurs (l : list A) (x : A) :
  In x l -> exists g, groupOf key init add (key x) l = Some g.
Proof.
  intros H; unfold groupOf.
  assert (I : In x (withKey key (key x) l))
    by (apply filter_In; split; [exact H | apply String.eqb_refl]).
  destruct (withKey key (key x) l); [destruct I | eauto].
Qed.

End GroupByFacts.

(** The three groupings of home.tsx are of that shape. *)
Lemma byDateStep_shape (dateTimeFormat : Z -> string) :
  Home.byDateStep dateTimeFormat
  = groupStep (fun c => Home.formatDate dateTimeFormat (Customer.createdAt c))
              (fun _ => []) (fun dateCustomers c => dateCustomers ++ [c]).
Proof. reflexivity. Qed.

Lemma byNameStep_shape :
  Home.byNameStep = groupStep Customer.name Home.newGroup Home.addEntry.
Proof. reflexivity. Qed.

Lemma pdfStep_shape :
  Home.pdfStep = groupStep Customer.name Home.pdfNewGroup Home.pdfAddEntry.
Proof. reflexivity. Qed.

(** ** Name groups *)

Lemma fold_addEntry (es : list Customer.t) (g : Group.t) :
  let g' := fold_left Home.addEntry es g in
  Group.name g' = Group.name g
  /\ Group.goodsType g' = Group.goodsType g
  /\ Group.entries g' = Group.entries g ++ es
  /\ Group.totalAmount g'
     = fold_left (fun sum a => Js.add sum (Js.parseFloat a))
                 (map Customer.amount es) (Group.totalAmount g)
  /\ Group.totalCars g'
     = fold_left (fun sum c => Js.add sum (Customer.carCount c)) es
                 (Group.totalCars g)
  /\ Group.allPaid g' = (Group.allPaid g && forallb notUnpaid es)%bool.
Proof.
  revert g; induction es as [|c es IH]; intros g; cbn zeta.
  - simpl; rewrite app_nil_r, andb_true_r; repeat split.
  - cbn [fold_left map forallb].
    destruct (IH (Home.addEntry g c)) as (H1 & H2 & H3 & H4 & H5 & H6).
    rewrite H1, H2, H3, H4, H5, H6; cbn [Home.addEntry Group.name Group.goodsType
      Group.entries Group.totalAmount Group.totalCars Group.allPaid].
    rewrite <- app_assoc; repeat split.
    unfold notUnpaid.
    destruct (String.eqb (Customer.paymentStatus c) "unpaid"); simpl;
      [now rewrite andb_false_r | reflexivity].
Qed.

Lemma withKey_key {A : Type} (key : A -> string) (k : string) (l : list A) (x : A) :
  In x (withKey key k l) <-> In x l /\ key x = k.
Proof. unfold withKey; rewrite filter_In, String.eqb_eq; reflexivity. Qed.

Lemma groupOf_isGroupOf (n : string) (l : list Customer.t) (g : Group.t) :
  groupOf Customer.name Home.newGroup Home.addEntry n l = Some g ->
  isGroupOf n l g.
Proof.
  intros H; apply groupOf_Some in H; destruct H as (x & xs & E & ->).
  destruct (fold_addEntry (x :: xs) (Home.newGroup x)) as (H1 & H2 & H3 & H4 & H5 & H6).
  assert (Hx : Customer.name x = n).
  { apply (withKey_key Customer.name n l x); rewrite E; now left. }
  unfold isGroupOf; rewrite H1, H2, H3, H4, H5, H6, E; cbn [Home.newGroup
    Group.name Group.goodsType Group.entries Group.totalAmount Group.totalCars
    Group.allPaid app andb].
  repeat split; try assumption; try discriminate.
  now intros c [= <-].
Qed.

(** What [groupedByName] returns: one group for each name that occurs. *)
Lemma groupedByName_groups (l : list Customer.t) (o : JsObject.t Group.t) :
  Home.groupedByName l = Some o ->
  NoDup (map fst o)
  /\ (forall n g, In (n, g) o -> isGroupOf n l g)
  /\ (forall c, In c l -> exists g, In (Customer.name c, g) o).
Proof.
  unfold Home.groupedByName; rewrite byNameStep_shape; intros H.
  apply groupBy_groups in H; destruct H as [ND H]; split; [|split].
  - exact ND.
  - intros n g I; apply groupOf_isGroupOf; now apply H.
  - intros c I.
    destruct (groupOf_occurs Customer.name Home.newGroup Home.addEntry l c I) as [g E].
    exists g; now apply H.
Qed.

Lemma groupedByName_total (l : list Customer.t) :
  noInheritedKey Customer.name l -> exists o, Home.groupedByName l = Some o.
Proof.
  unfold Home.groupedByName; rewrite byNameStep_shape; apply groupBy_total.
Qed.

(** ** Date partitions *)

Lemma fold_snoc {A : Type} (xs acc : list A) :
  fold_left (fun l x => l ++ [x]) xs acc = acc ++ xs.
Proof.
  revert acc; induction xs as [|x xs IH]; intros acc; simpl.
  - now rewrite app_nil_r.
  - now rewrite IH, <- app_assoc.
Qed.

Lemma customersByDate_groups (dtf : Z -> string) (l : list Customer.t)
  (o : JsObject.t (list Customer.t)) :
  Home.customersByDate dtf l = Some o ->
  NoDup (map fst o)
  /\ (forall k cs, In (k, cs) o -> cs = customersOfDate dtf k l /\ cs <> [])
  /\ (forall c, In c l -> In (dateKeyOf dtf c, customersOfDate dtf (dateKeyOf dtf c) l) o).
Proof.
  unfold Home.customersByDate; rewrite byDateStep_shape; intros H.
  apply groupBy_groups in H; destruct H as [ND H]; split; [|split].
  - exact ND.
  - intros k cs I; apply H, groupOf_Some in I; destruct I as (x & xs & E & ->).
    rewrite fold_snoc; unfold customersOfDate, dateKeyOf; rewrite E.
    split; [reflexivity | discriminate].
  - intros c I.
    destruct (groupOf_occurs (dateKeyOf dtf) (fun _ => [])
                (fun cs c => cs ++ [c]) l c I) as [g E].
    pose proof E as E'; apply groupOf_Some in E'.
    destruct E' as (x & xs & Ew & ->).
    apply H. refine (eq_trans E _). rewrite fold_snoc. unfold customersOfDate.
    now rewrite Ew.
Qed.

Lemma customersByDate_total (dtf : Z -> string) (l : list Customer.t) :
  noInheritedKey (dateKeyOf dtf) l -> exists o, Home.customersByDate dtf l = Some o.
Proof.
  unfold Home.customersByDate; rewrite byDateStep_shape; apply groupBy_total.
Qed.

(** A grouping returns only when no key is inherited. *)
Lemma groups_key_occurs {A G : Type} (key : A -> string) (init : A -> G)
  (add : G -> A -> G) (l : list A) (o : JsObject.t G) (k : string) (g : G) :
  groups key init add l o -> In (k, g) o -> exists x, In x l /\ key x = k.
Proof.
  intros [_ H] I; apply H, groupOf_Some in I.
  destruct I as (x & xs & E & _); exists x.
  apply (withKey_key key k l x); rewrite E; now left.
Qed.

Lemma groupBy_noInherited {A G : Type} (key : A -> string) (init : A -> G)
  (add : G -> A -> G) (l : list A) (o : JsObject.t G) :
  Js.reduce (groupStep key init add) l JsObject.empty = Some o ->
  noInheritedKey key l.
Proof.
  revert o; induction l as [|x l IH] using rev_ind; intros o; [constructor|].
  rewrite reduce_snoc.
  destruct (Js.reduce _ l JsObject.empty) as [o1|] eqn:E; [|discriminate].
  intros S; specialize (IH o1 eq_refl).
  apply Forall_app; split; [exact IH|]; constructor; [|constructor].
  unfold groupStep in S.
  destruct (JsObject.get o1 (key x)) as [g|] eqn:Eg.
  - apply oget_In in Eg.
    destruct (groups_key_occurs key init add l o1 _ _ (groupBy_groups _ _ _ _ _ E) Eg)
      as (y & Iy & Ey).
    unfold noInheritedKey in IH; rewrite Forall_forall in IH.
    rewrite <- Ey; now apply IH.
  - destruct (JsObject.inherited (key x)); [discriminate | reflexivity].
Qed.

(** ** The keys of a grouping, in order *)

Lemma sort_map_gen {A B : Type} (g : A -> B) (cmpA : A -> A -> Z)
  (cmpB : B -> B -> Z) (l : list A) :
  (forall a b, cmpB (g a) (g b) = cmpA a b) ->
  Js.sort cmpB (map g l) = map g (Js.sort cmpA l).
Proof.
  intros H; induction l as [|x l IH]; [reflexivity|]. simpl. rewrite IH.
  generalize (Js.sort cmpA l) as s; intros s.
  induction s as [|y s IHs]; [reflexivity|]. simpl. rewrite H.
  destruct (cmpA x y <=? 0); simpl; [reflexivity|]. now rewrite IHs.
Qed.

Lemma filter_map_gen {A B : Type} (g : A -> B) (p : B -> bool) (l : list A) :
  filter p (map g l) = map g (filter (fun a => p (g a)) l).
Proof.
  induction l as [|x l IH]; [reflexivity|]. simpl.
  destruct (p (g x)); simpl; now rewrite IH.
Qed.

Lemma keys_enumerationOrder {V : Type} (o : JsObject.t V) :
  JsObject.keys o = enumerationOrder (map fst o).
Proof.
  unfold JsObject.keys, JsObject.entries, enumerationOrder.
  rewrite map_app. f_equal.
  - rewrite (filter_map_gen fst isArrayIndex).
    rewrite (sort_map_gen fst (fun a b => JsObject.indexOf a - JsObject.indexOf b)).
    + reflexivity.
    + reflexivity.
  - now rewrite (filter_map_gen fst (fun k => negb (isArrayIndex k))).
Qed.

Lemma enumerationOrder_plain (ks : list string) :
  Forall (fun k => JsObject.arrayIndex k = None) ks -> enumerationOrder ks = ks.
Proof.
  intros H; unfold enumerationOrder.
  assert (E1 : filter isArrayIndex ks = []).
  { induction H as [|k l Hk Hl IH]; simpl; [reflexivity|].
    unfold isArrayIndex at 1; now rewrite Hk. }
  assert (E2 : filter (fun k => negb (isArrayIndex k)) ks = ks).
  { clear E1. induction H as [|k l Hk Hl IH]; simpl; [reflexivity|].
    unfold isArrayIndex at 1; rewrite Hk; simpl. now f_equal. }
  now rewrite E1, E2.
Qed.

Lemma enumerationOrder_perm (ks : list string) :
  Permutation (enumerationOrder ks) ks.
Proof.
  unfold enumerationOrder. rewrite sort_perm. apply filter_split_perm.
Qed.

Lemma distinct_In (l : list string) (k : string) : In k (distinct l) <-> In k l.
Proof.
  induction l as [|a r IH]; simpl; [tauto|].
  rewrite filter_In, IH. destruct (String.eqb_spec k a) as [->|N].
  - tauto.
  - simpl. intuition congruence.
Qed.

Lemma distinct_NoDup (l : list string) : NoDup (distinct l).
Proof.
  induction l as [|a r IH]; simpl; constructor.
  - rewrite filter_In, String.eqb_refl. simpl. intros [_ H]; discriminate.
  - now apply NoDup_filter.
Qed.

Lemma distinct_snoc (l : list string) (x : string) :
  distinct (l ++ [x])
  = if existsb (String.eqb x) l then distinct l else distinct l ++ [x].
Proof.
  induction l as [|a r IH]; [reflexivity|]. simpl. rewrite IH.
  destruct (String.eqb_spec x a) as [->|N]; simpl.
  - destruct (existsb (String.eqb a) r); [reflexivity|].
    rewrite filter_app. simpl. rewrite String.eqb_refl. simpl.
    now rewrite app_nil_r.
  - destruct (existsb (String.eqb x) r); [reflexivity|].
    rewrite filter_app. simpl.
    destruct (String.eqb_spec x a); [contradiction|]. reflexivity.
Qed.

Lemma existsb_eqb_In (l : list string) (x : string) :
  existsb (String.eqb x) l = true <-> In x l.
Proof.
  rewrite existsb_exists. split.
  - intros [y [I E]]. apply String.eqb_eq in E. now subst.
  - intros I. exists x. split; [exact I | apply String.eqb_refl].
Qed.

(** The keys of the accumulator of a grouping are created in the order in
    which the keys first occur. *)
Lemma groupBy_keys {A G : Type} (key : A -> string) (init : A -> G)
  (add : G -> A -> G) (l : list A) (o : JsObject.t G) :
  Js.reduce (groupStep key init add) l JsObject.empty = Some o ->
  map fst o = distinct (map key l).
Proof.
  revert o; induction l as [|x l IH] using rev_ind; intros o E.
  - simpl in E. now injection E as <-.
  - rewrite reduce_snoc in E.
    destruct (Js.reduce (groupStep key init add) l JsObject.empty) as [o0|] eqn:E0;
      [|discriminate].
    specialize (IH o0 eq_refl).
    rewrite map_app. cbn [map]. rewrite distinct_snoc.
    unfold groupStep in E.
    destruct (JsObject.get o0 (key x)) as [g|] eqn:Gx.
    + injection E as <-. rewrite okeys_set, Gx.
      replace (existsb (String.eqb (key x)) (map key l)) with true; [exact IH|].
      symmetry. apply existsb_eqb_In. apply distinct_In. rewrite <- IH.
      apply oget_In in Gx. change (key x) with (fst (key x, g)). now apply in_map.
    + destruct (JsObject.inherited (key x)); [discriminate|].
      injection E as <-. rewrite okeys_set, Gx.
      replace (existsb (String.eqb (key x)) (map key l)) with false;
        [now rewrite IH|].
      symmetry. apply not_true_is_false. intros H.
      apply existsb_eqb_In, distinct_In in H. rewrite <- IH in H.
      now apply oget_None in Gx.
Qed.

Lemma values_names {G : Type} (name : G -> string) (o : JsObject.t G) :
  (forall k g, In (k, g) o -> name g = k) ->
  map name (JsObject.values o) = JsObject.keys o.
Proof.
  intros H. unfold JsObject.values, JsObject.keys. rewrite map_map.
  apply map_ext_in. intros [k g] I. simpl. apply H.
  now apply (Permutation_in _ (entries_perm o)).
Qed.

Lemma in_values_obj {G : Type} (o : JsObject.t G) (g : G) :
  In g (JsObject.values o) -> exists k, In (k, g) o.
Proof.
  intros I. apply (Permutation_in _ (values_perm o)) in I.
  apply in_map_iff in I. destruct I as [[k g'] [E I]]. simpl in E; subst g'.
  now exists k.
Qed.

(** ** The view *)

Lemma In_firstn {A : Type} (n : nat) (l : list A) (x : A) :
  In x (firstn n l) -> In x l.
Proof.
  intros H; rewrite <- (firstn_skipn n l); apply in_or_app; now left.
Qed.

Lemma sort_ext {A : Type} (cmp cmp' : A -> A -> Z) (l : list A) :
  (forall a b, cmp a b = cmp' a b) -> Js.sort cmp l = Js.sort cmp' l.
Proof.
  intros H; induction l as [|x l IH]; [reflexivity|]. simpl. rewrite IH.
  generalize (Js.sort cmp' l) as s; intros s.
  induction s as [|y s IHs]; [reflexivity|]. simpl. rewrite H.
  destruct (cmp' x y <=? 0); [reflexivity | now rewrite IHs].
Qed.

Section ViewFacts.
Variable dtf : Z -> string.

Lemma renderDate_inv (byDate : JsObject.t (list Customer.t)) (k : string)
  (d : Home.DateSection) :
  Home.renderDate byDate k = Some d ->
  exists cs o,
    JsObject.get byDate k = Some cs
    /\ Home.groupedByName cs = Some o
    /\ Home.dateKey d = k
    /\ Home.customerGroups d = JsObject.values o
    /\ Home.totalDayAmount d
       = fold_left (fun sum g => Js.add sum (Group.totalAmount g))
                   (Home.customerGroups d) Js.zero.
Proof.
  unfold Home.renderDate.
  destruct (JsObject.get byDate k) as [cs|] eqn:E1; [|discriminate].
  destruct (Home.groupedByName cs) as [o|] eqn:E2; [|discriminate].
  intros [= <-]; exists cs, o; repeat split; assumption.
Qed.

Lemma renderDates_Forall2 (byDate : JsObject.t (list Customer.t))
  (keys : list string) (sections : list Home.DateSection) :
  Home.renderDates byDate keys = Some sections <->
  Forall2 (fun k d => Home.renderDate byDate k = Some d) keys sections.
Proof.
  revert sections; induction keys as [|k keys IH]; intros sections; simpl.
  - split; [intros [= <-]; constructor | intros H; now inversion H].
  - destruct (Home.renderDate byDate k) as [d|] eqn:E.
    + destruct (Home.renderDates byDate keys) as [ds|].
      * split.
        -- intros [= <-]; constructor; [exact E | now apply IH].
        -- intros H; inversion H as [|? d' ? ds' Hd Hds]; subst.
           apply IH in Hds; congruence.
      * split; [discriminate|].
        intros H; inversion H as [|? d' ? ds' Hd Hds]; subst.
        apply IH in Hds; discriminate.
    + split; [discriminate|].
      intros H; inversion H; subst; congruence.
Qed.

Lemma sortedDates_perm (byDate : JsObject.t (list Customer.t)) :
  Permutation (Home.sortedDates byDate) (map fst byDate).
Proof. unfold Home.sortedDates; rewrite sort_perm; apply keys_perm. Qed.

Lemma recentDates_keys (byDate : JsObject.t (list Customer.t)) (k : string) :
  In k (Home.recentDates byDate) -> In k (map fst byDate).
Proof.
  intros H; apply In_firstn in H.
  exact (Permutation_in _ (sortedDates_perm byDate) H).
Qed.

(** What the rendering of a list of dates returns: a section for each
    date, holding the name groups of the customers of the date. *)
Lemma renderDates_inv (C : list Customer.t)
  (byDate : JsObject.t (list Customer.t)) (keys : list string)
  (sections : list Home.DateSection) :
  Home.customersByDate dtf C = Some byDate ->
  Home.renderDates byDate keys = Some sections ->
  map Home.dateKey sections = keys
  /\ Forall (fun d =>
               exists o,
                 Home.groupedByName (customersOfDate dtf (Home.dateKey d) C) = Some o
                 /\ customersOfDate dtf (Home.dateKey d) C <> []
                 /\ Home.customerGroups d = JsObject.values o
                 /\ Home.totalDayAmount d
                    = fold_left (fun sum g => Js.add sum (Group.totalAmount g))
                                (Home.customerGroups d) Js.zero)
            sections.
Proof.
  intros E H.
  apply customersByDate_groups in E; destruct E as (ND & Hcs & _).
  apply renderDates_Forall2 in H.
  induction H as [|k d keys ds Hd Hds IH]; simpl; [split; [reflexivity|constructor]|].
  destruct IH as [IH1 IH2].
  apply renderDate_inv in Hd; destruct Hd as (cs & o & G & Go & Ek & Eg & Et).
  apply oget_In, Hcs in G; destruct G as [-> Hne].
  split; [now rewrite Ek, IH1|].
  constructor; [|exact IH2].
  exists o; rewrite Ek; auto.
Qed.

(** What the view returns: a section for each of the dates kept. *)
Lemma dailyOperations_inv (C : list Customer.t) (view : list Home.DateSection) :
  Home.dailyOperations dtf C = Some view ->
  exists byDate,
    Home.customersByDate dtf C = Some byDate
    /\ map Home.dateKey view = Home.recentDates byDate
    /\ Forall (fun d =>
                 exists o,
                   Home.groupedByName (customersOfDate dtf (Home.dateKey d) C) = Some o
                   /\ customersOfDate dtf (Home.dateKey d) C <> []
                   /\ Home.customerGroups d = JsObject.values o
                   /\ Home.totalDayAmount d
                      = fold_left (fun sum g => Js.add sum (Group.totalAmount g))
                                  (Home.customerGroups d) Js.zero)
              view.
Proof.
  unfold Home.dailyOperations.
  destruct C as [|c C].
  - intros [= <-]; exists JsObject.empty; repeat split; constructor.
  - destruct (Home.customersByDate dtf (c :: C)) as [byDate|] eqn:E; [|discriminate].
    intros H; exists byDate; split; [reflexivity|].
    exact (renderDates_inv (c :: C) byDate _ view E H).
Qed.

Lemma view_dates (C : list Customer.t) (view : list Home.DateSection) :
  Home.dailyOperations dtf C = Some view ->
  map Home.dateKey view = shownDates dtf C.
Proof.
  intros H; apply dailyOperations_inv in H; destruct H as (byDate & E & Ek & _).
  unfold shownDates; now rewrite E.
Qed.

Lemma shown_In (C : list Customer.t) (c : Customer.t) :
  shown dtf C c = true <-> In (dateKeyOf dtf c) (shownDates dtf C).
Proof. apply existsb_eqb_In. Qed.

Lemma shownCustomers_In (C : list Customer.t) (c : Customer.t) :
  In c (shownCustomers dtf C)
  <-> In c C /\ In (dateKeyOf dtf c) (shownDates dtf C).
Proof. unfold shownCustomers; rewrite filter_In, shown_In; reflexivity. Qed.

(** The rendering returns when no name of a customer of the dates is
    inherited. *)
Lemma renderDates_total (C : list Customer.t)
  (byDate : JsObject.t (list Customer.t)) (keys : list string) :
  Home.customersByDate dtf C = Some byDate ->
  (forall k, In k keys -> In k (map fst byDate)) ->
  (forall c, In c C -> In (dateKeyOf dtf c) keys ->
             JsObject.inherited (Customer.name c) = false) ->
  exists sections, Home.renderDates byDate keys = Some sections.
Proof.
  intros E Hk Hn.
  apply customersByDate_groups in E; destruct E as (ND & Hcs & _).
  assert (K : forall k, In k keys -> exists d, Home.renderDate byDate k = Some d).
  { intros k I. pose proof (Hk k I) as I'.
    apply in_map_iff in I'; destruct I' as [[k' cs] [Ek I']]; simpl in Ek; subst k'.
    unfold Home.renderDate; rewrite (oIn_get _ _ _ ND I').
    destruct (Hcs _ _ I') as [-> _].
    destruct (groupedByName_total (customersOfDate dtf k C)) as [o Eo].
    - unfold noInheritedKey; rewrite Forall_forall.
      intros x Hx; apply withKey_key in Hx; destruct Hx as [Hx Ex].
      apply Hn; [exact Hx | now rewrite Ex].
    - rewrite Eo; eauto. }
  clear Hk Hn. induction keys as [|k keys IH]; simpl; [eauto|].
  destruct (K k (or_introl eq_refl)) as [d ->].
  destruct IH as [ds ->]; [intros; apply K; now right | eauto].
Qed.

(** The view is rendered when no date key, and no name of a customer of a
    date kept, is inherited. *)
Lemma dailyOperations_total (C : list Customer.t) :
  noInheritedKey (dateKeyOf dtf) C ->
  noInheritedKey Customer.name (shownCustomers dtf C) ->
  exists view, Home.dailyOperations dtf C = Some view.
Proof.
  intros Hd Hn; unfold Home.dailyOperations.
  destruct C as [|c0 C0]; [eauto|]. set (C := c0 :: C0) in *.
  destruct (customersByDate_total dtf C Hd) as [byDate E]; rewrite E.
  apply (renderDates_total C byDate _ E).
  - apply recentDates_keys.
  - intros c Ic Ik. unfold noInheritedKey in Hn; rewrite Forall_forall in Hn.
    apply Hn, shownCustomers_In; split; [exact Ic|].
    unfold shownDates; now rewrite E.
Qed.

Lemma shownCustomers_incl (C : list Customer.t) :
  noInheritedKey Customer.name C ->
  noInheritedKey Customer.name (shownCustomers dtf C).
Proof.
  unfold noInheritedKey; rewrite !Forall_forall; intros H c Ic.
  apply shownCustomers_In in Ic; now apply H.
Qed.

(** The time by which a date is sorted. *)
Lemma firstCreatedAt_firstTimeOf (C : list Customer.t)
  (byDate : JsObject.t (list Customer.t)) (k : string) :
  Home.customersByDate dtf C = Some byDate ->
  Home.firstCreatedAt byDate k = firstTimeOf dtf C k.
Proof.
  intros E; apply customersByDate_groups in E; destruct E as (ND & Hcs & Hc).
  unfold Home.firstCreatedAt, firstTimeOf.
  destruct (JsObject.get byDate k) as [cs|] eqn:G.
  - apply oget_In, Hcs in G; destruct G as [<- _]; reflexivity.
  - destruct (customersOfDate dtf k C) as [|c cs] eqn:Ec; [reflexivity|].
    exfalso. apply oget_None in G; apply G.
    assert (Ic : In c (customersOfDate dtf k C)) by (rewrite Ec; now left).
    apply withKey_key in Ic; destruct Ic as [Ic <-].
    exact (in_map fst _ _ (Hc c Ic)).
Qed.

(** The sorted dates, from the customers alone. *)
Lemma sortedDates_eq (C : list Customer.t)
  (byDate : JsObject.t (list Customer.t)) :
  Home.customersByDate dtf C = Some byDate ->
  Home.sortedDates byDate
  = Js.sort (fun a b => firstTimeOf dtf C b - firstTimeOf dtf C a)
            (enumerationOrder (distinct (map (dateKeyOf dtf) C))).
Proof.
  intros E. unfold Home.sortedDates. rewrite keys_enumerationOrder.
  pose proof E as E'; unfold Home.customersByDate in E'.
  rewrite byDateStep_shape in E'.
  rewrite (groupBy_keys _ _ _ _ _ E').
  apply sort_ext; intros a b.
  now rewrite !(firstCreatedAt_firstTimeOf C byDate _ E).
Qed.

Lemma sortedDates_length (C : list Customer.t)
  (byDate : JsObject.t (list Customer.t)) :
  Home.customersByDate dtf C = Some byDate ->
  List.length (Home.sortedDates byDate) = dateCount dtf C.
Proof.
  intros E. rewrite (Permutation_length (sortedDates_perm byDate)).
  unfold Home.customersByDate in E; rewrite byDateStep_shape in E.
  rewrite (groupBy_keys _ _ _ _ _ E). reflexivity.
Qed.

(** With at most three dates the view keeps every customer. *)
Lemma shownCustomers_all (C : list Customer.t)
  (byDate : JsObject.t (list Customer.t)) :
  Home.customersByDate dtf C = Some byDate ->
  (dateCount dtf C <= 3)%nat -> shownCustomers dtf C = C.
Proof.
  intros E L. unfold shownCustomers. apply forallb_filter_id, forallb_forall.
  intros c Ic. apply shown_In. unfold shownDates; rewrite E.
  unfold Home.recentDates.
  rewrite firstn_all2 by (now rewrite (sortedDates_length C byDate E)).
  apply (Permutation_in _ (Permutation_sym (sortedDates_perm byDate))).
  apply customersByDate_groups in E; destruct E as (_ & _ & Hc).
  exact (in_map fst _ _ (Hc c Ic)).
Qed.

(** With more than three dates it leaves some customer out. *)
Lemma shownCustomers_some_hidden (C : list Customer.t)
  (byDate : JsObject.t (list Customer.t)) :
  Home.customersByDate dtf C = Some byDate ->
  (3 < dateCount dtf C)%nat ->
  exists c, In c C /\ ~ In c (shownCustomers dtf C).
Proof.
  intros E L. rewrite <- (sortedDates_length C byDate E) in L.
  pose proof (customersByDate_groups dtf C byDate E) as (ND & Hcs & _).
  assert (NDs : NoDup (Home.sortedDates byDate))
    by (apply (Permutation_NoDup (Permutation_sym (sortedDates_perm byDate)) ND)).
  rewrite <- (firstn_skipn 3 (Home.sortedDates byDate)) in NDs.
  destruct (skipn 3 (Home.sortedDates byDate)) as [|k rest] eqn:Es.
  - exfalso. pose proof (length_skipn 3 (Home.sortedDates byDate)) as Ls.
    rewrite Es in Ls; simpl in Ls; lia.
  - pose proof (NoDup_remove_2 _ _ _ NDs) as Nk.
    assert (Ik : In k (map fst byDate)).
    { apply (Permutation_in _ (sortedDates_perm byDate)).
      rewrite <- (firstn_skipn 3 (Home.sortedDates byDate)), Es.
      apply in_or_app; right; now left. }
    apply in_map_iff in Ik; destruct Ik as [[k' cs] [Ek I]]; simpl in Ek; subst k'.
    destruct (Hcs _ _ I) as [Ecs Hne].
    destruct cs as [|c cs]; [congruence|]. exists c.
    assert (Ic : In c (customersOfDate dtf k C)) by (rewrite <- Ecs; now left).
    apply withKey_key in Ic; destruct Ic as [Ic Ek].
    split; [exact Ic|]. intros Hs; apply shownCustomers_In in Hs.
    destruct Hs as [_ Hs]. unfold shownDates in Hs; rewrite E in Hs.
    apply Nk, in_or_app; left. now rewrite <- Ek.
Qed.

End ViewFacts.

Section GroupFacts.
Variable dtf : Z -> string.

(** Every group of every section of the view is the group of its name among
    the customers of the section's date. *)
Lemma section_group (C : list Customer.t) (view : list Home.DateSection)
  (d : Home.DateSection) (g : Group.t) :
  Home.dailyOperations dtf C = Some view ->
  In d view -> In g (Home.customerGroups d) ->
  isGroupOf (Group.name g) (customersOfDate dtf (Home.dateKey d) C) g.
Proof.
  intros H Id Ig.
  apply dailyOperations_inv in H; destruct H as (byDate & _ & _ & F).
  rewrite Forall_forall in F; destruct (F d Id) as (o & Eo & _ & Eg & _).
  rewrite Eg in Ig; apply (Permutation_in _ (values_perm o)) in Ig.
  apply in_map_iff in Ig; destruct Ig as [[n g'] [<- I]]; simpl.
  apply groupedByName_groups in Eo; destruct Eo as (_ & Go & _).
  pose proof (Go _ _ I) as Hg.
  destruct Hg as (En & _); now rewrite En; apply Go.
Qed.

(** Every customer of a date kept has its group: in the section of its
    date, under its name. *)
Lemma customer_group (C : list Customer.t) (view : list Home.DateSection)
  (c : Customer.t) :
  Home.dailyOperations dtf C = Some view -> In c C ->
  In (dateKeyOf dtf c) (shownDates dtf C) ->
  exists d g,
    In d view /\ Home.dateKey d = dateKeyOf dtf c
    /\ In g (Home.customerGroups d) /\ Group.name g = Customer.name c
    /\ In c (Group.entries g).
Proof.
  intros H Ic Ik.
  rewrite <- (view_dates dtf C view H) in Ik.
  apply dailyOperations_inv in H; destruct H as (byDate & E & Ek & F).
  apply in_map_iff in Ik; destruct Ik as (d & Ed & Id).
  rewrite Forall_forall in F; destruct (F d Id) as (o & Eo & _ & Eg & _).
  apply groupedByName_groups in Eo; destruct Eo as (_ & Go & Gc).
  assert (Ic' : In c (customersOfDate dtf (Home.dateKey d) C))
    by (apply withKey_key; split; [exact Ic | now rewrite Ed]).
  destruct (Gc c Ic') as [g Ig].
  destruct (Go _ _ Ig) as (En & Ee & _).
  exists d, g; repeat split; auto.
  - rewrite Eg. apply (Permutation_in _ (Permutation_sym (values_perm o))).
    now apply (in_map snd) in Ig.
  - rewrite Ee; apply withKey_key; split; [exact Ic' | reflexivity].
Qed.

Lemma allPaid_no_unpaid (n : string) (l : list Customer.t) (g : Group.t) :
  isGroupOf n l g ->
  (Group.allPaid g = true
   <-> forall e, In e (Group.entries g) -> Customer.paymentStatus e <> "unpaid").
Proof.
  intros (_ & _ & _ & _ & _ & Ep & _); rewrite Ep, forallb_forall.
  unfold notUnpaid; split; intros H e I; specialize (H e I).
  - apply negb_true_iff, String.eqb_neq in H; exact H.
  - apply negb_true_iff, String.eqb_neq; exact H.
Qed.

Lemma noInheritedKey_markUnpaid {key : Customer.t -> string}
  (C1 C2 : list Customer.t) (c : Customer.t) :
  key (markUnpaid c) = key c ->
  noInheritedKey key (C1 ++ c :: C2) ->
  noInheritedKey key (C1 ++ markUnpaid c :: C2).
Proof.
  intros E H; unfold noInheritedKey in *.
  apply Forall_app in H; destruct H as [H1 H2]; inversion H2; subst.
  apply Forall_app; split; [exact H1|]; constructor; [now rewrite E | assumption].
Qed.

(** The view is rendered only when no date key, and no name of a customer
    of a date kept, is inherited. *)
Lemma dailyOperations_noInherited (C : list Customer.t)
  (view : list Home.DateSection) :
  Home.dailyOperations dtf C = Some view ->
  noInheritedKey (dateKeyOf dtf) C
  /\ noInheritedKey Customer.name (shownCustomers dtf C).
Proof.
  intros Ev; split.
  - apply dailyOperations_inv in Ev; destruct Ev as (byDate & E & _).
    unfold Home.customersByDate in E; rewrite byDateStep_shape in E.
    exact (groupBy_noInherited _ _ _ _ _ E).
  - unfold noInheritedKey; rewrite Forall_forall; intros c Ic.
    apply shownCustomers_In in Ic; destruct Ic as [Ic Ik].
    destruct (customer_group C view c Ev Ic Ik) as (d & g & Id & Ek & _).
    apply dailyOperations_inv in Ev; destruct Ev as (byDate & _ & _ & F).
    rewrite Forall_forall in F; destruct (F d Id) as (o & Eo & _).
    unfold Home.groupedByName in Eo; rewrite byNameStep_shape in Eo.
    apply groupBy_noInherited in Eo.
    unfold noInheritedKey in Eo; rewrite Forall_forall in Eo; apply Eo.
    apply withKey_key; split; [exact Ic | now rewrite Ek].
Qed.

(** Marking a customer unpaid changes neither the dates nor their order. *)
Lemma firstTimeOf_markUnpaid (C1 C2 : list Customer.t) (c : Customer.t)
  (k : string) :
  firstTimeOf dtf (C1 ++ markUnpaid c :: C2) k
  = firstTimeOf dtf (C1 ++ c :: C2) k.
Proof.
  unfold firstTimeOf, customersOfDate, withKey. rewrite !filter_app.
  destruct (filter (fun x => String.eqb (dateKeyOf dtf x) k) C1); [|reflexivity].
  cbn [app filter].
  change (dateKeyOf dtf (markUnpaid c)) with (dateKeyOf dtf c).
  now destruct (String.eqb (dateKeyOf dtf c) k).
Qed.

Lemma shownDates_markUnpaid (C1 C2 : list Customer.t) (c : Customer.t) :
  noInheritedKey (dateKeyOf dtf) (C1 ++ c :: C2) ->
  shownDates dtf (C1 ++ markUnpaid c :: C2) = shownDates dtf (C1 ++ c :: C2).
Proof.
  intros Hd.
  assert (Hd' : noInheritedKey (dateKeyOf dtf) (C1 ++ markUnpaid c :: C2))
    by (apply noInheritedKey_markUnpaid; [reflexivity | exact Hd]).
  destruct (customersByDate_total dtf _ Hd) as [byDate E].
  destruct (customersByDate_total dtf _ Hd') as [byDate' E'].
  unfold shownDates; rewrite E, E'. unfold Home.recentDates.
  rewrite (sortedDates_eq dtf _ _ E), (sortedDates_eq dtf _ _ E').
  f_equal.
  assert (M : map (dateKeyOf dtf) (C1 ++ markUnpaid c :: C2)
              = map (dateKeyOf dtf) (C1 ++ c :: C2))
    by (rewrite !map_app; reflexivity).
  rewrite M. apply sort_ext; intros a b.
  now rewrite !firstTimeOf_markUnpaid.
Qed.

End GroupFacts.

(** C4.  The view has a group for every customer of a date it keeps, under
    the customer's date and name.  For every (date, name) group of the view,
    [allPaid] is true if and only if no entry of the group is unpaid, which
    for entries whose payment status is paid or unpaid, the two statuses of
    the data model, is: if and only if every entry is paid.  And when any
    one customer of a date kept is changed to unpaid, the view is rendered
    again and the group of that customer's date and name has [allPaid]
    false. *)
Theorem allPaid_iff_every_entry_paid (dtf : Z -> string) (C : list Customer.t)
  (view : list Home.DateSection)
  (Ev : Home.dailyOperations dtf C = Some view) :
  map Home.dateKey view = shownDates dtf C
  /\ (forall c, In c C -> In (dateKeyOf dtf c) (shownDates dtf C) ->
        exists d g,
          In d view /\ Home.dateKey d = dateKeyOf dtf c
          /\ In g (Home.customerGroups d) /\ Group.name g = Customer.name c
          /\ In c (Group.entries g))
  /\ (forall d g,
        In d view -> In g (Home.customerGroups d) ->
        Group.entries g
        = withKey Customer.name (Group.name g)
                  (customersOfDate dtf (Home.dateKey d) C)
        /\ Group.entries g <> []
        /\ (Group.allPaid g = true
            <-> forall e, In e (Group.entries g) ->
                          Customer.paymentStatus e <> "unpaid")
        /\ (Forall validStatus (Group.entries g) ->
            (Group.allPaid g = true
             <-> forall e, In e (Group.entries g) ->
                           Customer.paymentStatus e = "paid")))
  /\ (forall C1 c C2,
        C = C1 ++ c :: C2 ->
        In (dateKeyOf dtf c) (shownDates dtf C) ->
        exists view',
          Home.dailyOperations dtf (C1 ++ markUnpaid c :: C2) = Some view'
          /\ map Home.dateKey view' = map Home.dateKey view
          /\ (exists d' g',
                In d' view' /\ Home.dateKey d' = dateKeyOf dtf c
                /\ In g' (Home.customerGroups d')
                /\ Group.name g' = Customer.name c
                /\ In (markUnpaid c) (Group.entries g'))
          /\ (forall d' g',
                In d' view' -> Home.dateKey d' = dateKeyOf dtf c ->
                In g' (Home.customerGroups d') ->
                Group.name g' = Customer.name c ->
                Group.allPaid g' = false)).
Proof.
  split; [exact (view_dates dtf C view Ev)|].
  split; [intros c Ic Ik; exact (customer_group dtf C view c Ev Ic Ik)|].
  split.
  - intros d g Id Ig.
    pose proof (section_group dtf C view d g Ev Id Ig) as Hg.
    split; [apply Hg|]. split; [apply Hg|].
    split; [exact (allPaid_no_unpaid _ _ _ Hg)|].
    intros V; rewrite (allPaid_no_unpaid _ _ _ Hg).
    rewrite Forall_forall in V.
    split; intros H e Ie; specialize (H e Ie).
    + destruct (V e Ie) as [P|U]; [exact P | contradiction].
    + rewrite H; discriminate.
  - intros C1 c C2 -> Ik.
    destruct (dailyOperations_noInherited dtf _ _ Ev) as [Hd Hn].
    set (C' := C1 ++ markUnpaid c :: C2).
    pose proof (shownDates_markUnpaid dtf C1 C2 c Hd) as S. fold C' in S.
    assert (Hd' : noInheritedKey (dateKeyOf dtf) C')
      by (apply noInheritedKey_markUnpaid; [reflexivity | exact Hd]).
    assert (Hn' : noInheritedKey Customer.name (shownCustomers dtf C')).
    { unfold noInheritedKey in *; rewrite Forall_forall in *.
      intros x Ix. apply shownCustomers_In in Ix; destruct Ix as [Ix Kx].
      rewrite S in Kx. unfold C' in Ix.
      apply in_app_or in Ix; destruct Ix as [Ix|[<-|Ix]].
      - apply Hn, shownCustomers_In; split; [|exact Kx].
        apply in_or_app; now left.
      - change (Customer.name (markUnpaid c)) with (Customer.name c).
        apply Hn, shownCustomers_In; split; [apply in_elt | exact Kx].
      - apply Hn, shownCustomers_In; split; [|exact Kx].
        apply in_or_app; right; now right. }
    destruct (dailyOperations_total dtf C' Hd' Hn') as [view' E'].
    assert (Ic : In (markUnpaid c) C') by (apply in_elt).
    assert (Ik' : In (dateKeyOf dtf (markUnpaid c)) (shownDates dtf C'))
      by (rewrite S; exact Ik).
    exists view'; split; [exact E'|]; split; [|split].
    + now rewrite (view_dates dtf _ _ E'), (view_dates dtf _ _ Ev).
    + destruct (customer_group dtf C' view' _ E' Ic Ik')
        as (d' & g' & H1 & H2 & H3 & H4 & H5).
      exists d', g'; auto.
    + intros d' g' Id Ek Ig En.
      pose proof (section_group dtf C' view' d' g' E' Id Ig) as Hg.
      destruct (Group.allPaid g') eqn:Ep; [|reflexivity].
      apply (allPaid_no_unpaid _ _ _ Hg) with (e := markUnpaid c) in Ep;
        [now contradiction Ep|].
      destruct Hg as (_ & -> & _).
      apply withKey_key; split; [|now rewrite En].
      apply withKey_key; split; [exact Ic | now rewrite Ek].
Qed.

(** ** The groups partition the customers *)

Lemma withKey_withKey_other {A : Type} (key : A -> string) (k k' : string) (l : list A) :
  k' <> k ->
  withKey key k' (filter (fun x => negb (String.eqb (key x) k)) l) = withKey key k' l.
Proof.
  intros N; unfold withKey; induction l as [|x l IH]; simpl; [reflexivity|].
  destruct (String.eqb (key x) k) eqn:E; simpl.
  - apply String.eqb_eq in E.
    replace (String.eqb (key x) k') with false; [exact IH|].
    symmetry; apply String.eqb_neq; congruence.
  - now rewrite IH.
Qed.

Lemma concat_withKey_perm {A : Type} (key : A -> string) (ks : list string) (l : list A) :
  NoDup ks -> (forall x, In x l -> In (key x) ks) ->
  Permutation (List.concat (map (fun k => withKey key k l) ks)) l.
Proof.
  intros ND; revert l; induction ND as [|k ks Hk ND IH]; intros l Hl.
  - destruct l as [|x l]; [reflexivity | destruct (Hl x (or_introl eq_refl))].
  - simpl.
    set (l' := filter (fun x => negb (String.eqb (key x) k)) l).
    assert (E : map (fun k' => withKey key k' l) ks
                = map (fun k' => withKey key k' l') ks).
    { apply map_ext_in; intros k' I; symmetry.
      apply withKey_withKey_other; intros ->; contradiction. }
    rewrite E, (IH l').
    + apply (filter_split_perm (fun x => String.eqb (key x) k) l).
    + intros x Ix; apply filter_In in Ix; destruct Ix as [Ix Nx].
      destruct (Hl x Ix) as [Ek|I]; [|exact I].
      simpl in Nx; rewrite Ek, String.eqb_refl in Nx; discriminate.
Qed.

(** The elements of the keys [ks], key by key, are the elements whose key
    is among [ks]. *)
Lemma concat_withKey_filter {A : Type} (key : A -> string) (ks : list string)
  (l : list A) :
  NoDup ks ->
  Permutation (List.concat (map (fun k => withKey key k l) ks))
              (filter (fun x => existsb (String.eqb (key x)) ks) l).
Proof.
  intros ND.
  set (l' := filter (fun x => existsb (String.eqb (key x)) ks) l).
  assert (E : map (fun k => withKey key k l) ks
              = map (fun k => withKey key k l') ks).
  { apply map_ext_in; intros k Ik. unfold withKey, l'.
    induction l as [|x l IH]; [reflexivity|]. simpl.
    destruct (String.eqb (key x) k) eqn:Ek.
    - apply String.eqb_eq in Ek.
      replace (existsb (String.eqb (key x)) ks) with true
        by (symmetry; apply existsb_eqb_In; now rewrite Ek).
      simpl. rewrite Ek, String.eqb_refl. now f_equal.
    - destruct (existsb (String.eqb (key x)) ks); [|exact IH].
      simpl. now rewrite Ek. }
  rewrite E. apply concat_withKey_perm; [exact ND|].
  intros x Ix. apply filter_In in Ix. now apply existsb_eqb_In.
Qed.

Lemma concat_perm {A : Type} (ls ls' : list (list A)) :
  Forall2 (@Permutation A) ls ls' ->
  Permutation (List.concat ls) (List.concat ls').
Proof.
  induction 1 as [|l l' ls ls' H _ IH]; simpl; [reflexivity|].
  now apply Permutation_app.
Qed.

Lemma concat_perm_outer {A : Type} (ls ls' : list (list A)) :
  Permutation ls ls' -> Permutation (List.concat ls) (List.concat ls').
Proof.
  induction 1 as [|l ls ls' _ IH|l1 l2 ls|ls1 ls2 ls3 _ IH1 _ IH2]; simpl.
  - reflexivity.
  - now apply Permutation_app_head.
  - rewrite !app_assoc; apply Permutation_app_tail, Permutation_app_comm.
  - now rewrite IH1.
Qed.

(** The entries of the groups of one date are the customers of the date. *)
Lemma groups_partition (cs : list Customer.t) (o : JsObject.t Group.t) :
  Home.groupedByName cs = Some o ->
  Permutation (List.concat (map Group.entries (JsObject.values o))) cs.
Proof.
  intros H; apply groupedByName_groups in H; destruct H as (ND & Go & Gc).
  rewrite (concat_perm_outer _ _ (Permutation_map Group.entries (values_perm o))).
  assert (E : map Group.entries (map snd o)
              = map (fun n => withKey Customer.name n cs) (map fst o)).
  { rewrite !map_map; apply map_ext_in; intros [n g] I; simpl.
    now destruct (Go n g I) as (_ & -> & _). }
  rewrite E; apply concat_withKey_perm; [exact ND|].
  intros c Ic; destruct (Gc c Ic) as [g Ig]; now apply (in_map fst) in Ig.
Qed.

Section Partition.
Variable dtf : Z -> string.

(** The entries of all the groups of all the sections of the view are the
    customers of the dates kept, each one once. *)
Lemma allEntries_perm (C : list Customer.t) (view : list Home.DateSection) :
  Home.dailyOperations dtf C = Some view ->
  Permutation (allEntries view) (shownCustomers dtf C).
Proof.
  intros H. pose proof (view_dates dtf C view H) as Ev.
  apply dailyOperations_inv in H; destruct H as (byDate & E & Ek & F).
  apply customersByDate_groups in E; destruct E as (ND & _ & Hc).
  unfold allEntries.
  transitivity (List.concat (map (fun k => withKey (dateKeyOf dtf) k C)
                                 (map Home.dateKey view))).
  - apply concat_perm; rewrite map_map. clear Ek Ev.
    induction F as [|d ds Hd _ IH]; simpl; [constructor|].
    constructor; [|exact IH].
    destruct Hd as (o & Eo & _ & -> & _); now apply groups_partition.
  - rewrite Ev. unfold shownCustomers, shown.
    apply concat_withKey_filter. rewrite <- Ev, Ek.
    unfold Home.recentDates.
    apply (NoDup_app_remove_r _ (skipn 3 (Home.sortedDates byDate))).
    rewrite firstn_skipn.
    apply (Permutation_NoDup (Permutation_sym (sortedDates_perm byDate)) ND).
Qed.

End Partition.

(** ** Sums of integers held in numbers *)

Lemma zsum_app (l l' : list Z) : zsum (l ++ l') = zsum l + zsum l'.
Proof. unfold zsum; induction l; simpl; lia. Qed.

Lemma zsum_concat {A : Type} (val : A -> Z) (ls : list (list A)) :
  zsum (map val (List.concat ls)) = zsum (map (fun l => zsum (map val l)) ls).
Proof.
  induction ls as [|l ls IH]; simpl; [reflexivity|].
  rewrite map_app, zsum_app, IH; reflexivity.
Qed.

Lemma zsum_perm (l l' : list Z) : Permutation l l' -> zsum l = zsum l'.
Proof. unfold zsum; induction 1; simpl; lia. Qed.

Lemma zsum_nonneg (l : list Z) : Forall (fun z => 0 <= z) l -> 0 <= zsum l.
Proof. unfold zsum; induction 1; simpl; lia. Qed.

Lemma zsum_In_le (l : list Z) (z : Z) :
  Forall (fun z => 0 <= z) l -> In z l -> z <= zsum l.
Proof.
  induction 1 as [|y l Hy Hl IH]; intros I; [destruct I|].
  pose proof (zsum_nonneg l Hl); unfold zsum in *; simpl.
  destruct I as [->|I]; [lia | specialize (IH I); lia].
Qed.

Lemma ofZ_zero : Js.ofZ 0 = Js.zero.
Proof. reflexivity. Qed.

(** A sum of numbers that hold non-negative integers is the integer sum, as
    long as that stays below 2^53. *)
Lemma fold_exact {X : Type} (num : X -> Js.number) (val : X -> Z) (l : list X) (acc : Z) :
  Forall (fun x => num x = Js.ofZ (val x) /\ 0 <= val x) l ->
  0 <= acc -> acc + zsum (map val l) < 2 ^ 53 ->
  fold_left (fun sum x => Js.add sum (num x)) l (Js.ofZ acc)
  = Js.ofZ (acc + zsum (map val l)).
Proof.
  intros H; revert acc; induction H as [|x l [Hx Hv] Hl IH]; intros acc Hacc Hlt.
  - unfold zsum; simpl; now rewrite Z.add_0_r.
  - assert (Ht : 0 <= zsum (map val l)).
    { apply zsum_nonneg, Forall_map.
      eapply Forall_impl; [|exact Hl]; simpl; intros ? [_ ?]; assumption. }
    unfold zsum in *; simpl in *.
    rewrite Hx, add_ofZ by lia.
    rewrite IH by lia. f_equal; lia.
Qed.

(** ** Whole-number amounts: the group totals add up to the revenue *)

Lemma amountsTotal_whole (l : list Customer.t) :
  amountsTotal l = wholeTotal (map Customer.amount l).
Proof. unfold amountsTotal, wholeTotal, amountValue; now rewrite map_map. Qed.

Lemma sumAmounts_whole (l : list Customer.t) :
  wholeAmounts l -> amountsTotal l < 2 ^ 53 ->
  sumAmounts (map Customer.amount l) = Js.ofZ (amountsTotal l).
Proof.
  intros H Hlt; rewrite amountsTotal_whole in *.
  unfold sumAmounts; change Js.zero with (Js.ofZ 0).
  rewrite fold_whole; [reflexivity | | lia | lia].
  apply Forall_map; exact H.
Qed.

Lemma amountValue_nonneg (l : list Customer.t) :
  wholeAmounts l -> Forall (fun z => 0 <= z) (map amountValue l).
Proof.
  intros H; apply Forall_map; eapply Forall_impl; [|exact H].
  intros c; apply wholeValue_nonneg.
Qed.

Lemma wholeAmounts_perm (l l' : list Customer.t) :
  Permutation l l' -> wholeAmounts l -> wholeAmounts l'.
Proof. intros P H; unfold wholeAmounts; now rewrite <- P. Qed.

Lemma amountsTotal_perm (l l' : list Customer.t) :
  Permutation l l' -> amountsTotal l = amountsTotal l'.
Proof. intros P; apply zsum_perm, Permutation_map, P. Qed.

Lemma amountsTotal_concat (ls : list (list Customer.t)) :
  amountsTotal (List.concat ls) = zsum (map amountsTotal ls).
Proof. apply zsum_concat. Qed.

Lemma wholeAmounts_concat (ls : list (list Customer.t)) :
  wholeAmounts (List.concat ls) <-> Forall wholeAmounts ls.
Proof.
  unfold wholeAmounts; induction ls as [|l ls IH]; simpl.
  - split; constructor.
  - rewrite Forall_app, IH; split.
    + intros [? ?]; now constructor.
    + intros H; now inversion H.
Qed.

Lemma amountsTotal_nonneg (l : list Customer.t) :
  wholeAmounts l -> 0 <= amountsTotal l.
Proof. intros H; apply zsum_nonneg, amountValue_nonneg, H. Qed.

(** The sum, folded from [0], of the totals of groups whose entries have
    whole-number amounts. *)
Lemma sum_group_totals_whole (gs : list Group.t) :
  Forall (fun g => Group.totalAmount g
                   = sumAmounts (map Customer.amount (Group.entries g))) gs ->
  wholeAmounts (List.concat (map Group.entries gs)) ->
  amountsTotal (List.concat (map Group.entries gs)) < 2 ^ 53 ->
  fold_left (fun s g => Js.add s (Group.totalAmount g)) gs Js.zero
  = Js.ofZ (amountsTotal (List.concat (map Group.entries gs))).
Proof.
  intros Ht Hw Hlt.
  rewrite amountsTotal_concat, map_map in *.
  apply wholeAmounts_concat in Hw; rewrite Forall_map in Hw.
  assert (Hnn : Forall (fun z => 0 <= z)
                       (map (fun g => amountsTotal (Group.entries g)) gs)).
  { apply Forall_map; eapply Forall_impl; [|exact Hw].
    intros g; apply amountsTotal_nonneg. }
  change Js.zero with (Js.ofZ 0).
  rewrite (fold_exact Group.totalAmount (fun g => amountsTotal (Group.entries g)));
    [reflexivity | | lia | lia].
  rewrite Forall_forall in *; intros g Ig; split.
  - rewrite (Ht g Ig); apply sumAmounts_whole; [now apply Hw|].
    assert (amountsTotal (Group.entries g)
            <= zsum (map (fun g => amountsTotal (Group.entries g)) gs)).
    { apply zsum_In_le; [now apply Forall_forall|].
      now apply (in_map (fun g => amountsTotal (Group.entries g))). }
    lia.
  - now apply amountsTotal_nonneg, Hw.
Qed.

(** The same one level up: the sum of the sums of the sections. *)
Lemma sumOfGroupTotals_whole (sections : list Home.DateSection) :
  Forall (fun d =>
            Forall (fun g => Group.totalAmount g
                             = sumAmounts (map Customer.amount (Group.entries g)))
                   (Home.customerGroups d)) sections ->
  wholeAmounts (allEntries sections) ->
  amountsTotal (allEntries sections) < 2 ^ 53 ->
  sumOfGroupTotals sections = Js.ofZ (amountsTotal (allEntries sections)).
Proof.
  intros Ht Hw Hlt; unfold allEntries in *.
  set (es := fun d => List.concat (map Group.entries (Home.customerGroups d))) in *.
  rewrite amountsTotal_concat, map_map in *.
  apply wholeAmounts_concat in Hw; rewrite Forall_map in Hw.
  assert (Hnn : Forall (fun z => 0 <= z) (map (fun d => amountsTotal (es d)) sections)).
  { apply Forall_map; eapply Forall_impl; [|exact Hw].
    intros d; apply amountsTotal_nonneg. }
  unfold sumOfGroupTotals; change Js.zero with (Js.ofZ 0) at 2.
  rewrite (fold_exact _ (fun d => amountsTotal (es d)));
    [reflexivity | | lia | lia].
  rewrite Forall_forall in *; intros d Id; split.
  - apply sum_group_totals_whole; [now apply Ht | now apply Hw |].
    assert (amountsTotal (es d) <= zsum (map (fun d => amountsTotal (es d)) sections)).
    { apply zsum_In_le; [now apply Forall_forall|].
      now apply (in_map (fun d => amountsTotal (es d))). }
    fold (es d); lia.
  - now apply amountsTotal_nonneg, Hw.
Qed.

(** C2, as the code has it.  The view groups the customers of the dates it
    keeps, the three most recent.  It is rendered exactly when no date key,
    and no name of a customer of a date kept, is the name of an inherited
    property.  The entries of all the name groups of all its date sections
    are the customers of the dates kept, each one once, and for whole-number
    amounts with a total below 2^53 the sum over the sections and their name
    groups of [totalAmount] is the total of those customers.  With at most
    three dates these are all the customers, and the sum equals
    [totalRevenue]; with more than three dates some customer is in no
    group. *)
Theorem grouping_lossless (dtf : Z -> string) (C : list Customer.t)
  (E : list Expense.t) :
  ((noInheritedKey (dateKeyOf dtf) C
    /\ noInheritedKey Customer.name (shownCustomers dtf C))
   <-> exists view, Home.dailyOperations dtf C = Some view)
  /\ (forall view,
        Home.dailyOperations dtf C = Some view ->
        map Home.dateKey view = shownDates dtf C
        /\ Permutation (allEntries view) (shownCustomers dtf C)
        /\ (wholeAmounts (shownCustomers dtf C) ->
            amountsTotal (shownCustomers dtf C) < 2 ^ 53 ->
            sumOfGroupTotals view
            = Js.ofZ (amountsTotal (shownCustomers dtf C)))
        /\ ((dateCount dtf C <= 3)%nat ->
            Permutation (allEntries view) C
            /\ (wholeAmounts C -> amountsTotal C < 2 ^ 53 ->
                sumOfGroupTotals view
                = Routes.totalRevenue (Routes.summaryOf C E)))
        /\ ((3 < dateCount dtf C)%nat ->
            exists c, In c C /\ ~ In c (allEntries view))).
Proof.
  split.
  - split.
    + intros [Hd Hn]; now apply dailyOperations_total.
    + intros [view Ev]; now apply (dailyOperations_noInherited dtf C view).
  - intros view Ev.
    pose proof (allEntries_perm dtf C view Ev) as P.
    assert (T : Forall (fun d =>
                  Forall (fun g => Group.totalAmount g
                                   = sumAmounts (map Customer.amount (Group.entries g)))
                         (Home.customerGroups d)) view).
    { rewrite Forall_forall; intros d Id; rewrite Forall_forall; intros g Ig.
      apply (section_group dtf C view d g Ev Id Ig). }
    assert (S : wholeAmounts (shownCustomers dtf C) ->
                amountsTotal (shownCustomers dtf C) < 2 ^ 53 ->
                sumOfGroupTotals view
                = Js.ofZ (amountsTotal (shownCustomers dtf C))).
    { intros Hw Hlt. rewrite <- (amountsTotal_perm _ _ P) in *.
      apply sumOfGroupTotals_whole;
        [exact T
        | apply (wholeAmounts_perm (shownCustomers dtf C));
          [now apply Permutation_sym | exact Hw]
        | exact Hlt]. }
    destruct (dailyOperations_inv dtf C view Ev) as (byDate & Eb & _).
    split; [exact (view_dates dtf C view Ev)|].
    split; [exact P|]. split; [exact S|]. split.
    + intros L. pose proof (shownCustomers_all dtf C byDate Eb L) as A.
      rewrite A in *. split; [exact P|].
      intros Hw Hlt. rewrite (S Hw Hlt).
      unfold Routes.summaryOf; cbn [Routes.totalRevenue].
      rewrite (fold_left_map_amount Customer.amount).
      fold (sumAmounts (map Customer.amount C)).
      now rewrite sumAmounts_whole.
    + intros L.
      destruct (shownCustomers_some_hidden dtf C byDate Eb L) as (c & Ic & Nc).
      exists c; split; [exact Ic|].
      intros H; apply Nc. exact (Permutation_in _ P H).
Qed.

(** ** The groups of the PDF report *)

Lemma fold_pdfAddEntry (es : list Customer.t) (g : PdfGroup.t) :
  let g' := fold_left Home.pdfAddEntry es g in
  PdfGroup.name g' = PdfGroup.name g
  /\ PdfGroup.goodsType g' = PdfGroup.goodsType g
  /\ PdfGroup.entries g' = PdfGroup.entries g ++ es
  /\ PdfGroup.totalAmount g'
     = fold_left (fun sum a => Js.add sum (Js.parseFloat a))
                 (map Customer.amount es) (PdfGroup.totalAmount g).
Proof.
  revert g; induction es as [|c es IH]; intros g; cbn zeta.
  - simpl; rewrite app_nil_r; repeat split.
  - cbn [fold_left map].
    destruct (IH (Home.pdfAddEntry g c)) as (H1 & H2 & H3 & H4).
    rewrite H1, H2, H3, H4; cbn [Home.pdfAddEntry PdfGroup.name
      PdfGroup.goodsType PdfGroup.entries PdfGroup.totalAmount].
    rewrite <- app_assoc; repeat split.
Qed.

Lemma groupedCustomers_groups (l : list Customer.t) (o : JsObject.t PdfGroup.t) :
  Home.groupedCustomers l = Some o ->
  NoDup (map fst o)
  /\ (forall n g, In (n, g) o ->
        PdfGroup.name g = n
        /\ PdfGroup.entries g = withKey Customer.name n l
        /\ PdfGroup.entries g <> []
        /\ PdfGroup.totalAmount g
           = sumAmounts (map Customer.amount (PdfGroup.entries g)))
  /\ (forall c, In c l -> exists g, In (Customer.name c, g) o).
Proof.
  unfold Home.groupedCustomers; rewrite pdfStep_shape; intros H.
  apply groupBy_groups in H; destruct H as [ND H]; split; [|split].
  - exact ND.
  - intros n g I; apply H, groupOf_Some in I; destruct I as (x & xs & E & ->).
    destruct (fold_pdfAddEntry (x :: xs) (Home.pdfNewGroup x)) as (H1 & H2 & H3 & H4).
    assert (Hx : Customer.name x = n).
    { apply (withKey_key Customer.name n l x); rewrite E; now left. }
    rewrite H1, H3, H4, E; cbn [Home.pdfNewGroup PdfGroup.name
      PdfGroup.entries PdfGroup.totalAmount app].
    repeat split; try assumption; discriminate.
  - intros c I.
    destruct (groupOf_occurs Customer.name Home.pdfNewGroup Home.pdfAddEntry l c I)
      as [g E].
    exists g; now apply H.
Qed.

(** ** Sums of amounts: exact on whole numbers, rounded on fractions *)

Lemma exactAmount_whole (a : string) :
  wholeNumber a = true -> exactAmount a = Some (inject_Z (wholeValue a)).
Proof.
  destruct a as [|c r]; [discriminate|]; intros H.
  unfold exactAmount, wholeValue. rewrite digits_all by exact H.
  cbn [String.length].
  replace (0 <? 0 + Z.of_nat (S (String.length r))) with true; [reflexivity|].
  symmetry; apply Z.ltb_lt; lia.
Qed.

Lemma exactSum_whole (amounts : list string) :
  Forall (fun a => wholeNumber a = true) amounts ->
  exists e, exactSum amounts = Some e /\ (e == inject_Z (wholeTotal amounts))%Q.
Proof.
  induction 1 as [|a l Ha Hl [e [He Hq]]]; simpl.
  - exists 0%Q; split; reflexivity.
  - rewrite (exactAmount_whole a Ha), He.
    exists (inject_Z (wholeValue a) + e)%Q; split; [reflexivity|].
    unfold wholeTotal in *; simpl. rewrite inject_Z_plus, Hq; reflexivity.
Qed.

Lemma toQ_ofZ (n : Z) :
  0 <= n < 2 ^ 53 -> exists q, Js.toQ (Js.ofZ n) = Some q /\ (q == inject_Z n)%Q.
Proof.
  intros [H0 Hn]. destruct n as [|p|p]; [exists 0%Q; split; reflexivity| |lia].
  pose proof (digits2_le_53 p Hn) as Hd.
  rewrite ofZ_pos by exact Hn. unfold Js.toQ.
  set (d := Zpos (digits2_pos p)) in *.
  assert (Pp : 0 < Zpos p * 2 ^ (53 - d))
    by (apply Z.mul_pos_pos; [lia | apply Z.pow_pos_nonneg; lia]).
  rewrite Z2Pos.id by exact Pp.
  eexists; split; [reflexivity|].
  destruct (0 <=? d - 53) eqn:E.
  - apply Z.leb_le in E. replace d with 53 by lia.
    replace (Zpos p * 2 ^ (53 - 53) * 2 ^ (53 - 53)) with (Zpos p) by (simpl; lia).
    reflexivity.
  - replace (- (d - 53)) with (53 - d) by lia.
    unfold Qeq; cbn [Qnum Qden inject_Z].
    rewrite Z2Pos.id by (apply Z.pow_pos_nonneg; lia). lia.
Qed.

(** C3, as the code has it.  The aggregation sums ([totalRevenue],
    [totalExpenses], the [totalAmount] of every name group of the view and
    of every group of the PDF report) are sums of numbers: the amounts
    parsed by [parseFloat] and added from [0], in order.  For amounts that
    are whole numbers with a total below 2^53 the computed sum is the exact
    sum. *)
Theorem sums_exact_on_whole_amounts (dtf : Z -> string)
  (C : list Customer.t) (E : list Expense.t) :
  (forall amounts,
     Forall (fun a => wholeNumber a = true) amounts ->
     wholeTotal amounts < 2 ^ 53 ->
     sumAmounts amounts = Js.ofZ (wholeTotal amounts) /\ sumIsExact amounts)
  /\ Routes.totalRevenue (Routes.summaryOf C E)
     = sumAmounts (map Customer.amount C)
  /\ Routes.totalExpenses (Routes.summaryOf C E)
     = sumAmounts (map Expense.amount E)
  /\ (forall view d g,
        Home.dailyOperations dtf C = Some view ->
        In d view -> In g (Home.customerGroups d) ->
        Group.totalAmount g
        = sumAmounts (map Customer.amount (Group.entries g)))
  /\ (forall groups g,
        Home.pdfGroups C = Some groups -> In g groups ->
        PdfGroup.totalAmount g
        = sumAmounts (map Customer.amount (PdfGroup.entries g))).
Proof.
  split; [|split; [|split; [|split]]].
  - intros amounts Hw Hlt.
    pose proof (wholeTotal_nonneg amounts Hw) as H0.
    assert (Es : sumAmounts amounts = Js.ofZ (wholeTotal amounts)).
    { unfold sumAmounts; change Js.zero with (Js.ofZ 0).
      rewrite fold_whole; [reflexivity | exact Hw | lia | lia]. }
    split; [exact Es|].
    destruct (toQ_ofZ (wholeTotal amounts)) as (q & Hq & Eq); [lia|].
    destruct (exactSum_whole amounts Hw) as (e & He & Ee).
    exists q, e; rewrite Es; repeat split; try assumption.
    now rewrite Eq, Ee.
  - unfold Routes.summaryOf; cbn [Routes.totalRevenue].
    now rewrite (fold_left_map_amount Customer.amount).
  - unfold Routes.summaryOf; cbn [Routes.totalExpenses].
    now rewrite (fold_left_map_amount Expense.amount).
  - intros view d g Hs Id Ig.
    apply (section_group dtf C view d g Hs Id Ig).
  - intros groups g Hg Ig. unfold Home.pdfGroups in Hg.
    destruct (Home.groupedCustomers C) as [o|] eqn:Eo; [|discriminate].
    cbn [option_map] in Hg. injection Hg as <-.
    destruct (in_values_obj o g Ig) as [n In'].
    destruct (groupedCustomers_groups C o Eo) as (_ & Go & _).
    now destruct (Go n g In') as (_ & _ & _ & Et).
Qed.

(** C3, the claim as stated, fails on amounts with one fractional digit:
    the computed sum of 0.1 and 0.2 is not the exact sum 3/10, nor the
    number nearest to it. *)
Lemma sum_of_tenths_inexact :
  Forall (fun a => fractionDigits a <= 2) ["0.1"; "0.2"]
  /\ exactSum ["0.1"; "0.2"] = Some ((1 # 10) + ((2 # 10) + 0))%Q
  /\ ~ sumIsExact ["0.1"; "0.2"]
  /\ sumAmounts ["0.1"; "0.2"] <> Js.parseFloat "0.3".
Proof.
  split; [|split; [|split]].
  - repeat constructor; vm_compute; discriminate.
  - vm_compute; reflexivity.
  - intros (q & e & Hq & He & Heq).
    vm_compute in Hq, He.
    injection Hq as <-; injection He as <-.
    vm_compute in Heq; discriminate Heq.
  - vm_compute; discriminate.
Qed.

(** C2, the claim as stated, fails in two ways.  On amounts with one
    fractional digit: on one day, with customer A at 1.1 and 3.3 and
    customer B at 2.2, the group totals 4.4 and 2.2 of the view add up to
    6.6000000000000005 while the revenue is 6.6; nor is the exact sum of the
    two group totals the revenue.  And on whole amounts over four days: the
    view keeps three days, the customer of the fourth is in no group, and
    the group totals add up to 200 while the revenue is 300. *)
Lemma grouping_sum_differs :
  (exists view,
     Home.dailyOperations EnGB.format Ex.tenths = Some view
     /\ map Home.dateKey view = ["02/11/2024"]
     /\ sumOfGroupTotals view
        <> Routes.totalRevenue (Routes.summaryOf Ex.tenths [])
     /\ Js.strictEq (sumOfGroupTotals view)
                    (Routes.totalRevenue (Routes.summaryOf Ex.tenths [])) = false
     /\ (forall q r,
           exactSumOfGroupTotals view = Some q ->
           Js.toQ (Routes.totalRevenue (Routes.summaryOf Ex.tenths [])) = Some r ->
           ~ (q == r)%Q))
  /\ (exists view,
        Home.dailyOperations EnGB.format Ex.fourDays = Some view
        /\ map Home.dateKey view = ["05/11/2024"; "04/11/2024"; "03/11/2024"]
        /\ map Customer.id (allEntries view) = [5; 4; 3; 2]
        /\ map Customer.id Ex.fourDays = [5; 4; 3; 2; 1]
        /\ sumOfGroupTotals view = Js.ofZ 200
        /\ Routes.totalRevenue (Routes.summaryOf Ex.fourDays []) = Js.ofZ 300
        /\ Js.strictEq (sumOfGroupTotals view)
                       (Routes.totalRevenue (Routes.summaryOf Ex.fourDays []))
           = false).
Proof.
  split.
  - eexists; split; [vm_compute; reflexivity|].
    split; [reflexivity|]; split; [vm_compute; discriminate|].
    split; [vm_compute; reflexivity|].
    intros q r Hq Hr Heq.
    vm_compute in Hq, Hr. injection Hq as <-; injection Hr as <-.
    vm_compute in Heq; discriminate Heq.
  - eexists; split; [vm_compute; reflexivity|].
    repeat split; vm_compute; reflexivity.
Qed.

(** ** The groups of the report and of the view *)

(** C5, as the code has it.  The grouping of the PDF report is produced
    exactly when no customer name is the name of an inherited property, and
    it is by customer name alone, over all dates: a group holds all the
    customers of its name, in order, and two customers are in one group
    exactly when they have the same name, whatever their days of creation.
    In the daily-operations view, two customers are in one group exactly
    when they have the same date key and the same name. *)
Theorem pdf_groups_by_name_only (dtf : Z -> string) (C : list Customer.t) :
  ((exists groups, Home.pdfGroups C = Some groups)
   <-> noInheritedKey Customer.name C)
  /\ (forall groups,
        Home.pdfGroups C = Some groups ->
        (forall g, In g groups ->
           PdfGroup.entries g = withKey Customer.name (PdfGroup.name g) C
           /\ PdfGroup.entries g <> [])
        /\ (forall c, In c C ->
              exists g, In g groups /\ PdfGroup.name g = Customer.name c
                        /\ In c (PdfGroup.entries g))
        /\ (forall g c1 c2,
              In g groups -> In c1 (PdfGroup.entries g) -> In c2 C ->
              (In c2 (PdfGroup.entries g)
               <-> Customer.name c2 = Customer.name c1)))
  /\ (forall view d g c1 c2,
        Home.dailyOperations dtf C = Some view ->
        In d view -> In g (Home.customerGroups d) ->
        In c1 (Group.entries g) -> In c2 C ->
        (In c2 (Group.entries g)
         <-> dateKeyOf dtf c2 = dateKeyOf dtf c1
             /\ Customer.name c2 = Customer.name c1)).
Proof.
  split; [|split].
  - unfold Home.pdfGroups, Home.groupedCustomers; rewrite pdfStep_shape. split.
    + intros [groups E].
      destruct (Js.reduce _ C JsObject.empty) as [o|] eqn:Eo; [|discriminate].
      exact (groupBy_noInherited _ _ _ _ _ Eo).
    + intros Hn.
      destruct (groupBy_total Customer.name Home.pdfNewGroup Home.pdfAddEntry C Hn)
        as [o E].
      rewrite E; cbn [option_map]; eauto.
  - intros groups Eg. unfold Home.pdfGroups in Eg.
    destruct (Home.groupedCustomers C) as [o|] eqn:E; [|discriminate].
    cbn [option_map] in Eg. injection Eg as <-.
    apply groupedCustomers_groups in E; destruct E as (ND & Go & Gc).
    split; [|split].
    + intros g I; destruct (in_values_obj o g I) as [n In'].
      destruct (Go n g In') as (En & Ee & Ene & _); rewrite En; auto.
    + intros c Ic; destruct (Gc c Ic) as [g Ig].
      destruct (Go _ g Ig) as (En & Ee & _).
      exists g; split; [|split; [exact En|]].
      * apply (Permutation_in _ (Permutation_sym (values_perm o))).
        now apply (in_map snd) in Ig.
      * rewrite Ee; apply withKey_key; auto.
    + intros g c1 c2 Ig I1 I2; destruct (in_values_obj o g Ig) as [n In'].
      destruct (Go n g In') as (En & Ee & _).
      rewrite Ee in *; apply withKey_key in I1; destruct I1 as [_ E1].
      rewrite withKey_key, E1; tauto.
  - intros view d g c1 c2 Ev Id Ig I1 I2.
    destruct (section_group dtf C view d g Ev Id Ig) as (_ & Ee & _).
    rewrite Ee in *.
    apply withKey_key in I1; destruct I1 as [I1 N1].
    apply withKey_key in I1; destruct I1 as [_ K1].
    unfold customersOfDate. rewrite !withKey_key, N1, K1. tauto.
Qed.

(** C5, the claim as stated, fails: in the report two transactions of
    customer A created on different days are in one group, the only one;
    the daily-operations view has them in the groups of two dates. *)
Lemma pdf_groups_across_days :
  exists c1 c2 g,
    Ex.twoDays = [c1; c2]
    /\ Customer.name c1 = Customer.name c2
    /\ dateKeyOf EnGB.format c1 = "03/11/2024"
    /\ dateKeyOf EnGB.format c2 = "02/11/2024"
    /\ Home.pdfGroups Ex.twoDays = Some [g]
    /\ PdfGroup.entries g = [c1; c2]
    /\ option_map (map (fun d => map Group.entries (Home.customerGroups d)))
                  (Home.dailyOperations EnGB.format Ex.twoDays)
       = Some [[[c1]]; [[c2]]].
Proof.
  do 3 eexists; repeat split; vm_compute; reflexivity.
Qed.

(** ** Sorting by a time, most recent first *)

Section SortDesc.
Context {A : Type} (f : A -> Z).

Let desc (a b : A) : Prop := f b <= f a.

Lemma insert_desc (x : A) (l : list A) :
  StronglySorted desc l ->
  StronglySorted desc (Js.insert (fun a b => f b - f a) x l).
Proof.
  induction 1 as [|y l Hl IH Hy]; simpl.
  - repeat constructor.
  - destruct (f y - f x <=? 0) eqn:E.
    + apply Z.leb_le in E. constructor; [now constructor|].
      constructor; [unfold desc; lia|].
      rewrite Forall_forall in *; intros z Iz; specialize (Hy z Iz).
      unfold desc in *; lia.
    + apply Z.leb_gt in E. constructor; [exact IH|].
      rewrite Forall_forall in *; intros z Iz.
      apply (Permutation_in _ (insert_perm _ x l)) in Iz.
      destruct Iz as [<-|Iz]; [unfold desc; lia | now apply Hy].
Qed.

Lemma sort_desc (l : list A) :
  StronglySorted desc (Js.sort (fun a b => f b - f a) l).
Proof.
  induction l as [|x l IH]; simpl; [constructor | now apply insert_desc].
Qed.

End SortDesc.

Lemma StronglySorted_strengthen {A : Type} (R S : A -> A -> Prop) (l : list A) :
  (forall a b, In a l -> In b l -> a <> b -> R a b -> S a b) ->
  NoDup l -> StronglySorted R l -> StronglySorted S l.
Proof.
  intros H ND HS; induction HS as [|x l Hl IH Hx]; [constructor|].
  inversion ND as [|? ? Nx ND']; subst.
  constructor.
  - apply IH; [|exact ND']. intros a b Ia Ib; apply H; now right.
  - rewrite Forall_forall in *; intros y Iy.
    apply H; [now left | now right | intros ->; contradiction | now apply Hx].
Qed.

Lemma StronglySorted_firstn_skipn {A : Type} (R : A -> A -> Prop) (l : list A)
  (n : nat) (a b : A) :
  StronglySorted R l -> In a (firstn n l) -> In b (skipn n l) -> R a b.
Proof.
  intros HS; revert n; induction HS as [|x l Hl IH Hx]; intros n Ia Ib.
  - destruct n; destruct Ia.
  - destruct n as [|n]; [destruct Ia|]. simpl in Ia, Ib.
    destruct Ia as [<-|Ia]; [|now apply (IH n)].
    rewrite Forall_forall in Hx; apply Hx.
    rewrite <- (firstn_skipn n l); apply in_or_app; now right.
Qed.

Section RecentDates.
Variable dtf : Z -> string.

(** The time by which a date is sorted is that of one of its customers. *)
Lemma firstCreatedAt_customer (C : list Customer.t)
  (byDate : JsObject.t (list Customer.t)) (k : string) :
  Home.customersByDate dtf C = Some byDate -> In k (map fst byDate) ->
  exists c, In c C /\ dateKeyOf dtf c = k
            /\ Home.firstCreatedAt byDate k = Customer.createdAt c.
Proof.
  intros E Ik; apply customersByDate_groups in E; destruct E as (ND & Hcs & _).
  apply in_map_iff in Ik; destruct Ik as [[k' cs] [<- I]]; simpl.
  unfold Home.firstCreatedAt; rewrite (oIn_get _ _ _ ND I).
  destruct (Hcs _ _ I) as [E Hne].
  destruct cs as [|c cs]; [congruence|].
  exists c; split; [|split; [|reflexivity]].
  - assert (Ic : In c (customersOfDate dtf k' C)) by (rewrite <- E; now left).
    now apply withKey_key in Ic.
  - assert (Ic : In c (customersOfDate dtf k' C)) by (rewrite <- E; now left).
    now apply withKey_key in Ic.
Qed.

(** Days are ordered as their customers are. *)
Lemma calendarDays_moreRecent (C : list Customer.t) (p q : Customer.t) :
  calendarDays dtf C -> In p C -> In q C ->
  dateKeyOf dtf p <> dateKeyOf dtf q ->
  Customer.createdAt q <= Customer.createdAt p ->
  moreRecent dtf C (dateKeyOf dtf p) (dateKeyOf dtf q).
Proof.
  intros Cal Ip Iq N Le c c' Ic Ic' Ek Ek'.
  destruct (Z.lt_ge_cases (Customer.createdAt c') (Customer.createdAt c))
    as [Lt|Ge]; [exact Lt|exfalso].
  assert (Ne : Customer.createdAt q <> Customer.createdAt p).
  { intros Eq; apply N; unfold dateKeyOf, Home.formatDate; now rewrite Eq. }
  destruct (Z.le_gt_cases (Customer.createdAt c') (Customer.createdAt p)) as [L|G].
  - (* c <= c' <= p: c' has the date of c and p *)
    apply N. rewrite <- Ek', <- Ek. symmetry.
    apply (Cal c c' p); [assumption.. | lia | congruence].
  - (* q < p < c': p has the date of q and c' *)
    apply N. apply (Cal q p c'); [assumption.. | lia | congruence].
Qed.

End RecentDates.

(** C8.  For every customer list whose date keys are calendar days, the
    date partitions are ordered by descending date, most recent first, and
    the daily-operations view retains the first three of them: it shows
    those and no other, and every partition it omits is older than every
    partition it retains. *)
Theorem recentDates_three_most_recent (dtf : Z -> string) (C : list Customer.t)
  (Hd : noInheritedKey (dateKeyOf dtf) C)
  (Cal : calendarDays dtf C) :
  exists byDate,
    Home.customersByDate dtf C = Some byDate
    /\ Home.recentDates byDate = firstn 3 (Home.sortedDates byDate)
    /\ NoDup (Home.sortedDates byDate)
    /\ (forall k, In k (Home.sortedDates byDate)
                  <-> exists c, In c C /\ dateKeyOf dtf c = k)
    /\ StronglySorted (moreRecent dtf C) (Home.sortedDates byDate)
    /\ List.length (Home.recentDates byDate)
       = Nat.min 3 (List.length (Home.sortedDates byDate))
    /\ (forall k k', In k (Home.recentDates byDate) ->
                     In k' (Home.sortedDates byDate) ->
                     ~ In k' (Home.recentDates byDate) ->
                     moreRecent dtf C k k')
    /\ (forall view, Home.dailyOperations dtf C = Some view ->
                     map Home.dateKey view = Home.recentDates byDate)
    /\ (noInheritedKey Customer.name C ->
        exists view, Home.dailyOperations dtf C = Some view).
Proof.
  destruct (customersByDate_total dtf C Hd) as [byDate E].
  exists byDate.
  pose proof (customersByDate_groups dtf C byDate E) as (ND & Hcs & Hc).
  assert (NDs : NoDup (Home.sortedDates byDate))
    by (apply (Permutation_NoDup (Permutation_sym (sortedDates_perm byDate)) ND)).
  assert (Keys : forall k, In k (Home.sortedDates byDate) <-> In k (map fst byDate)).
  { intros k; split; apply Permutation_in;
      [apply sortedDates_perm | apply Permutation_sym, sortedDates_perm]. }
  assert (Sorted : StronglySorted (moreRecent dtf C) (Home.sortedDates byDate)).
  { apply (StronglySorted_strengthen
             (fun a b => Home.firstCreatedAt byDate b <= Home.firstCreatedAt byDate a));
      [|exact NDs | apply sort_desc].
    intros k k' Ik Ik' N Le.
    apply Keys in Ik, Ik'.
    destruct (firstCreatedAt_customer dtf C byDate k E Ik) as (p & Ip & Ep & Tp).
    destruct (firstCreatedAt_customer dtf C byDate k' E Ik') as (q & Iq & Eq & Tq).
    rewrite Tp, Tq in Le; subst k k'.
    now apply calendarDays_moreRecent. }
  split; [exact E|].
  split; [reflexivity|].
  split; [exact NDs|].
  split.
  { intros k; split.
    - intros Ik; apply Keys, in_map_iff in Ik; destruct Ik as [[k' cs] [<- I]].
      destruct (Hcs _ _ I) as [Ecs Hne].
      destruct cs as [|c cs]; [congruence|]; exists c.
      assert (Ic : In c (customersOfDate dtf k' C)) by (rewrite <- Ecs; now left).
      now apply withKey_key in Ic.
    - intros (c & Ic & <-); apply Keys. exact (in_map fst _ _ (Hc c Ic)). }
  split; [exact Sorted|].
  split; [unfold Home.recentDates; apply length_firstn|].
  split.
  { intros k k' Ik Ik' Nk'.
    apply (StronglySorted_firstn_skipn _ (Home.sortedDates byDate) 3); auto.
    rewrite <- (firstn_skipn 3 (Home.sortedDates byDate)) in Ik'.
    apply in_app_or in Ik'; destruct Ik' as [I|I]; [contradiction | exact I]. }
  split.
  - intros view Ev. unfold Home.dailyOperations in Ev.
    destruct C as [|c C'].
    + injection Ev as <-. simpl in E; injection E as <-. reflexivity.
    + rewrite E in Ev. apply renderDates_Forall2 in Ev.
      induction Ev as [|k d ks ds Hk _ IH]; simpl; [reflexivity|].
      apply renderDate_inv in Hk; destruct Hk as (_ & _ & _ & _ & -> & _).
      now rewrite IH.
  - intros Hn.
    apply dailyOperations_total; [exact Hd | now apply shownCustomers_incl].
Qed.

(** ** The en-GB format in UTC *)

Section EnGBFacts.

Lemma civil_roundtrip (z : Z) : EnGB.daysFromCivil (EnGB.civilFromDays z) = z.
Proof.
  unfold EnGB.civilFromDays, EnGB.daysFromCivil.
  set (era := (z + 719468) / 146097).
  set (doe := z + 719468 - era * 146097).
  assert (Hdoe : 0 <= doe < 146097) by (subst doe era; Z.div_mod_to_equations; lia).
  assert (Hz : z = era * 146097 + doe - 719468) by (subst doe; lia).
  clearbody doe; clearbody era.
  set (yoe := (doe - doe / 1460 + doe / 36524 - doe / 146096) / 365).
  assert (Hyoe : 0 <= yoe <= 399) by (subst yoe; Z.div_mod_to_equations; lia).
  set (doy := doe - (365 * yoe + yoe / 4 - yoe / 100)).
  assert (Hdoy : 0 <= doy <= 365) by (subst doy yoe; Z.div_mod_to_equations; lia).
  set (mp := (5 * doy + 2) / 153).
  assert (Hmp : 0 <= mp <= 11) by (subst mp; Z.div_mod_to_equations; lia).
  set (d := doy - (153 * mp + 2) / 5 + 1).
  destruct (mp <? 10) eqn:E1; [apply Z.ltb_lt in E1 | apply Z.ltb_ge in E1].
  - replace (mp + 3 <=? 2) with false by (symmetry; apply Z.leb_gt; lia).
    replace (2 <? mp + 3) with true by (symmetry; apply Z.ltb_lt; lia).
    replace ((yoe + era * 400) / 400) with era by (Z.div_mod_to_equations; lia).
    replace (mp + 3 - 3) with mp by lia.
    replace (yoe + era * 400 - era * 400) with yoe by lia.
    subst d doy; lia.
  - replace (mp - 9 <=? 2) with true by (symmetry; apply Z.leb_le; lia).
    replace (2 <? mp - 9) with false by (symmetry; apply Z.ltb_ge; lia).
    replace ((yoe + era * 400 + 1 - 1) / 400) with era by (Z.div_mod_to_equations; lia).
    replace (mp - 9 + 9) with mp by lia.
    replace (yoe + era * 400 + 1 - 1 - era * 400) with yoe by lia.
    subst d doy; lia.
Qed.

Lemma civil_bounds (z : Z) :
  0 <= z <= 100000000 ->
  let '(y, m, d) := EnGB.civilFromDays z in
  1970 <= y < 10000000 /\ 1 <= m <= 12 /\ 1 <= d <= 31.
Proof.
  intros Hz; unfold EnGB.civilFromDays.
  set (era := (z + 719468) / 146097).
  assert (Hera : 4 <= era <= 690) by (subst era; Z.div_mod_to_equations; lia).
  set (doe := z + 719468 - era * 146097).
  assert (Hdoe : 0 <= doe < 146097) by (subst doe era; Z.div_mod_to_equations; lia).
  assert (Hz' : era = 4 -> 135080 <= doe) by (subst doe; lia).
  clearbody doe; clearbody era.
  set (yoe := (doe - doe / 1460 + doe / 36524 - doe / 146096) / 365).
  assert (Hyoe : 0 <= yoe <= 399) by (subst yoe; Z.div_mod_to_equations; lia).
  assert (Hy' : era = 4 -> 369 <= yoe)
    by (intros; subst yoe; Z.div_mod_to_equations; lia).
  set (doy := doe - (365 * yoe + yoe / 4 - yoe / 100)).
  assert (Hdoy : 0 <= doy <= 365) by (subst doy yoe; Z.div_mod_to_equations; lia).
  assert (Hdoy' : era = 4 -> yoe = 369 -> 306 <= doy)
    by (intros; subst doy yoe; Z.div_mod_to_equations; lia).
  set (mp := (5 * doy + 2) / 153).
  assert (Hmp : 0 <= mp <= 11) by (subst mp; Z.div_mod_to_equations; lia).
  assert (Hmp' : 306 <= doy -> 10 <= mp)
    by (intros; subst mp; Z.div_mod_to_equations; lia).
  assert (Hd : 1 <= doy - (153 * mp + 2) / 5 + 1 <= 31)
    by (subst mp; Z.div_mod_to_equations; lia).
  destruct (mp <? 10) eqn:E1; [apply Z.ltb_lt in E1 | apply Z.ltb_ge in E1].
  - replace (mp + 3 <=? 2) with false by (symmetry; apply Z.leb_gt; lia).
    repeat split; try lia.
  - replace (mp - 9 <=? 2) with true by (symmetry; apply Z.leb_le; lia).
    repeat split; try lia.
Qed.

Lemma code_digitChar (n : Z) : Js.code (EnGB.digitChar n) = 48 + n mod 10.
Proof.
  unfold Js.code, EnGB.digitChar.
  pose proof (Z.mod_pos_bound n 10 ltac:(lia)) as B.
  rewrite N_ascii_embedding by lia.
  apply Z2N.id; lia.
Qed.

Lemma twoDigits_value (n : Z) : 0 <= n < 100 -> wholeValue (EnGB.twoDigits n) = n.
Proof.
  intros H; unfold wholeValue, EnGB.twoDigits; cbn [digitsValue].
  rewrite !code_digitChar. Z.div_mod_to_equations; lia.
Qed.

Lemma digitsValue_acc (s : string) (a : Z) :
  digitsValue s a = a * 10 ^ Z.of_nat (String.length s) + digitsValue s 0.
Proof.
  revert a; induction s as [|c s IH]; intros a; cbn [digitsValue String.length].
  - simpl; lia.
  - rewrite IH, (IH (10 * 0 + _)), Nat2Z.inj_succ, Z.pow_succ_r by lia. lia.
Qed.

Lemma decimalDigits_value (fuel : nat) (n : Z) (acc : string) :
  0 <= n < 10 ^ Z.of_nat fuel ->
  digitsValue (EnGB.decimalDigits fuel n acc) 0
  = n * 10 ^ Z.of_nat (String.length acc) + digitsValue acc 0.
Proof.
  revert n acc; induction fuel as [|fuel IH]; intros n acc H.
  - simpl in H; replace n with 0 by lia; simpl; lia.
  - cbn [EnGB.decimalDigits].
    destruct (n <? 10) eqn:E; [apply Z.ltb_lt in E | apply Z.ltb_ge in E].
    + cbn [digitsValue]. rewrite digitsValue_acc, code_digitChar.
      rewrite Z.mod_small by lia. lia.
    + rewrite Nat2Z.inj_succ, Z.pow_succ_r in H by lia.
      rewrite IH by (Z.div_mod_to_equations; lia).
      cbn [digitsValue String.length].
      rewrite (digitsValue_acc acc), code_digitChar, Nat2Z.inj_succ, Z.pow_succ_r by lia.
      Z.div_mod_to_equations; lia.
Qed.

(** The format shows the civil date: two dates printed alike are one. *)
Lemma render_inj (y1 m1 d1 y2 m2 d2 : Z) :
  0 <= d1 < 100 -> 0 <= m1 < 100 -> 0 <= y1 < 10000000 ->
  0 <= d2 < 100 -> 0 <= m2 < 100 -> 0 <= y2 < 10000000 ->
  (EnGB.twoDigits d1 ++ "/" ++ EnGB.twoDigits m1 ++ "/"
     ++ EnGB.decimalDigits 7 y1 "")%string
  = (EnGB.twoDigits d2 ++ "/" ++ EnGB.twoDigits m2 ++ "/"
       ++ EnGB.decimalDigits 7 y2 "")%string ->
  (y1, m1, d1) = (y2, m2, d2).
Proof.
  intros Hd1 Hm1 Hy1 Hd2 Hm2 Hy2 H.
  pose proof (twoDigits_value d1 Hd1) as Vd1. pose proof (twoDigits_value d2 Hd2) as Vd2.
  pose proof (twoDigits_value m1 Hm1) as Vm1. pose proof (twoDigits_value m2 Hm2) as Vm2.
  pose proof (decimalDigits_value 7 y1 "" Hy1) as Vy1.
  pose proof (decimalDigits_value 7 y2 "" Hy2) as Vy2.
  remember (EnGB.decimalDigits 7 y1 "") as s1 eqn:E1.
  remember (EnGB.decimalDigits 7 y2 "") as s2 eqn:E2.
  unfold EnGB.twoDigits in *; cbn [append] in H.
  injection H as A1 A2 A3 A4 A5.
  rewrite A1, A2, Vd2 in Vd1. rewrite A3, A4, Vm2 in Vm1. rewrite A5, Vy2 in Vy1.
  cbn [String.length digitsValue Z.of_nat] in Vy1.
  rewrite Z.pow_0_r in Vy1. f_equal; [f_equal|]; lia.
Qed.

(** Two times with the same date key are of the same day. *)
Lemma format_day (t1 t2 : Z) :
  EnGB.validTime t1 -> EnGB.validTime t2 ->
  EnGB.format t1 = EnGB.format t2 -> t1 / EnGB.msPerDay = t2 / EnGB.msPerDay.
Proof.
  unfold EnGB.validTime; intros H1 H2 E. unfold EnGB.format in E.
  assert (B1 : 0 <= t1 / EnGB.msPerDay <= 100000000)
    by (unfold EnGB.msPerDay, EnGB.maxTime in *; Z.div_mod_to_equations; lia).
  assert (B2 : 0 <= t2 / EnGB.msPerDay <= 100000000)
    by (unfold EnGB.msPerDay, EnGB.maxTime in *; Z.div_mod_to_equations; lia).
  pose proof (civil_bounds _ B1) as C1. pose proof (civil_bounds _ B2) as C2.
  rewrite <- (civil_roundtrip (t1 / EnGB.msPerDay)),
          <- (civil_roundtrip (t2 / EnGB.msPerDay)).
  destruct (EnGB.civilFromDays (t1 / EnGB.msPerDay)) as [[y1 m1] d1].
  destruct (EnGB.civilFromDays (t2 / EnGB.msPerDay)) as [[y2 m2] d2].
  f_equal; apply render_inj; try lia; exact E.
Qed.

(** Its date keys are calendar days... *)
Lemma enGB_calendarDays (C : list Customer.t) :
  Forall (fun c => EnGB.validTime (Customer.createdAt c)) C ->
  calendarDays EnGB.format C.
Proof.
  intros H a b c Ia Ib Ic [L1 L2] E.
  rewrite Forall_forall in H.
  pose proof (H a Ia) as Ha. pose proof (H b Ib) as Hb. pose proof (H c Ic) as Hc.
  apply format_day in E; [|assumption..].
  unfold dateKeyOf, Home.formatDate, EnGB.format.
  replace (Customer.createdAt b / EnGB.msPerDay)
    with (Customer.createdAt a / EnGB.msPerDay); [reflexivity|].
  unfold EnGB.msPerDay in *; Z.div_mod_to_equations; lia.
Qed.

(** ... and none is the name of an inherited property. *)
Lemma format_not_inherited (t : Z) : JsObject.inherited (EnGB.format t) = false.
Proof.
  unfold EnGB.format.
  destruct (EnGB.civilFromDays (t / EnGB.msPerDay)) as [[y m] d].
  unfold EnGB.twoDigits; cbn [append].
  unfold JsObject.inherited, JsObject.prototypeKeys; cbn [existsb].
  repeat (rewrite (proj2 (String.eqb_neq _ _)) by (intros H; inversion H)).
  reflexivity.
Qed.

Lemma enGB_noInheritedKey (C : list Customer.t) :
  noInheritedKey (dateKeyOf EnGB.format) C.
Proof.
  unfold noInheritedKey; rewrite Forall_forall; intros c _.
  apply format_not_inherited.
Qed.

End EnGBFacts.

(** ** Subtraction of integers held in numbers *)

Section Binary64Sub.

Lemma ofZ_neg (n : positive) :
  Zpos n < 2 ^ 53 ->
  Js.ofZ (Zneg n)
  = S754_finite true (Z.to_pos (Zpos n * 2 ^ (53 - Zpos (digits2_pos n))))
                (Zpos (digits2_pos n) - 53).
Proof.
  intros Hn. unfold Js.ofZ, binary_normalize.
  change 0 with (- 0). apply binary_round_int; [lia | exact Hn | lia].
Qed.

(** Two non-negative integers below 2^53 are subtracted exactly, also when
    the difference is negative. *)
Lemma sub_ofZ (a b : Z) :
  0 <= a < 2 ^ 53 -> 0 <= b < 2 ^ 53 ->
  Js.sub (Js.ofZ a) (Js.ofZ b) = Js.ofZ (a - b).
Proof.
  intros Ha Hb.
  destruct a as [|pa|pa]; [|destruct b as [|pb|pb]|]; try lia.
  - (* 0 - b *)
    destruct b as [|pb|pb]; [reflexivity| |lia].
    rewrite Z.sub_0_l. change (- Zpos pb) with (Zneg pb).
    rewrite ofZ_pos, ofZ_neg by lia. reflexivity.
  - (* a - 0 *)
    rewrite Z.sub_0_r, ofZ_pos by lia. reflexivity.
  - (* both positive *)
    pose proof (digits2_le_53 pa ltac:(lia)) as Hda.
    pose proof (digits2_le_53 pb ltac:(lia)) as Hdb.
    rewrite (ofZ_pos pa), (ofZ_pos pb) by lia.
    set (da := Zpos (digits2_pos pa)) in *.
    set (db := Zpos (digits2_pos pb)) in *.
    assert (Pa : 0 < Zpos pa * 2 ^ (53 - da))
      by (apply Z.mul_pos_pos; [lia | apply Z.pow_pos_nonneg; lia]).
    assert (Pb : 0 < Zpos pb * 2 ^ (53 - db))
      by (apply Z.mul_pos_pos; [lia | apply Z.pow_pos_nonneg; lia]).
    unfold Js.sub, SFsub. cbn [cond_Zopp].
    set (ez := Z.min (da - 53) (db - 53)).
    rewrite !shl_align_value by (subst ez; lia).
    rewrite !Z2Pos.id by assumption.
    rewrite <- !Z.mul_assoc, <- !Z.pow_add_r by (subst ez; lia).
    replace (53 - da + (da - 53 - ez)) with (- ez) by lia.
    replace (53 - db + (db - 53 - ez)) with (- ez) by lia.
    rewrite <- Z.mul_sub_distr_r.
    assert (P2 : 0 < 2 ^ (- ez)) by (apply Z.pow_pos_nonneg; subst ez; lia).
    destruct (Zpos pa - Zpos pb) as [|d|d] eqn:Ed.
    + reflexivity.
    + assert (Ps : 0 < Zpos d * 2 ^ (- ez)) by (apply Z.mul_pos_pos; lia).
      destruct (Zpos d * 2 ^ (- ez)) as [|q|q] eqn:Eq; try lia.
      unfold binary_normalize.
      replace ez with (- (- ez)) at 1 by lia.
      rewrite (binary_round_int false d q (- ez));
        [| subst ez; lia | lia | symmetry; exact Eq].
      symmetry; apply ofZ_pos; lia.
    + assert (Ps : 0 < Zpos d * 2 ^ (- ez)) by (apply Z.mul_pos_pos; lia).
      change (Zneg d) with (- Zpos d). rewrite Z.mul_opp_l.
      destruct (Zpos d * 2 ^ (- ez)) as [|q|q] eqn:Eq; try lia.
      change (- Zpos q) with (Zneg q).
      unfold binary_normalize.
      replace ez with (- (- ez)) at 1 by lia.
      rewrite (binary_round_int true d q (- ez));
        [| subst ez; lia | lia | symmetry; exact Eq].
      symmetry; apply ofZ_neg; lia.
Qed.

End Binary64Sub.

(** ** The summary: the net total *)

Lemma fold_exact_zero {X : Type} (num : X -> Js.number) (val : X -> Z) (l : list X) :
  Forall (fun x => num x = Js.ofZ (val x) /\ 0 <= val x) l ->
  zsum (map val l) < 2 ^ 53 ->
  fold_left (fun sum x => Js.add sum (num x)) l Js.zero = Js.ofZ (zsum (map val l)).
Proof.
  intros H B. rewrite <- ofZ_zero.
  rewrite (fold_exact num val l 0 H); [reflexivity | lia | lia].
Qed.

Lemma zsum_map_nonneg {X : Type} (val : X -> Z) (l : list X) :
  Forall (fun x => 0 <= val x) l -> 0 <= zsum (map val l).
Proof.
  intros H; apply zsum_nonneg. rewrite Forall_forall in *.
  intros z Iz; apply in_map_iff in Iz; destruct Iz as [x [<- Ix]]; now apply H.
Qed.

Lemma add_nan_l (x : Js.number) : Js.add Js.NaN x = Js.NaN.
Proof. reflexivity. Qed.

Lemma add_nan_r (x : Js.number) : Js.add x Js.NaN = Js.NaN.
Proof. now destruct x. Qed.

Lemma sub_nan_l (x : Js.number) : Js.sub Js.NaN x = Js.NaN.
Proof. reflexivity. Qed.

Lemma sub_nan_r (x : Js.number) : Js.sub x Js.NaN = Js.NaN.
Proof. now destruct x. Qed.

Lemma strictEq_nan (x : Js.number) : Js.strictEq Js.NaN x = false.
Proof. reflexivity. Qed.

(** A sum with a term that is not a number is not a number. *)
Lemma fold_add_nan {X : Type} (num : X -> Js.number) (l : list X) :
  fold_left (fun sum x => Js.add sum (num x)) l Js.NaN = Js.NaN.
Proof. induction l as [|x l IH]; simpl; [reflexivity | exact IH]. Qed.

Lemma fold_add_nan_term {X : Type} (num : X -> Js.number) (l : list X) (x : X)
  (acc : Js.number) :
  In x l -> num x = Js.NaN ->
  fold_left (fun sum x => Js.add sum (num x)) l acc = Js.NaN.
Proof.
  revert acc; induction l as [|y l IH]; intros acc I N; [destruct I|].
  simpl. destruct I as [->|I].
  - rewrite N, add_nan_r. apply fold_add_nan.
  - now apply IH.
Qed.

Lemma ofZ_not_nan (n : Z) : - 2 ^ 53 < n < 2 ^ 53 -> Js.ofZ n <> Js.NaN.
Proof.
  intros H. destruct n as [|p|p].
  - discriminate.
  - rewrite ofZ_pos by lia. discriminate.
  - rewrite ofZ_neg by lia. discriminate.
Qed.

(** C1, as the code has it.  [netTotal] is the difference of the numbers
    [totalRevenue] and [totalExpenses]: compared with [===] it equals
    [totalRevenue - totalExpenses] exactly when it is a number, and it is
    [NaN] as soon as one amount of a customer or of an expense does not
    parse as a number.  For amounts that are whole numbers, the two totals
    being below 2^53, the three figures are exact: [netTotal] is the total
    of the customers' amounts minus that of the expenses' amounts, negative
    when the expenses exceed the revenue. *)
Theorem summary_netTotal (C : list Customer.t) (E : list Expense.t) :
  let s := Routes.summaryOf C E in
  (Js.strictEq (Routes.netTotal s)
               (Js.sub (Routes.totalRevenue s) (Routes.totalExpenses s)) = true
   <-> Routes.netTotal s <> Js.NaN)
  /\ ((exists c, In c C /\ Js.parseFloat (Customer.amount c) = Js.NaN)
      \/ (exists e, In e E /\ Js.parseFloat (Expense.amount e) = Js.NaN) ->
      Routes.netTotal s = Js.NaN)
  /\ (wholeAmounts C -> wholeExpenses E ->
      amountsTotal C < 2 ^ 53 -> expensesTotal E < 2 ^ 53 ->
      Routes.totalRevenue s = Js.ofZ (amountsTotal C)
      /\ Routes.totalExpenses s = Js.ofZ (expensesTotal E)
      /\ Routes.netTotal s = Js.ofZ (amountsTotal C - expensesTotal E)
      /\ Js.strictEq (Routes.netTotal s)
                     (Js.sub (Routes.totalRevenue s) (Routes.totalExpenses s))
         = true).
Proof.
  cbv zeta. unfold Routes.summaryOf.
  cbn [Routes.totalRevenue Routes.totalExpenses Routes.netTotal].
  set (R := fold_left (fun sum customer =>
                         Js.add sum (Js.parseFloat (Customer.amount customer)))
                      C Js.zero).
  set (X := fold_left (fun sum expense =>
                         Js.add sum (Js.parseFloat (Expense.amount expense)))
                      E Js.zero).
  split; [|split].
  - split; [|apply strictEq_refl].
    intros H N. rewrite N in H. discriminate H.
  - intros [(c & Ic & Nc)|(e & Ie & Ne)].
    + unfold R.
      rewrite (fold_add_nan_term (fun c => Js.parseFloat (Customer.amount c))
                 C c Js.zero Ic Nc).
      apply sub_nan_l.
    + unfold X.
      rewrite (fold_add_nan_term (fun e => Js.parseFloat (Expense.amount e))
                 E e Js.zero Ie Ne).
      apply sub_nan_r.
  - intros Hc He Br Bx.
    assert (R1 : R = Js.ofZ (amountsTotal C)).
    { apply (fold_exact_zero (fun c => Js.parseFloat (Customer.amount c))
                             amountValue); [|exact Br].
      apply Forall_forall; intros c Ic.
      pose proof (proj1 (Forall_forall _ _) Hc c Ic) as Wc; simpl in Wc.
      split; [now apply parseFloat_whole | now apply wholeValue_nonneg]. }
    assert (R2 : X = Js.ofZ (expensesTotal E)).
    { apply (fold_exact_zero (fun e => Js.parseFloat (Expense.amount e))
                             (fun e => wholeValue (Expense.amount e)));
        [|exact Bx].
      apply Forall_forall; intros e Ie.
      pose proof (proj1 (Forall_forall _ _) He e Ie) as We; simpl in We.
      split; [now apply parseFloat_whole | now apply wholeValue_nonneg]. }
    assert (P1 : 0 <= amountsTotal C) by (now apply amountsTotal_nonneg).
    assert (P2 : 0 <= expensesTotal E).
    { apply zsum_map_nonneg. apply Forall_forall; intros e Ie.
      apply wholeValue_nonneg. exact (proj1 (Forall_forall _ _) He e Ie). }
    assert (D : Js.sub R X = Js.ofZ (amountsTotal C - expensesTotal E))
      by (rewrite R1, R2; apply sub_ofZ; lia).
    split; [exact R1|]. split; [exact R2|]. split; [exact D|].
    apply strictEq_refl. rewrite D. apply ofZ_not_nan. lia.
Qed.

(** C1, the claim as stated, fails in two ways.  The server accepts any
    string as an amount: with the amount "abc" the net total is [NaN], which
    is not equal to itself.  And the difference is rounded: with the revenue
    1000000.1 and the expenses 0.3 the net total is neither the number
    nearest to 999999.8 nor the exact difference of the two totals. *)
Lemma netTotal_not_exact :
  (let s := Routes.summaryOf [Ex.customer 1 "A" "abc" "paid" 1 Ex.day1] [] in
   Routes.netTotal s = Js.NaN
   /\ Js.strictEq (Routes.netTotal s)
                  (Js.sub (Routes.totalRevenue s) (Routes.totalExpenses s))
      = false)
  /\ (let s := Routes.summaryOf
                 [Ex.customer 1 "A" "1000000.1" "paid" 1 Ex.day1]
                 [Expense.mk 1 "fuel" "0.3" Ex.day1] in
      Routes.netTotal s <> Js.parseFloat "999999.8"
      /\ forall n r e,
           Js.toQ (Routes.netTotal s) = Some n ->
           Js.toQ (Routes.totalRevenue s) = Some r ->
           Js.toQ (Routes.totalExpenses s) = Some e ->
           ~ (n == r - e)%Q).
Proof.
  split; cbv zeta.
  - split; vm_compute; reflexivity.
  - split; [vm_compute; discriminate|].
    intros n r e Hn Hr He Heq.
    vm_compute in Hn, Hr, He.
    injection Hn as <-; injection Hr as <-; injection He as <-.
    vm_compute in Heq; discriminate Heq.
Qed.

(** ** The theorems at concrete inputs *)

(** C1 on the scenario of the specification, revenue 150, expenses 30 and
    net total 120, and with the two lists exchanged, net total -120. *)
Lemma summary_netTotal_witness :
  wholeAmounts Ex.scenarioC /\ wholeExpenses Ex.scenarioE
  /\ amountsTotal Ex.scenarioC < 2 ^ 53 /\ expensesTotal Ex.scenarioE < 2 ^ 53
  /\ (let s := Routes.summaryOf Ex.scenarioC Ex.scenarioE in
      Routes.totalRevenue s = Js.ofZ 150
      /\ Routes.totalExpenses s = Js.ofZ 30
      /\ Routes.netTotal s = Js.ofZ 120
      /\ Routes.netTotal s <> Js.NaN)
  /\ Routes.netTotal
       (Routes.summaryOf [Ex.customer 1 "A" "30" "paid" 1 Ex.day1]
                         [Expense.mk 1 "rent" "100" Ex.day1;
                          Expense.mk 2 "fuel" "50" Ex.day1])
     = Js.ofZ (-120).
Proof.
  assert (Hc : wholeAmounts Ex.scenarioC) by (repeat constructor).
  assert (He : wholeExpenses Ex.scenarioE) by (repeat constructor).
  assert (Br : amountsTotal Ex.scenarioC < 2 ^ 53) by (vm_compute; reflexivity).
  assert (Bx : expensesTotal Ex.scenarioE < 2 ^ 53) by (vm_compute; reflexivity).
  destruct (summary_netTotal Ex.scenarioC Ex.scenarioE) as (Q & _ & W).
  destruct (W Hc He Br Bx) as (R1 & R2 & R3 & R4).
  repeat (split; [assumption|]).
  split.
  - cbv zeta. split; [exact R1|]. split; [exact R2|]. split; [exact R3|].
    exact (proj1 Q R4).
  - destruct (summary_netTotal [Ex.customer 1 "A" "30" "paid" 1 Ex.day1]
                [Expense.mk 1 "rent" "100" Ex.day1;
                 Expense.mk 2 "fuel" "50" Ex.day1]) as (_ & _ & W').
    refine (proj1 (proj2 (proj2 (W' _ _ _ _)))).
    + repeat constructor.
    + repeat constructor.
    + vm_compute; reflexivity.
    + vm_compute; reflexivity.
Defined.

(** C2 on four customers over three days: the view has a section for each
    day, its groups hold the four customers and their totals add up to the
    revenue, 200. *)
Lemma grouping_lossless_witness :
  noInheritedKey (dateKeyOf EnGB.format) Ex.threeDays
  /\ noInheritedKey Customer.name (shownCustomers EnGB.format Ex.threeDays)
  /\ (dateCount EnGB.format Ex.threeDays <= 3)%nat
  /\ wholeAmounts Ex.threeDays
  /\ amountsTotal Ex.threeDays < 2 ^ 53
  /\ exists view,
       Home.dailyOperations EnGB.format Ex.threeDays = Some view
       /\ map Home.dateKey view = ["05/11/2024"; "04/11/2024"; "03/11/2024"]
       /\ Permutation (allEntries view) Ex.threeDays
       /\ sumOfGroupTotals view
          = Routes.totalRevenue (Routes.summaryOf Ex.threeDays Ex.scenarioE)
       /\ sumOfGroupTotals view = Js.ofZ 200.
Proof.
  assert (Hd : noInheritedKey (dateKeyOf EnGB.format) Ex.threeDays)
    by (apply enGB_noInheritedKey).
  assert (Es : shownCustomers EnGB.format Ex.threeDays = Ex.threeDays)
    by (vm_compute; reflexivity).
  assert (Hn : noInheritedKey Customer.name
                 (shownCustomers EnGB.format Ex.threeDays))
    by (rewrite Es; repeat constructor).
  assert (Hc : (dateCount EnGB.format Ex.threeDays <= 3)%nat)
    by (vm_compute; lia).
  assert (Hw : wholeAmounts Ex.threeDays) by (repeat constructor).
  assert (Hlt : amountsTotal Ex.threeDays < 2 ^ 53) by (vm_compute; reflexivity).
  destruct (grouping_lossless EnGB.format Ex.threeDays Ex.scenarioE) as (T & L).
  destruct (proj1 T (conj Hd Hn)) as [view E].
  destruct (L view E) as (K & _ & _ & A & _).
  destruct (A Hc) as (P & S).
  repeat (split; [assumption|]).
  exists view. split; [exact E|].
  split; [rewrite K; vm_compute; reflexivity|].
  split; [exact P|]. split; [exact (S Hw Hlt)|].
  rewrite (S Hw Hlt). vm_compute; reflexivity.
Defined.

(** C3 on the amounts 100 and 50, and on the groups of the view and of the
    report for the scenario of the specification. *)
Lemma sums_exact_on_whole_amounts_witness :
  Forall (fun a => wholeNumber a = true) ["100"; "50"]
  /\ wholeTotal ["100"; "50"] < 2 ^ 53
  /\ sumAmounts ["100"; "50"] = Js.ofZ 150
  /\ sumIsExact ["100"; "50"]
  /\ (exists g,
        option_map (map Home.customerGroups)
                   (Home.dailyOperations EnGB.format Ex.scenarioC)
        = Some [[g]]
        /\ map Customer.amount (Group.entries g) = ["100"; "50"]
        /\ Group.totalAmount g = Js.ofZ 150)
  /\ (exists g,
        Home.pdfGroups Ex.scenarioC = Some [g]
        /\ map Customer.amount (PdfGroup.entries g) = ["100"; "50"]
        /\ PdfGroup.totalAmount g = Js.ofZ 150).
Proof.
  assert (Hw : Forall (fun a => wholeNumber a = true) ["100"; "50"])
    by (repeat constructor).
  assert (Hlt : wholeTotal ["100"; "50"] < 2 ^ 53) by (vm_compute; reflexivity).
  destruct (sums_exact_on_whole_amounts EnGB.format Ex.scenarioC Ex.scenarioE)
    as (S & _ & _ & V & P).
  destruct (S ["100"; "50"] Hw Hlt) as (Es & Ex).
  split; [exact Hw|]. split; [exact Hlt|]. split; [exact Es|]. split; [exact Ex|].
  split.
  - eexists.
    assert (Ev : Home.dailyOperations EnGB.format Ex.scenarioC
                 = Some [Home.mkDateSection _ [_] _])
      by (vm_compute; reflexivity).
    split; [rewrite Ev; reflexivity|]. split; [reflexivity|].
    rewrite (V _ _ _ Ev (or_introl eq_refl) (or_introl eq_refl)).
    exact Es.
  - eexists.
    assert (Eg : Home.pdfGroups Ex.scenarioC = Some [_])
      by (vm_compute; reflexivity).
    split; [exact Eg|]. split; [reflexivity|].
    rewrite (P _ _ Eg (or_introl eq_refl)). exact Es.
Defined.

(** C4 on five customers over four days: the view keeps three days; the
    group of A on the 4th of November, whose entry is unpaid, has [allPaid]
    false, and when the entry of A on the 3rd is changed to unpaid the group
    of A on the 3rd has [allPaid] false too. *)
Lemma allPaid_iff_every_entry_paid_witness :
  exists view,
    Home.dailyOperations EnGB.format Ex.fourDays = Some view
    /\ map Home.dateKey view = ["05/11/2024"; "04/11/2024"; "03/11/2024"]
    /\ map (fun d => map Group.allPaid (Home.customerGroups d)) view
       = [[true]; [false]; [true; true]]
    /\ (forall d g,
          In d view -> In g (Home.customerGroups d) ->
          Forall validStatus (Group.entries g)
          /\ (Group.allPaid g = true
              <-> forall e, In e (Group.entries g) ->
                            Customer.paymentStatus e = "paid"))
    /\ (exists view',
          Home.dailyOperations EnGB.format
            [ Ex.customer 5 "B" "70" "paid" 1 (Ex.day3 + EnGB.msPerDay + 5000);
              Ex.customer 4 "A" "60" "unpaid" 1 (Ex.day3 + 4000);
              Ex.customer 3 "B" "20" "paid" 3 (Ex.day2 + 3000);
              Ex.customer 2 "A" "50" "unpaid" 1 (Ex.day2 + 2000);
              Ex.customer 1 "A" "100" "paid" 2 Ex.day1 ]
          = Some view'
          /\ (forall d' g',
                In d' view' -> Home.dateKey d' = "03/11/2024" ->
                In g' (Home.customerGroups d') -> Group.name g' = "A" ->
                Group.allPaid g' = false)).
Proof.
  eexists.
  assert (Ev : Home.dailyOperations EnGB.format Ex.fourDays = Some _)
    by (vm_compute; reflexivity).
  destruct (allPaid_iff_every_entry_paid EnGB.format Ex.fourDays _ Ev)
    as (_ & _ & A & F).
  split; [exact Ev|]; split; [reflexivity|]; split; [reflexivity|]. split.
  - intros d g Id Ig; destruct (A d g Id Ig) as (Ee & _ & _ & P).
    assert (V : Forall validStatus (Group.entries g)).
    { rewrite Ee, Forall_forall; intros e Ie.
      apply withKey_key in Ie; destruct Ie as [Ie _].
      apply withKey_key in Ie; destruct Ie as [Ie _].
      destruct Ie as [<-|[<-|[<-|[<-|[<-|[]]]]]];
        first [left; reflexivity | right; reflexivity]. }
    split; [exact V | exact (P V)].
  - destruct (F [ Ex.customer 5 "B" "70" "paid" 1 (Ex.day3 + EnGB.msPerDay + 5000);
                  Ex.customer 4 "A" "60" "unpaid" 1 (Ex.day3 + 4000);
                  Ex.customer 3 "B" "20" "paid" 3 (Ex.day2 + 3000) ]
               (Ex.customer 2 "A" "50" "paid" 1 (Ex.day2 + 2000))
               [ Ex.customer 1 "A" "100" "paid" 2 Ex.day1 ])
      as (view' & E' & _ & _ & U).
    + reflexivity.
    + vm_compute. right; right; now left.
    + exists view'. split; [exact E' | exact U].
Defined.

(** A payment status that is neither of the two of the data model, which
    the server stores as it does any string, leaves [allPaid] true. *)
Lemma allPaid_other_status :
  exists g,
    option_map (map Home.customerGroups)
      (Home.dailyOperations EnGB.format
         [Ex.customer 1 "A" "100" "pending" 1 Ex.day1])
    = Some [[g]]
    /\ map Customer.paymentStatus (Group.entries g) = ["pending"]
    /\ Group.allPaid g = true.
Proof. eexists; repeat split; vm_compute; reflexivity. Qed.

(** C5 on customer A on two days. *)
Lemma pdf_groups_by_name_only_witness :
  noInheritedKey Customer.name Ex.twoDays
  /\ exists groups,
       Home.pdfGroups Ex.twoDays = Some groups
       /\ forall c, In c Ex.twoDays ->
            exists g, In g groups /\ PdfGroup.name g = Customer.name c
                      /\ In c (PdfGroup.entries g).
Proof.
  assert (Hn : noInheritedKey Customer.name Ex.twoDays) by (repeat constructor).
  destruct (pdf_groups_by_name_only EnGB.format Ex.twoDays) as (T & P & _).
  destruct (proj2 T Hn) as [groups E].
  destruct (P groups E) as (_ & G & _).
  split; [exact Hn|]. exists groups; split; [exact E | exact G].
Defined.

(** C6 on a store holding one customer and no expense: the amount and the
    payment status of the customer are updated. *)
Lemma update_preserves_id_createdAt_witness :
  let s := snd (MemStorage.createCustomer Ex.day1
                  (InsertCustomer.mk "A" "X" (Js.ofZ 2) "100" "paid")
                  MemStorage.constructor) in
  MemStorage.getAllExpenses s = []
  /\ MemStorage.getCustomer 1 s
     = Some (Customer.mk 1 "A" "X" (Js.ofZ 2) "100" "paid" Ex.day1)
  /\ exists c',
       fst (MemStorage.updateCustomer 1
              (PartialCustomer.mk None None None (Some "120") (Some "unpaid"))
              s) = Some c'
       /\ Customer.id c' = 1 /\ Customer.createdAt c' = Ex.day1
       /\ Customer.name c' = "A" /\ Customer.amount c' = "120"
       /\ Customer.paymentStatus c' = "unpaid".
Proof.
  cbv zeta.
  set (s := snd (MemStorage.createCustomer Ex.day1
                   (InsertCustomer.mk "A" "X" (Js.ofZ 2) "100" "paid")
                   MemStorage.constructor)).
  assert (Hc : MemStorage.getCustomer 1 s
               = Some (Customer.mk 1 "A" "X" (Js.ofZ 2) "100" "paid" Ex.day1))
    by reflexivity.
  destruct (update_preserves_id_createdAt s 1 1
              (PartialCustomer.mk None None None (Some "120") (Some "unpaid"))
              (PartialExpense.mk None None)) as (U & _).
  destruct (U _ Hc)
    as (c' & R & _ & Hid & Hat & Hname & _ & _ & Hamount & Hstatus & _).
  split; [reflexivity|]. split; [exact Hc|].
  exists c'.
  split; [exact R|].
  split; [exact Hid|].
  split; [exact Hat|].
  split; [exact (proj2 Hname eq_refl)|].
  split; [exact (proj1 Hamount _ eq_refl) | exact (proj1 Hstatus _ eq_refl)].
Defined.

(** C8 on five customers over four days: the view keeps the 5th, 4th and
    3rd of November and omits the 2nd. *)
Lemma recentDates_three_most_recent_witness :
  noInheritedKey (dateKeyOf EnGB.format) Ex.fourDays
  /\ calendarDays EnGB.format Ex.fourDays
  /\ exists byDate,
       Home.customersByDate EnGB.format Ex.fourDays = Some byDate
       /\ Home.sortedDates byDate
          = ["05/11/2024"; "04/11/2024"; "03/11/2024"; "02/11/2024"]
       /\ Home.recentDates byDate = ["05/11/2024"; "04/11/2024"; "03/11/2024"]
       /\ StronglySorted (moreRecent EnGB.format Ex.fourDays)
                         (Home.sortedDates byDate)
       /\ (forall view,
             Home.dailyOperations EnGB.format Ex.fourDays = Some view ->
             map Home.dateKey view = Home.recentDates byDate).
Proof.
  assert (Hd : noInheritedKey (dateKeyOf EnGB.format) Ex.fourDays)
    by (apply enGB_noInheritedKey).
  assert (Cal : calendarDays EnGB.format Ex.fourDays).
  { apply enGB_calendarDays; repeat constructor; vm_compute; discriminate. }
  destruct (recentDates_three_most_recent EnGB.format Ex.fourDays Hd Cal)
    as (byDate & E & _ & _ & _ & Hs & _ & _ & Hv & _).
  split; [exact Hd|]; split; [exact Cal|].
  exists byDate.
  split; [exact E|].
  assert (Eb : Some byDate = Home.customersByDate EnGB.format Ex.fourDays)
    by (symmetry; exact E).
  vm_compute in Eb; injection Eb as Eb.
  split; [rewrite Eb; vm_compute; reflexivity|].
  split; [rewrite Eb; vm_compute; reflexivity|].
  split; [exact Hs | exact Hv].
Defined.

(** C9 on a store holding one customer and one expense: the two DELETE
    requests are answered 200 and 404. *)
Lemma create_delete_roundtrip_witness :
  MemStorage.wf Ex.store
  /\ (let c := fst (MemStorage.createCustomer Ex.day2
                      (InsertCustomer.mk "B" "Y" (Js.ofZ 1) "70" "unpaid")
                      Ex.store) in
      let s1 := snd (MemStorage.createCustomer Ex.day2
                       (InsertCustomer.mk "B" "Y" (Js.ofZ 1) "70" "unpaid")
                       Ex.store) in
      let s2 := snd (Routes.deleteCustomer (Customer.id c) s1) in
      map Customer.id (MemStorage.getAllCustomers s1) = [2; 1]
      /\ fst (Routes.deleteCustomer (Customer.id c) s1)
         = (200, "Customer deleted successfully")
      /\ map Customer.id (MemStorage.getAllCustomers s2) = [1]
      /\ ~ In c (MemStorage.getAllCustomers s2)
      /\ Routes.deleteCustomer (Customer.id c) s2
         = ((404, "Customer not found"), s2)).
Proof.
  assert (W : MemStorage.wf Ex.store).
  { repeat split; try (repeat constructor; simpl; tauto).
    - intros k c [H|[]]; now inversion H.
    - intros k e [H|[]]; now inversion H. }
  split; [exact W|].
  destruct (create_delete_roundtrip Ex.store Ex.day2
              (InsertCustomer.mk "B" "Y" (Js.ofZ 1) "70" "unpaid")
              (InsertExpense.mk "tolls" "5") W)
    as ((_ & _ & R1 & N & _ & _ & _ & R2) & _).
  cbv zeta in *.
  split; [vm_compute; reflexivity|].
  split; [now rewrite R1|].
  split; [vm_compute; reflexivity|].
  split; [exact N | exact R2].
Defined.

(* ================================================================== *)
(** * Part III: further properties of the code                         *)
(* ================================================================== *)

(** ** The sort and the operations on lists *)

Section SortByTime.
Context {A : Type} (f : A -> Z).

Let cmp (a b : A) : Z := f b - f a.

Lemma insert_front (x : A) (l : list A) :
  Forall (fun y => f y <= f x) l -> Js.insert cmp x l = x :: l.
Proof.
  intros H; destruct l as [|y l]; [reflexivity|].
  inversion H; subst; simpl; unfold cmp.
  replace (f y - f x <=? 0) with true; [reflexivity|].
  symmetry; apply Z.leb_le; lia.
Qed.

Lemma filter_insert_out (p : A -> bool) (x : A) (l : list A) :
  p x = false -> filter p (Js.insert cmp x l) = filter p l.
Proof.
  intros Hx; induction l as [|y l IH]; simpl.
  - now rewrite Hx.
  - destruct (cmp x y <=? 0); simpl; [now rewrite Hx|].
    now rewrite IH.
Qed.

Lemma filter_insert_in (p : A -> bool) (x : A) (l : list A) :
  StronglySorted (fun a b => f b <= f a) l -> p x = true ->
  filter p (Js.insert cmp x l) = Js.insert cmp x (filter p l).
Proof.
  intros HS Hx; induction HS as [|y l Hl IH Hy]; simpl.
  - now rewrite Hx.
  - destruct (cmp x y <=? 0) eqn:E; simpl.
    + rewrite Hx. apply Z.leb_le in E; unfold cmp in E.
      destruct (p y) eqn:Py.
      * simpl. fold cmp. replace (cmp x y <=? 0) with true; [reflexivity|].
        symmetry; apply Z.leb_le; unfold cmp; lia.
      * symmetry; apply insert_front.
        rewrite Forall_forall in *; intros z Iz.
        apply filter_In in Iz; destruct Iz as [Iz _].
        specialize (Hy z Iz); simpl in Hy; lia.
    + destruct (p y) eqn:Py; simpl; [|exact IH].
      rewrite E. now rewrite IH.
Qed.

Lemma sort_filter (p : A -> bool) (l : list A) :
  Js.sort cmp (filter p l) = filter p (Js.sort cmp l).
Proof.
  induction l as [|x l IH]; [reflexivity|]. simpl.
  destruct (p x) eqn:Px.
  - simpl. rewrite IH. symmetry. apply filter_insert_in; [|exact Px].
    apply (sort_desc f).
  - rewrite IH. symmetry. now apply filter_insert_out.
Qed.

Lemma sort_map (g : A -> A) (l : list A) :
  (forall x, f (g x) = f x) ->
  Js.sort cmp (map g l) = map g (Js.sort cmp l).
Proof.
  intros Hg; induction l as [|x l IH]; [reflexivity|]. simpl. rewrite IH.
  generalize (Js.sort cmp l) as s; intros s.
  induction s as [|y s IHs]; [reflexivity|]. simpl.
  unfold cmp at 1 3. rewrite !Hg. fold (cmp x y).
  destruct (cmp x y <=? 0); simpl; [reflexivity|]. now rewrite IHs.
Qed.

Lemma insert_app_before (x c : A) (g t : list A) :
  f c <= f x ->
  Js.insert cmp x (g ++ c :: t) = Js.insert cmp x g ++ c :: t.
Proof.
  intros H; induction g as [|y g IH]; simpl.
  - replace (cmp x c <=? 0) with true; [reflexivity|].
    symmetry; apply Z.leb_le; unfold cmp; lia.
  - destruct (cmp x y <=? 0); [reflexivity|]. simpl; now rewrite IH.
Qed.

Lemma insert_app_after (x c : A) (g t : list A) :
  f x < f c -> Forall (fun y => f x < f y) g ->
  Js.insert cmp x (g ++ c :: t) = g ++ c :: Js.insert cmp x t.
Proof.
  intros H Hg; induction Hg as [|y g Hy Hg IH]; simpl.
  - replace (cmp x c <=? 0) with false; [reflexivity|].
    symmetry; apply Z.leb_gt; unfold cmp; lia.
  - replace (cmp x y <=? 0) with false; [now rewrite IH|].
    symmetry; apply Z.leb_gt; unfold cmp; lia.
Qed.

(** Sorting a list with one more element at its end: the element goes
    after the elements that are not older and before the older ones. *)
Lemma sort_snoc (c : A) (l : list A) :
  Js.sort cmp (l ++ [c])
  = filter (fun y => f c <=? f y) (Js.sort cmp l)
    ++ c :: filter (fun y => f y <? f c) (Js.sort cmp l).
Proof.
  induction l as [|x l IH]; [reflexivity|].
  pose proof (sort_desc f l) as HS. fold cmp in HS.
  simpl. unfold Js.sort in IH |- *. rewrite IH.
  destruct (f c <=? f x) eqn:E.
  - apply Z.leb_le in E.
    rewrite (filter_insert_in _ x _ HS) by (now apply Z.leb_le).
    rewrite (filter_insert_out _ x) by (apply Z.ltb_ge; lia).
    now apply insert_app_before.
  - apply Z.leb_gt in E.
    rewrite (filter_insert_out _ x) by (now apply Z.leb_gt).
    rewrite (filter_insert_in _ x _ HS) by (now apply Z.ltb_lt).
    apply insert_app_after; [exact E|].
    apply Forall_forall; intros y Iy; apply filter_In in Iy.
    destruct Iy as [_ Iy]; apply Z.leb_le in Iy; lia.
Qed.

End SortByTime.

(** ** The values of a map after [set] and [delete] *)

Section JsMapValues.
Context {V : Type} (id : V -> Z).
Implicit Types (m : JsMap.t V) (k : Z) (v : V).

Let own m : Prop := forall k v, In (k, v) m -> id v = k.

Lemma values_set_fresh m k v :
  JsMap.get m k = None -> JsMap.values (JsMap.set m k v) = JsMap.values m ++ [v].
Proof.
  unfold JsMap.values.
  induction m as [|[k' v'] m IH]; simpl; [reflexivity|].
  destruct (k' =? k); [discriminate|]. intros H; simpl.
  now rewrite IH.
Qed.

Lemma values_set_present m k v v0 :
  NoDup (JsMap.keys m) -> own m -> JsMap.get m k = Some v0 ->
  JsMap.values (JsMap.set m k v)
  = map (fun x => if id x =? k then v else x) (JsMap.values m).
Proof.
  intros ND O; induction m as [|[k' v'] m IH]; simpl; [discriminate|].
  inversion ND as [|? ? Nk ND']; subst.
  assert (Ek : id v' = k') by (apply O; now left).
  assert (O' : own m) by (intros a b H; apply O; now right).
  rewrite Ek. destruct (k' =? k) eqn:E.
  - intros _. simpl. f_equal. apply Z.eqb_eq in E; subst k'.
    symmetry. unfold JsMap.values. rewrite <- (map_id (map snd m)) at 2.
    rewrite map_map. rewrite map_map. apply map_ext_in.
    intros [a b] I; simpl. rewrite (O' _ _ I).
    replace (a =? k) with false; [reflexivity|].
    symmetry; apply Z.eqb_neq; intros E'; subst a.
    apply Nk. rewrite E. now apply (in_keys m k b).
  - intros H; simpl. f_equal. now apply IH.
Qed.

Lemma values_remove m k :
  own m ->
  JsMap.values (JsMap.remove m k)
  = filter (fun x => negb (id x =? k)) (JsMap.values m).
Proof.
  intros O; induction m as [|[k' v'] m IH]; simpl; [reflexivity|].
  assert (Ek : id v' = k') by (apply O; now left).
  assert (O' : own m) by (intros a b H; apply O; now right).
  rewrite Ek. destruct (k' =? k); simpl; [now apply IH|].
  f_equal; now apply IH.
Qed.

Lemma values_ids m : own m -> map id (JsMap.values m) = JsMap.keys m.
Proof.
  intros O; induction m as [|[k' v'] m IH]; simpl; [reflexivity|].
  f_equal; [apply O; now left|]. apply IH. intros a b H; apply O; now right.
Qed.

Lemma get_own m k v : NoDup (JsMap.keys m) -> own m ->
  (In v (JsMap.values m) /\ id v = k) <-> JsMap.get m k = Some v.
Proof.
  intros ND O; split.
  - intros [I E]. apply in_values in I; destruct I as [k' I].
    rewrite (O _ _ I) in E; subst k'.
    clear O. induction m as [|[a b] m IH]; [destruct I|].
    inversion ND as [|? ? Nk ND']; subst. simpl.
    destruct I as [[= -> ->]|I]; [now rewrite Z.eqb_refl|].
    destruct (a =? k) eqn:E; [|now apply IH].
    apply Z.eqb_eq in E; subst a. exfalso; apply Nk.
    now apply (in_keys m k v).
  - intros G. apply get_In in G. split; [|now apply O].
    apply in_values; now exists k.
Qed.

End JsMapValues.

(** ** Identifiers and counters *)

Lemma postIncrement_cases (n : Z) :
  1 <= n <= 2 ^ 53 ->
  (n + 1 < 2 ^ 53 /\ Js.postIncrement n = n + 1)
  \/ (2 ^ 53 - 1 <= n /\ Js.postIncrement n = 2 ^ 53).
Proof.
  intros H. destruct (Z_lt_le_dec (n + 1) (2 ^ 53)) as [L|L].
  - left; split; [exact L | apply postIncrement_exact; lia].
  - right; split; [lia|].
    assert (E : n = 2 ^ 53 - 1 \/ n = 2 ^ 53) by lia.
    destruct E as [-> | ->]; vm_compute; reflexivity.
Qed.

Lemma keys_remove_In {V : Type} (m : JsMap.t V) (k k' : Z) :
  In k' (JsMap.keys (JsMap.remove m k)) -> In k' (JsMap.keys m).
Proof.
  unfold JsMap.keys. intros H. apply in_map_iff in H.
  destruct H as [[a b] [E I]]; simpl in E; subst a.
  apply in_remove in I. destruct I as [I _]. now apply (in_keys m k' b).
Qed.

Lemma keys_set_In {V : Type} (m : JsMap.t V) (k k' : Z) (v : V) :
  In k' (JsMap.keys (JsMap.set m k v)) -> k' = k \/ In k' (JsMap.keys m).
Proof.
  induction m as [|[a b] m IH]; simpl.
  - intros [H|[]]; now left.
  - destruct (a =? k) eqn:E; simpl.
    + intros [H|H]; [now left | right; now right].
    + intros [H|H]; [right; now left|].
      destruct (IH H) as [H'|H']; [now left | right; now right].
Qed.

Lemma keys_set_present {V : Type} (m : JsMap.t V) (k : Z) (v v0 : V) :
  JsMap.get m k = Some v0 -> JsMap.keys (JsMap.set m k v) = JsMap.keys m.
Proof.
  induction m as [|[a b] m IH]; simpl; [discriminate|].
  destruct (a =? k) eqn:E; simpl.
  - intros _; apply Z.eqb_eq in E; now subst.
  - intros H; f_equal; now apply IH.
Qed.

(** In every store the program can be in, the counters are ahead of the
    identifiers stored. *)
Lemma reachable_countersAhead (s : MemStorage.t) : reachable s -> countersAhead s.
Proof.
  induction 1 as [|now ins s R IH|id upd s R IH|id s R IH
                  |now ins s R IH|id upd s R IH|id s R IH|s R IH].
  - unfold countersAhead; simpl.
    split; [lia|]. split; [lia|]. split; intros k [].
  - destruct IH as (Bc & Be & Kc & Ke).
    unfold countersAhead, MemStorage.createCustomer;
      cbn [snd MemStorage.customers MemStorage.expenses
           MemStorage.currentCustomerId MemStorage.currentExpenseId].
    destruct (postIncrement_cases _ Bc) as [[L E]|[L E]]; rewrite E.
    + split; [lia|]. split; [exact Be|]. split; [|exact Ke].
      intros k Ik. apply keys_set_In in Ik. destruct Ik as [->|Ik]; [lia|].
      destruct (Kc k Ik) as [K1 [K2|K2]]; lia.
    + split; [lia|]. split; [exact Be|]. split; [|exact Ke].
      intros k Ik. apply keys_set_In in Ik. destruct Ik as [->|Ik]; [lia|].
      destruct (Kc k Ik) as [K1 _]; lia.
  - unfold MemStorage.updateCustomer.
    destruct (JsMap.get (MemStorage.customers s) id) as [c|] eqn:G; [|exact IH].
    destruct IH as (Bc & Be & Kc & Ke).
    unfold countersAhead;
      cbn [snd MemStorage.customers MemStorage.expenses
           MemStorage.currentCustomerId MemStorage.currentExpenseId].
    rewrite (keys_set_present _ _ _ _ G).
    split; [exact Bc|]. split; [exact Be|]. split; [exact Kc | exact Ke].
  - destruct IH as (Bc & Be & Kc & Ke).
    unfold countersAhead, MemStorage.deleteCustomer, JsMap.delete;
      cbn [snd MemStorage.customers MemStorage.expenses
           MemStorage.currentCustomerId MemStorage.currentExpenseId].
    split; [exact Bc|]. split; [exact Be|]. split; [|exact Ke].
    intros k Ik; apply Kc; now apply keys_remove_In in Ik.
  - destruct IH as (Bc & Be & Kc & Ke).
    unfold countersAhead, MemStorage.createExpense;
      cbn [snd MemStorage.customers MemStorage.expenses
           MemStorage.currentCustomerId MemStorage.currentExpenseId].
    destruct (postIncrement_cases _ Be) as [[L E]|[L E]]; rewrite E.
    + split; [exact Bc|]. split; [lia|]. split; [exact Kc|].
      intros k Ik. apply keys_set_In in Ik. destruct Ik as [->|Ik]; [lia|].
      destruct (Ke k Ik) as [K1 [K2|K2]]; lia.
    + split; [exact Bc|]. split; [lia|]. split; [exact Kc|].
      intros k Ik. apply keys_set_In in Ik. destruct Ik as [->|Ik]; [lia|].
      destruct (Ke k Ik) as [K1 _]; lia.
  - unfold MemStorage.updateExpense.
    destruct (JsMap.get (MemStorage.expenses s) id) as [c|] eqn:G; [|exact IH].
    destruct IH as (Bc & Be & Kc & Ke).
    unfold countersAhead;
      cbn [snd MemStorage.customers MemStorage.expenses
           MemStorage.currentCustomerId MemStorage.currentExpenseId].
    rewrite (keys_set_present _ _ _ _ G).
    split; [exact Bc|]. split; [exact Be|]. split; [exact Kc | exact Ke].
  - destruct IH as (Bc & Be & Kc & Ke).
    unfold countersAhead, MemStorage.deleteExpense, JsMap.delete;
      cbn [snd MemStorage.customers MemStorage.expenses
           MemStorage.currentCustomerId MemStorage.currentExpenseId].
    split; [exact Bc|]. split; [exact Be|]. split; [exact Kc|].
    intros k Ik; apply Ke; now apply keys_remove_In in Ik.
  - unfold countersAhead; simpl.
    split; [lia|]. split; [lia|]. split; intros k [].
Qed.

Lemma counter_fresh {V : Type} (m : JsMap.t V) (n : Z) :
  (forall k, In k (JsMap.keys m) -> 1 <= k /\ (k < n \/ 2 ^ 53 - 1 <= n)) ->
  n + 1 < 2 ^ 53 -> JsMap.get m n = None.
Proof.
  intros K L. apply get_None_keys. intros I. destruct (K n I) as [_ [H|H]]; lia.
Qed.

(** ** The listing *)

(** X1.  In a well-formed store, hence in every store the program can be
    in, [getAllCustomers] returns the stored customers, each one once, the
    most recent first; no two of them have the same id, and a customer is
    listed exactly when the lookup of its id returns it.  The same holds of
    [getAllExpenses]. *)
Theorem listing_complete_newest_first (s : MemStorage.t) (W : MemStorage.wf s) :
  (Permutation (MemStorage.getAllCustomers s)
               (JsMap.values (MemStorage.customers s))
   /\ newestFirst Customer.createdAt (MemStorage.getAllCustomers s)
   /\ NoDup (map Customer.id (MemStorage.getAllCustomers s))
   /\ (forall c, In c (MemStorage.getAllCustomers s)
                 <-> MemStorage.getCustomer (Customer.id c) s = Some c))
  /\ (Permutation (MemStorage.getAllExpenses s)
                  (JsMap.values (MemStorage.expenses s))
      /\ newestFirst Expense.createdAt (MemStorage.getAllExpenses s)
      /\ NoDup (map Expense.id (MemStorage.getAllExpenses s))
      /\ (forall e, In e (MemStorage.getAllExpenses s)
                    <-> MemStorage.getExpense (Expense.id e) s = Some e)).
Proof.
  destruct W as (Nc & Ne & Oc & Oe).
  unfold MemStorage.getAllCustomers, MemStorage.getAllExpenses,
    MemStorage.getCustomer, MemStorage.getExpense, newestFirst.
  split; (split; [apply sort_perm|]); (split; [apply sort_desc|]); split.
  - apply (Permutation_NoDup (l := map Customer.id (JsMap.values (MemStorage.customers s)))).
    + apply Permutation_map, Permutation_sym, sort_perm.
    + now rewrite (values_ids Customer.id _ Oc).
  - intros c. rewrite sort_In.
    rewrite <- (get_own Customer.id _ _ _ Nc Oc). tauto.
  - apply (Permutation_NoDup (l := map Expense.id (JsMap.values (MemStorage.expenses s)))).
    + apply Permutation_map, Permutation_sym, sort_perm.
    + now rewrite (values_ids Expense.id _ Oe).
  - intros e. rewrite sort_In.
    rewrite <- (get_own Expense.id _ _ _ Ne Oe). tauto.
Qed.

(** X2.  In a store the program can be in, whose counters are below 2^53 - 1,
    [createCustomer] gives the new customer the value of the counter as its
    id, the time of the call as [createdAt] and the fields supplied; that id
    was not in use and is above every id stored; afterwards the lookup of
    the id returns the new customer, every customer stored before is still
    returned by the lookup of its id, and the counter is one more.  The same
    holds of [createExpense]. *)
Theorem create_assigns_fresh_id (s : MemStorage.t) (now : Z)
  (ic : InsertCustomer.t) (ie : InsertExpense.t)
  (R : reachable s)
  (Bc : MemStorage.currentCustomerId s + 1 < 2 ^ 53)
  (Be : MemStorage.currentExpenseId s + 1 < 2 ^ 53) :
  (let c := fst (MemStorage.createCustomer now ic s) in
   let s' := snd (MemStorage.createCustomer now ic s) in
   c = Customer.mk (MemStorage.currentCustomerId s)
         (InsertCustomer.name ic) (InsertCustomer.goodsType ic)
         (InsertCustomer.carCount ic) (InsertCustomer.amount ic)
         (InsertCustomer.paymentStatus ic) now
   /\ MemStorage.getCustomer (Customer.id c) s = None
   /\ (forall c0, In c0 (MemStorage.getAllCustomers s) ->
                  1 <= Customer.id c0 < Customer.id c)
   /\ MemStorage.getCustomer (Customer.id c) s' = Some c
   /\ (forall id c0, MemStorage.getCustomer id s = Some c0 ->
                     MemStorage.getCustomer id s' = Some c0)
   /\ MemStorage.currentCustomerId s' = MemStorage.currentCustomerId s + 1)
  /\
  (let e := fst (MemStorage.createExpense now ie s) in
   let s' := snd (MemStorage.createExpense now ie s) in
   e = Expense.mk (MemStorage.currentExpenseId s)
         (InsertExpense.description ie) (InsertExpense.amount ie) now
   /\ MemStorage.getExpense (Expense.id e) s = None
   /\ (forall e0, In e0 (MemStorage.getAllExpenses s) ->
                  1 <= Expense.id e0 < Expense.id e)
   /\ MemStorage.getExpense (Expense.id e) s' = Some e
   /\ (forall id e0, MemStorage.getExpense id s = Some e0 ->
                     MemStorage.getExpense id s' = Some e0)
   /\ MemStorage.currentExpenseId s' = MemStorage.currentExpenseId s + 1).
Proof.
  pose proof (reachable_wf s R) as W.
  destruct (reachable_countersAhead s R) as (Cc & Ce & Kc & Ke).
  pose proof (counter_fresh _ _ Kc Bc) as Fc.
  pose proof (counter_fresh _ _ Ke Be) as Fe.
  cbv zeta. unfold MemStorage.createCustomer, MemStorage.createExpense,
    MemStorage.getCustomer, MemStorage.getExpense.
  cbn [fst snd Customer.id Expense.id MemStorage.customers MemStorage.expenses
       MemStorage.currentCustomerId MemStorage.currentExpenseId].
  split.
  - split; [reflexivity|]. split; [exact Fc|]. split.
    { intros c0 I. apply (listed_customer_key s c0 W) in I.
      apply in_keys in I. destruct (Kc _ I) as [K1 [K2|K2]]; lia. }
    split; [apply get_set_same|]. split.
    { intros id c0 G. rewrite get_set_other; [exact G|].
      intros ->. rewrite Fc in G; discriminate. }
    apply postIncrement_exact; lia.
  - split; [reflexivity|]. split; [exact Fe|]. split.
    { intros e0 I. apply (listed_expense_key s e0 W) in I.
      apply in_keys in I. destruct (Ke _ I) as [K1 [K2|K2]]; lia. }
    split; [apply get_set_same|]. split.
    { intros id e0 G. rewrite get_set_other; [exact G|].
      intros ->. rewrite Fe in G; discriminate. }
    apply postIncrement_exact; lia.
Qed.

(** X3.  In such a store the customer created enters the listing after the
    customers that are not older than it and before the older ones, the
    others keeping their order; when it is more recent than all of them it
    heads the listing.  The same holds of the expenses. *)
Theorem create_enters_listing (s : MemStorage.t) (now : Z)
  (ic : InsertCustomer.t) (ie : InsertExpense.t)
  (R : reachable s)
  (Bc : MemStorage.currentCustomerId s + 1 < 2 ^ 53)
  (Be : MemStorage.currentExpenseId s + 1 < 2 ^ 53) :
  (let c := fst (MemStorage.createCustomer now ic s) in
   let s' := snd (MemStorage.createCustomer now ic s) in
   MemStorage.getAllCustomers s'
   = filter (fun c0 => now <=? Customer.createdAt c0) (MemStorage.getAllCustomers s)
     ++ c :: filter (fun c0 => Customer.createdAt c0 <? now)
                    (MemStorage.getAllCustomers s)
   /\ ((forall c0, In c0 (MemStorage.getAllCustomers s) ->
                   Customer.createdAt c0 < now) ->
       MemStorage.getAllCustomers s' = c :: MemStorage.getAllCustomers s))
  /\
  (let e := fst (MemStorage.createExpense now ie s) in
   let s' := snd (MemStorage.createExpense now ie s) in
   MemStorage.getAllExpenses s'
   = filter (fun e0 => now <=? Expense.createdAt e0) (MemStorage.getAllExpenses s)
     ++ e :: filter (fun e0 => Expense.createdAt e0 <? now)
                    (MemStorage.getAllExpenses s)
   /\ ((forall e0, In e0 (MemStorage.getAllExpenses s) ->
                   Expense.createdAt e0 < now) ->
       MemStorage.getAllExpenses s' = e :: MemStorage.getAllExpenses s)).
Proof.
  destruct (reachable_countersAhead s R) as (Cc & Ce & Kc & Ke).
  pose proof (counter_fresh _ _ Kc Bc) as Fc.
  pose proof (counter_fresh _ _ Ke Be) as Fe.
  cbv zeta.
  assert (Hc : MemStorage.getAllCustomers (snd (MemStorage.createCustomer now ic s))
    = filter (fun c0 => now <=? Customer.createdAt c0) (MemStorage.getAllCustomers s)
      ++ fst (MemStorage.createCustomer now ic s)
         :: filter (fun c0 => Customer.createdAt c0 <? now)
                   (MemStorage.getAllCustomers s)).
  { unfold MemStorage.getAllCustomers, MemStorage.createCustomer.
    cbn [fst snd MemStorage.customers].
    rewrite (values_set_fresh _ _ _ Fc).
    unfold MemStorage.byCreatedAtDesc.
    now rewrite (sort_snoc Customer.createdAt). }
  assert (He : MemStorage.getAllExpenses (snd (MemStorage.createExpense now ie s))
    = filter (fun e0 => now <=? Expense.createdAt e0) (MemStorage.getAllExpenses s)
      ++ fst (MemStorage.createExpense now ie s)
         :: filter (fun e0 => Expense.createdAt e0 <? now)
                   (MemStorage.getAllExpenses s)).
  { unfold MemStorage.getAllExpenses, MemStorage.createExpense.
    cbn [fst snd MemStorage.expenses].
    rewrite (values_set_fresh _ _ _ Fe).
    unfold MemStorage.byCreatedAtDesc.
    now rewrite (sort_snoc Expense.createdAt). }
  split.
  - split; [exact Hc|]. intros H. rewrite Hc.
    generalize dependent (MemStorage.getAllCustomers s); intros l _ H.
    assert (E1 : filter (fun c0 => now <=? Customer.createdAt c0) l = []).
    { induction l as [|x l IH]; [reflexivity|]. simpl.
      replace (now <=? Customer.createdAt x) with false.
      - apply IH; intros c0 I; apply H; now right.
      - symmetry; apply Z.leb_gt, H; now left. }
    assert (E2 : filter (fun c0 => Customer.createdAt c0 <? now) l = l).
    { induction l as [|x l IH]; [reflexivity|]. simpl.
      replace (Customer.createdAt x <? now) with true.
      - f_equal; apply IH; [intros c0 I; apply H; now right|].
        simpl in E1. replace (now <=? Customer.createdAt x) with false in E1;
          [exact E1 | symmetry; apply Z.leb_gt, H; now left].
      - symmetry; apply Z.ltb_lt, H; now left. }
    now rewrite E1, E2.
  - split; [exact He|]. intros H. rewrite He.
    generalize dependent (MemStorage.getAllExpenses s); intros l _ H.
    assert (E1 : filter (fun c0 => now <=? Expense.createdAt c0) l = []).
    { induction l as [|x l IH]; [reflexivity|]. simpl.
      replace (now <=? Expense.createdAt x) with false.
      - apply IH; intros c0 I; apply H; now right.
      - symmetry; apply Z.leb_gt, H; now left. }
    assert (E2 : filter (fun c0 => Expense.createdAt c0 <? now) l = l).
    { induction l as [|x l IH]; [reflexivity|]. simpl.
      replace (Expense.createdAt x <? now) with true.
      - f_equal; apply IH; [intros c0 I; apply H; now right|].
        simpl in E1. replace (now <=? Expense.createdAt x) with false in E1;
          [exact E1 | symmetry; apply Z.leb_gt, H; now left].
      - symmetry; apply Z.ltb_lt, H; now left. }
    now rewrite E1, E2.
Qed.

(** X4.  In a well-formed store, [deleteCustomer] returns whether the id was
    stored, and removes from the listing the customer of that id and no
    other: the others stay, in the order they had.  The same holds of
    [deleteExpense]. *)
Theorem delete_keeps_order (s : MemStorage.t) (id : Z) (W : MemStorage.wf s) :
  (fst (MemStorage.deleteCustomer id s)
   = existsb (fun c => Customer.id c =? id) (MemStorage.getAllCustomers s)
   /\ MemStorage.getAllCustomers (snd (MemStorage.deleteCustomer id s))
      = filter (fun c => negb (Customer.id c =? id)) (MemStorage.getAllCustomers s))
  /\
  (fst (MemStorage.deleteExpense id s)
   = existsb (fun e => Expense.id e =? id) (MemStorage.getAllExpenses s)
   /\ MemStorage.getAllExpenses (snd (MemStorage.deleteExpense id s))
      = filter (fun e => negb (Expense.id e =? id)) (MemStorage.getAllExpenses s)).
Proof.
  destruct W as (Nc & Ne & Oc & Oe).
  unfold MemStorage.deleteCustomer, MemStorage.deleteExpense, JsMap.delete.
  cbn [fst snd]. unfold MemStorage.getAllCustomers, MemStorage.getAllExpenses.
  cbn [MemStorage.customers MemStorage.expenses].
  unfold MemStorage.byCreatedAtDesc.
  rewrite (values_remove Customer.id _ _ Oc), (values_remove Expense.id _ _ Oe).
  rewrite (sort_filter Customer.createdAt), (sort_filter Expense.createdAt).
  split; (split; [|reflexivity]).
  - unfold JsMap.has.
    destruct (JsMap.get (MemStorage.customers s) id) as [c|] eqn:G.
    + symmetry; apply existsb_exists. exists c.
      apply (get_own Customer.id _ _ _ Nc Oc) in G. destruct G as [I E].
      split; [now apply sort_In | now apply Z.eqb_eq].
    + symmetry. apply not_true_is_false. intros H.
      apply existsb_exists in H. destruct H as [c [I E]].
      apply Z.eqb_eq in E. apply sort_In in I.
      rewrite (proj1 (get_own Customer.id _ id c Nc Oc) (conj I E)) in G.
      discriminate.
  - unfold JsMap.has.
    destruct (JsMap.get (MemStorage.expenses s) id) as [c|] eqn:G.
    + symmetry; apply existsb_exists. exists c.
      apply (get_own Expense.id _ _ _ Ne Oe) in G. destruct G as [I E].
      split; [now apply sort_In | now apply Z.eqb_eq].
    + symmetry. apply not_true_is_false. intros H.
      apply existsb_exists in H. destruct H as [c [I E]].
      apply Z.eqb_eq in E. apply sort_In in I.
      rewrite (proj1 (get_own Expense.id _ id c Ne Oe) (conj I E)) in G.
      discriminate.
Qed.

(** X5.  In a well-formed store, [updateCustomer] changes the listing at
    one place only: the customer of the id is replaced, where it stands, by
    its merge with the update, and the identifiers stored and their order
    stay as they are; for an id that is not stored it returns [undefined]
    and leaves the store as it is.  The same holds of [updateExpense]. *)
Theorem update_in_place (s : MemStorage.t) (id : Z)
  (cu : PartialCustomer.t) (eu : PartialExpense.t) (W : MemStorage.wf s) :
  (MemStorage.getAllCustomers (snd (MemStorage.updateCustomer id cu s))
   = map (fun c => if Customer.id c =? id then MemStorage.mergeCustomer c cu else c)
         (MemStorage.getAllCustomers s)
   /\ JsMap.keys (MemStorage.customers (snd (MemStorage.updateCustomer id cu s)))
      = JsMap.keys (MemStorage.customers s)
   /\ (MemStorage.getCustomer id s = None ->
       MemStorage.updateCustomer id cu s = (None, s)))
  /\
  (MemStorage.getAllExpenses (snd (MemStorage.updateExpense id eu s))
   = map (fun e => if Expense.id e =? id then MemStorage.mergeExpense e eu else e)
         (MemStorage.getAllExpenses s)
   /\ JsMap.keys (MemStorage.expenses (snd (MemStorage.updateExpense id eu s)))
      = JsMap.keys (MemStorage.expenses s)
   /\ (MemStorage.getExpense id s = None ->
       MemStorage.updateExpense id eu s = (None, s))).
Proof.
  destruct W as (Nc & Ne & Oc & Oe).
  unfold MemStorage.updateCustomer, MemStorage.updateExpense,
    MemStorage.getCustomer, MemStorage.getExpense.
  split.
  - destruct (JsMap.get (MemStorage.customers s) id) as [c0|] eqn:G;
      cbn [snd].
    + split; [|split; [now apply (keys_set_present _ _ _ c0) | discriminate]].
      unfold MemStorage.getAllCustomers; cbn [MemStorage.customers].
      rewrite (values_set_present Customer.id _ _ _ c0 Nc Oc G).
      unfold MemStorage.byCreatedAtDesc.
      rewrite <- (sort_map Customer.createdAt)
        by (intros x; now destruct (Customer.id x =? id)).
      f_equal. apply map_ext_in. intros x I.
      destruct (Customer.id x =? id) eqn:E; [|reflexivity].
      apply Z.eqb_eq in E.
      pose proof (proj1 (get_own Customer.id _ id x Nc Oc) (conj I E)) as G'.
      rewrite G in G'; now injection G' as ->.
    + split; [|split; [reflexivity | reflexivity]].
      rewrite <- (map_id (MemStorage.getAllCustomers s)) at 1.
      apply map_ext_in. intros x I.
      destruct (Customer.id x =? id) eqn:E; [|reflexivity].
      apply Z.eqb_eq in E. apply sort_In in I.
      rewrite (proj1 (get_own Customer.id _ id x Nc Oc) (conj I E)) in G.
      discriminate.
  - destruct (JsMap.get (MemStorage.expenses s) id) as [c0|] eqn:G;
      cbn [snd].
    + split; [|split; [now apply (keys_set_present _ _ _ c0) | discriminate]].
      unfold MemStorage.getAllExpenses; cbn [MemStorage.expenses].
      rewrite (values_set_present Expense.id _ _ _ c0 Ne Oe G).
      unfold MemStorage.byCreatedAtDesc.
      rewrite <- (sort_map Expense.createdAt)
        by (intros x; now destruct (Expense.id x =? id)).
      f_equal. apply map_ext_in. intros x I.
      destruct (Expense.id x =? id) eqn:E; [|reflexivity].
      apply Z.eqb_eq in E.
      pose proof (proj1 (get_own Expense.id _ id x Ne Oe) (conj I E)) as G'.
      rewrite G in G'; now injection G' as ->.
    + split; [|split; [reflexivity | reflexivity]].
      rewrite <- (map_id (MemStorage.getAllExpenses s)) at 1.
      apply map_ext_in. intros x I.
      destruct (Expense.id x =? id) eqn:E; [|reflexivity].
      apply Z.eqb_eq in E. apply sort_In in I.
      rewrite (proj1 (get_own Expense.id _ id x Ne Oe) (conj I E)) in G.
      discriminate.
Qed.

(** ** The summary of a store *)

(** X6.  For a store whose amounts are whole numbers and whose car counts
    are non-negative integers, the totals being below 2^53, GET /api/summary
    answers 200 with the exact figures: the total of the customers' amounts,
    the total of the expenses' amounts, their difference, negative when the
    expenses exceed the revenue, the total of the car counts, and the
    numbers of customers and of expenses stored. *)
Theorem summary_exact_on_whole_data (s : MemStorage.t)
  (Hc : wholeAmounts (JsMap.values (MemStorage.customers s)))
  (He : wholeExpenses (JsMap.values (MemStorage.expenses s)))
  (Hk : wholeCars (JsMap.values (MemStorage.customers s)))
  (Br : amountsTotal (JsMap.values (MemStorage.customers s)) < 2 ^ 53)
  (Bx : expensesTotal (JsMap.values (MemStorage.expenses s)) < 2 ^ 53)
  (Bk : carsTotal (JsMap.values (MemStorage.customers s)) < 2 ^ 53) :
  Routes.getSummary s
  = (200,
     Routes.mkSummary
       (Js.ofZ (amountsTotal (JsMap.values (MemStorage.customers s))))
       (Js.ofZ (expensesTotal (JsMap.values (MemStorage.expenses s))))
       (Js.ofZ (amountsTotal (JsMap.values (MemStorage.customers s))
                - expensesTotal (JsMap.values (MemStorage.expenses s))))
       (Js.ofZ (carsTotal (JsMap.values (MemStorage.customers s))))
       (Z.of_nat (List.length (MemStorage.customers s)))
       (Z.of_nat (List.length (MemStorage.expenses s)))).
Proof.
  unfold Routes.getSummary, Routes.summaryOf.
  set (C := MemStorage.getAllCustomers s).
  set (E := MemStorage.getAllExpenses s).
  set (C0 := JsMap.values (MemStorage.customers s)) in *.
  set (E0 := JsMap.values (MemStorage.expenses s)) in *.
  assert (PC : Permutation C C0) by apply sort_perm.
  assert (PE : Permutation E E0) by apply sort_perm.
  assert (R1 : fold_left (fun sum customer =>
                 Js.add sum (Js.parseFloat (Customer.amount customer))) C Js.zero
               = Js.ofZ (amountsTotal C0)).
  { unfold amountsTotal.
    rewrite <- (zsum_perm _ _ (Permutation_map amountValue PC)).
    apply (fold_exact_zero (fun c => Js.parseFloat (Customer.amount c)) amountValue).
    - apply Forall_forall; intros c Ic.
      apply (Permutation_in _ PC) in Ic.
      pose proof (proj1 (Forall_forall _ _) Hc c Ic) as Wc; simpl in Wc.
      split; [now apply parseFloat_whole | now apply wholeValue_nonneg].
    - rewrite (zsum_perm _ _ (Permutation_map amountValue PC)). exact Br. }
  assert (R2 : fold_left (fun sum expense =>
                 Js.add sum (Js.parseFloat (Expense.amount expense))) E Js.zero
               = Js.ofZ (expensesTotal E0)).
  { unfold expensesTotal.
    rewrite <- (zsum_perm _ _ (Permutation_map _ PE)).
    apply (fold_exact_zero (fun e => Js.parseFloat (Expense.amount e))
                           (fun e => wholeValue (Expense.amount e))).
    - apply Forall_forall; intros e Ie.
      apply (Permutation_in _ PE) in Ie.
      pose proof (proj1 (Forall_forall _ _) He e Ie) as We; simpl in We.
      split; [now apply parseFloat_whole | now apply wholeValue_nonneg].
    - rewrite (zsum_perm _ _ (Permutation_map _ PE)). exact Bx. }
  assert (R3 : fold_left (fun sum customer =>
                 Js.add sum (Customer.carCount customer)) C Js.zero
               = Js.ofZ (carsTotal C0)).
  { unfold carsTotal.
    rewrite <- (zsum_perm _ _ (Permutation_map carsValue PC)).
    apply (fold_exact_zero Customer.carCount carsValue).
    - apply Forall_forall; intros c Ic.
      apply (Permutation_in _ PC) in Ic.
      exact (proj1 (Forall_forall _ _) Hk c Ic).
    - rewrite (zsum_perm _ _ (Permutation_map carsValue PC)). exact Bk. }
  rewrite R1, R2, R3.
  rewrite sub_ofZ.
  - rewrite (Permutation_length PC), (Permutation_length PE).
    unfold C0, E0, JsMap.values. now rewrite !length_map.
  - split; [|exact Br]. apply zsum_map_nonneg.
    apply Forall_forall; intros c Ic.
    apply wholeValue_nonneg. exact (proj1 (Forall_forall _ _) Hc c Ic).
  - split; [|exact Bx]. apply zsum_map_nonneg.
    apply Forall_forall; intros e Ie.
    apply wholeValue_nonneg. exact (proj1 (Forall_forall _ _) He e Ie).
Qed.

(** ** The order of the groups *)

(** X7.  The groups of the PDF report, and the name groups of a date of the
    view, come in the order in which an object enumerates its keys: a group
    for each name, once; when no name is an array index (the decimal form
    of an integer below 2^32 - 1), in the order in which the names first
    occur in the list; names that are array indices come first, in
    ascending order. *)
Theorem groups_in_order_of_first_occurrence (C : list Customer.t)
  (Hn : noInheritedKey Customer.name C) :
  (exists groups,
     Home.pdfGroups C = Some groups
     /\ map PdfGroup.name groups
        = enumerationOrder (distinct (map Customer.name C))
     /\ NoDup (map PdfGroup.name groups)
     /\ (Forall (fun c => JsObject.arrayIndex (Customer.name c) = None) C ->
         map PdfGroup.name groups = distinct (map Customer.name C)))
  /\
  (exists grouped,
     Home.groupedByName C = Some grouped
     /\ map Group.name (JsObject.values grouped)
        = enumerationOrder (distinct (map Customer.name C))
     /\ NoDup (map Group.name (JsObject.values grouped))
     /\ (Forall (fun c => JsObject.arrayIndex (Customer.name c) = None) C ->
         map Group.name (JsObject.values grouped)
         = distinct (map Customer.name C))).
Proof.
  assert (Plain : Forall (fun c => JsObject.arrayIndex (Customer.name c) = None) C ->
                  Forall (fun k => JsObject.arrayIndex k = None)
                         (distinct (map Customer.name C))).
  { intros H. apply Forall_forall. intros k Ik.
    apply distinct_In, in_map_iff in Ik. destruct Ik as [c [<- Ic]].
    exact (proj1 (Forall_forall _ _) H c Ic). }
  split.
  - destruct (groupBy_total Customer.name Home.pdfNewGroup Home.pdfAddEntry C Hn)
      as [o E].
    pose proof (groupBy_keys _ _ _ _ _ E) as K.
    rewrite <- pdfStep_shape in E. fold (Home.groupedCustomers C) in E.
    destruct (groupedCustomers_groups C o E) as (_ & Hg & _).
    exists (JsObject.values o). unfold Home.pdfGroups. rewrite E.
    split; [reflexivity|].
    assert (N : map PdfGroup.name (JsObject.values o)
                = enumerationOrder (distinct (map Customer.name C))).
    { rewrite (values_names PdfGroup.name o), keys_enumerationOrder, K;
        [reflexivity|]. intros k g I. now apply (Hg k g I). }
    split; [exact N|]. split.
    + rewrite N.
      apply (Permutation_NoDup (Permutation_sym (enumerationOrder_perm _))).
      apply distinct_NoDup.
    + intros H. rewrite N. now apply enumerationOrder_plain, Plain.
  - destruct (groupBy_total Customer.name Home.newGroup Home.addEntry C Hn)
      as [o E].
    pose proof (groupBy_keys _ _ _ _ _ E) as K.
    rewrite <- byNameStep_shape in E. fold (Home.groupedByName C) in E.
    destruct (groupedByName_groups C o E) as (_ & Hg & _).
    exists o. split; [exact E|].
    assert (N : map Group.name (JsObject.values o)
                = enumerationOrder (distinct (map Customer.name C))).
    { rewrite (values_names Group.name o), keys_enumerationOrder, K;
        [reflexivity|]. intros k g I. now destruct (Hg k g I) as [? _]. }
    split; [exact N|]. split.
    + rewrite N.
      apply (Permutation_NoDup (Permutation_sym (enumerationOrder_perm _))).
      apply distinct_NoDup.
    + intros H. rewrite N. now apply enumerationOrder_plain, Plain.
Qed.

(** ** The sections of the view *)

Lemma carsTotal_nonneg (l : list Customer.t) : wholeCars l -> 0 <= carsTotal l.
Proof.
  intros H. apply zsum_map_nonneg. apply Forall_forall. intros c Ic.
  exact (proj2 (proj1 (Forall_forall _ _) H c Ic)).
Qed.

(** X8.  The view has one section for each date it keeps, and for every
    date section of the view: its name groups hold the customers of that
    date, each one once; a group has the name and the goods type of its
    first entry, whatever the goods types of its later entries, and its
    [totalCars] is the sum of the car counts of its entries, in order, the
    exact one for non-negative integers with a total below 2^53; and when
    the amounts of the date are whole numbers with a total below 2^53,
    [totalDayAmount] is exactly their total. *)
Theorem day_section_totals (dtf : Z -> string) (C : list Customer.t)
  (view : list Home.DateSection)
  (Ev : Home.dailyOperations dtf C = Some view) :
  map Home.dateKey view = shownDates dtf C
  /\ forall d, In d view ->
    customersOfDate dtf (Home.dateKey d) C <> []
    /\ Permutation (List.concat (map Group.entries (Home.customerGroups d)))
                   (customersOfDate dtf (Home.dateKey d) C)
    /\ (forall g, In g (Home.customerGroups d) ->
          (exists c rest,
              Group.entries g = c :: rest
              /\ Group.name g = Customer.name c
              /\ Group.goodsType g = Customer.goodsType c)
          /\ Group.totalCars g = sumCars (Group.entries g)
          /\ (wholeCars (Group.entries g) ->
              carsTotal (Group.entries g) < 2 ^ 53 ->
              Group.totalCars g = Js.ofZ (carsTotal (Group.entries g))))
    /\ (wholeAmounts (customersOfDate dtf (Home.dateKey d) C) ->
        amountsTotal (customersOfDate dtf (Home.dateKey d) C) < 2 ^ 53 ->
        Home.totalDayAmount d
        = Js.ofZ (amountsTotal (customersOfDate dtf (Home.dateKey d) C))).
Proof.
  split; [exact (view_dates dtf C view Ev)|].
  intros d Id.
  destruct (dailyOperations_inv dtf C view Ev) as (byDate & _ & _ & F).
  pose proof (proj1 (Forall_forall _ _) F d Id) as (o & Eo & Ne & Eg & Et).
  pose proof (groups_partition _ o Eo) as P.
  destruct (groupedByName_groups _ o Eo) as (_ & Hg & _).
  rewrite Eg in *.
  assert (G : forall g, In g (JsObject.values o) ->
                isGroupOf (Group.name g)
                          (customersOfDate dtf (Home.dateKey d) C) g).
  { intros g Ig. destruct (in_values_obj o g Ig) as [k Ik].
    pose proof (Hg k g Ik) as H. destruct H as [En H'].
    rewrite En. split; [exact En | exact H']. }
  split; [exact Ne|]. split; [exact P|]. split.
  - intros g Ig. destruct (G g Ig) as (_ & Ee & Nn & _ & Ec & _ & Egt).
    split; [|split; [exact Ec|]].
    + destruct (Group.entries g) as [|c rest] eqn:E; [contradiction|].
      exists c, rest. split; [reflexivity|]. split; [|now apply Egt].
      assert (Ic : In c (withKey Customer.name (Group.name g)
                           (customersOfDate dtf (Home.dateKey d) C)))
        by (rewrite <- Ee; now left).
      apply filter_In in Ic. destruct Ic as [_ Ic].
      apply String.eqb_eq in Ic. now symmetry.
    + intros Wk Bk. rewrite Ec. unfold sumCars, carsTotal.
      now apply (fold_exact_zero Customer.carCount carsValue).
  - intros Wa Ba. rewrite Et.
    rewrite sum_group_totals_whole.
    + f_equal. now apply amountsTotal_perm.
    + apply Forall_forall. intros g Ig.
      now destruct (G g Ig) as (_ & _ & _ & Ea & _).
    + now apply (wholeAmounts_perm _ _ (Permutation_sym P)).
    + now rewrite (amountsTotal_perm _ _ P).
Qed.

(** ** The expenses card *)

(** X9.  The expenses card of the page, given the listing the server
    sends: it is absent exactly when no expense is stored; else it shows
    the first three expenses of the listing, three at most, the most recent
    first, and every expense it leaves out is not more recent than any it
    shows. *)
Theorem expenses_card_three_most_recent (s : MemStorage.t) :
  match HomePage.expensesCard (MemStorage.getAllExpenses s) with
  | None => MemStorage.expenses s = []
  | Some rows =>
      rows = firstn 3 (MemStorage.getAllExpenses s)
      /\ rows <> []
      /\ List.length rows = Nat.min 3 (List.length (MemStorage.expenses s))
      /\ newestFirst Expense.createdAt rows
      /\ (forall e e', In e rows -> In e' (MemStorage.getAllExpenses s) ->
                       ~ In e' rows ->
                       Expense.createdAt e' <= Expense.createdAt e)
  end.
Proof.
  unfold HomePage.expensesCard.
  pose proof (sort_perm (MemStorage.byCreatedAtDesc Expense.createdAt)
                (JsMap.values (MemStorage.expenses s))) as P.
  pose proof (sort_desc Expense.createdAt (JsMap.values (MemStorage.expenses s)))
    as HS.
  fold (MemStorage.getAllExpenses s) in P.
  change (StronglySorted (fun a b => Expense.createdAt b <= Expense.createdAt a)
            (MemStorage.getAllExpenses s)) in HS.
  assert (L : List.length (MemStorage.getAllExpenses s)
              = List.length (MemStorage.expenses s)).
  { rewrite (Permutation_length P). unfold JsMap.values. apply length_map. }
  destruct (MemStorage.getAllExpenses s) as [|e0 l] eqn:E.
  - simpl. simpl in L. destruct (MemStorage.expenses s); [reflexivity|discriminate].
  - replace (0 <? Z.of_nat (List.length (e0 :: l))) with true
      by (symmetry; apply Z.ltb_lt; simpl; lia).
    split; [reflexivity|]. split; [discriminate|]. split.
    { rewrite length_firstn, L. reflexivity. }
    split.
    { unfold newestFirst.
      rewrite <- (firstn_skipn 3 (e0 :: l)) in HS.
      revert HS. generalize (firstn 3 (e0 :: l)) as a.
      induction a as [|x a IH]; intros HS; [constructor|].
      simpl in HS. inversion HS as [|? ? H1 H2]; subst.
      constructor; [now apply IH|].
      rewrite Forall_forall in *. intros y Iy. apply H2.
      apply in_or_app; now left. }
    intros e e' Ie Ie' Ne.
    apply (StronglySorted_firstn_skipn _ _ 3 e e' HS Ie).
    rewrite <- (firstn_skipn 3 (e0 :: l)) in Ie'.
    apply in_app_or in Ie'. destruct Ie' as [H|H]; [contradiction | exact H].
Qed.

(** ** The expanded dates *)

Lemma has_delete (s : JsSet.t) (k k' : string) :
  JsSet.has (JsSet.delete s k) k'
  = (negb (String.eqb k' k) && JsSet.has s k')%bool.
Proof.
  unfold JsSet.has, JsSet.delete. induction s as [|x s IH]; simpl.
  - now rewrite andb_false_r.
  - destruct (String.eqb_spec x k) as [E|N]; simpl.
    + rewrite IH. subst x.
      destruct (String.eqb_spec k' k) as [E'|N']; simpl; reflexivity.
    + rewrite IH. destruct (String.eqb_spec k' x) as [E''|N'']; simpl.
      * subst x. destruct (String.eqb_spec k' k); [contradiction | reflexivity].
      * reflexivity.
Qed.

Lemma has_add (s : JsSet.t) (k k' : string) :
  JsSet.has (JsSet.add s k) k' = (String.eqb k' k || JsSet.has s k')%bool.
Proof.
  unfold JsSet.add. destruct (JsSet.has s k) eqn:H.
  - destruct (String.eqb_spec k' k) as [->|N]; simpl; [exact H | reflexivity].
  - unfold JsSet.has. rewrite existsb_app. simpl.
    rewrite orb_false_r. apply orb_comm.
Qed.

(** X10.  A click on the header of a date expands that date when it is
    collapsed and collapses it when it is expanded, and leaves every other
    date as it is; a second click restores the state of every date.  The
    set keeps holding each date once. *)
Theorem toggle_expanded_date (expandedDates : JsSet.t) (dateKey : string) :
  JsSet.has (HomePage.toggleExpanded expandedDates dateKey) dateKey
  = negb (JsSet.has expandedDates dateKey)
  /\ (forall k, k <> dateKey ->
        JsSet.has (HomePage.toggleExpanded expandedDates dateKey) k
        = JsSet.has expandedDates k)
  /\ (forall k,
        JsSet.has (HomePage.toggleExpanded
                     (HomePage.toggleExpanded expandedDates dateKey) dateKey) k
        = JsSet.has expandedDates k)
  /\ (NoDup expandedDates ->
      NoDup (HomePage.toggleExpanded expandedDates dateKey)).
Proof.
  assert (T : forall s k', JsSet.has (HomePage.toggleExpanded s dateKey) k'
              = if String.eqb k' dateKey then negb (JsSet.has s dateKey)
                else JsSet.has s k').
  { intros s k'. unfold HomePage.toggleExpanded, JsSet.copy.
    destruct (JsSet.has s dateKey) eqn:H.
    - rewrite has_delete. now destruct (String.eqb k' dateKey).
    - rewrite has_add.
      destruct (String.eqb_spec k' dateKey) as [->|N]; simpl; [|reflexivity].
      reflexivity. }
  split; [rewrite T, String.eqb_refl; reflexivity|]. split.
  - intros k N. rewrite T. now destruct (String.eqb_spec k dateKey).
  - split.
    + intros k. rewrite !T.
      destruct (String.eqb_spec k dateKey) as [->|N]; [|reflexivity].
      rewrite String.eqb_refl. now rewrite negb_involutive.
    + intros ND. unfold HomePage.toggleExpanded, JsSet.copy, JsSet.add, JsSet.delete.
      destruct (JsSet.has expandedDates dateKey) eqn:H.
      * now apply NoDup_filter.
      * apply NoDup_app; [exact ND | repeat constructor; intros [] |].
        intros a Ia [<-|[]]. apply not_true_iff_false in H. apply H.
        now apply existsb_eqb_In.
Qed.

(** ** The test of an amount *)

Lemma ofZ_nonneg_cases (n : Z) :
  0 <= n < 2 ^ 53 ->
  (n = 0 /\ Js.ofZ n = Js.zero)
  \/ (0 < n /\ exists m e, Js.ofZ n = S754_finite false m e).
Proof.
  intros [H0 Hn]. destruct n as [|p|p]; [left; now split | right | lia].
  split; [lia|]. rewrite ofZ_pos by exact Hn. eauto.
Qed.

Lemma parseFloat_negated (a : string) :
  wholeNumber a = true ->
  Js.parseFloat (String "-"%char a) = SFopp (Js.ofZ (wholeValue a)).
Proof.
  destruct a as [|c r]; [discriminate|]; intros H.
  assert (Hc : Js.isDigit c = true) by (simpl in H; now apply andb_prop in H).
  unfold Js.parseFloat.
  rewrite (trimStart_ascii "-"%char (String c r)) by reflexivity.
  change (Js.sign (String "-"%char (String c r))) with (true, String c r).
  destruct (digit_head c r Hc) as [_ ->].
  rewrite digits_all by exact H.
  cbn [String.length Js.exponentPart].
  replace (0 + Z.of_nat (S (String.length r)) + 0 =? 0) with false
    by (symmetry; apply Z.eqb_neq; lia).
  unfold Js.ofDecimal, wholeValue, Js.ofZ.
  cbn [Z.sub Z.opp Z.leb Z.compare Z.add].
  now rewrite Z.pow_0_r, Z.mul_1_r.
Qed.

(** X11.  The test of the amount field of the two forms, on a whole number
    below 2^53: it accepts the amount exactly when it is not zero, and it
    rejects the amount preceded by a minus sign. *)
Theorem amount_accepted_iff_positive (a : string)
  (Hw : wholeNumber a = true) (Hb : wholeValue a < 2 ^ 53) :
  (HomePage.amountRefine a = true <-> 0 < wholeValue a)
  /\ HomePage.amountRefine (String "-"%char a) = false.
Proof.
  pose proof (wholeValue_nonneg a Hw) as H0.
  unfold HomePage.amountRefine.
  rewrite parseFloat_negated, parseFloat_whole by exact Hw.
  destruct (ofZ_nonneg_cases (wholeValue a) (conj H0 Hb))
    as [[E ->]|[P (m & e & ->)]].
  - split; [|reflexivity]. rewrite E. split; [discriminate | lia].
  - split; [|reflexivity]. split; [intros _; exact P | reflexivity].
Qed.

(** ** The layout of the report *)

Lemma placed_app (a b : list Pdf.Command) (p z : Z) :
  placed (a ++ b) p z = placed a p z ++ placed b (pageAfter a p) (sizeAfter a z).
Proof.
  revert p z; induction a as [|c a IH]; intros p z; [reflexivity|].
  destruct c; simpl; rewrite IH; reflexivity.
Qed.

Lemma pageAfter_app (a b : list Pdf.Command) (p : Z) :
  pageAfter (a ++ b) p = pageAfter b (pageAfter a p).
Proof.
  revert p; induction a as [|c a IH]; intros p; [reflexivity|].
  destruct c; simpl; now rewrite IH.
Qed.

Lemma upTo_trans (a b c : Z * Z) : upTo a b -> upTo b c -> upTo a c.
Proof. unfold upTo; lia. Qed.

Lemma StronglySorted_app {A : Type} (R : A -> A -> Prop) (l l' : list A) :
  StronglySorted R l -> StronglySorted R l' ->
  (forall a b, In a l -> In b l' -> R a b) ->
  StronglySorted R (l ++ l').
Proof.
  intros H H' X; induction H as [|x l Hl IH Hx]; simpl; [exact H'|].
  constructor.
  - apply IH. intros a b Ia Ib; apply X; [now right | exact Ib].
  - apply Forall_app; split; [exact Hx|].
    apply Forall_forall; intros b Ib; apply X; [now left | exact Ib].
Qed.

Lemma segment_app (a b : list Pdf.Command) (p y p1 y1 p2 y2 : Z) :
  segment a p y p1 y1 -> segment b p1 y1 p2 y2 ->
  segment (a ++ b) p y p2 y2.
Proof.
  intros (Pa & Ua & Ha) (Pb & Ub & Hb).
  split; [now rewrite pageAfter_app, Pa|].
  split; [exact (upTo_trans _ _ _ Ua Ub)|].
  intros size. rewrite placed_app, Pa.
  destruct (Ha size) as [Sa Fa].
  destruct (Hb (sizeAfter a size)) as [Sb Fb].
  rewrite Forall_forall in Fa, Fb.
  split.
  - apply StronglySorted_app; [exact Sa | exact Sb |].
    intros t t' It It'.
    destruct (Fa t It) as (_ & A1 & _). destruct (Fb t' It') as (B1 & _).
    unfold above, upTo in *; simpl in *; lia.
  - apply Forall_app; split; apply Forall_forall; intros t It.
    + destruct (Fa t It) as (A0 & A1 & A2 & A3).
      repeat split; try assumption. unfold upTo in *; simpl in *; lia.
    + destruct (Fb t It) as (B0 & B1 & B2 & B3).
      repeat split; try assumption. unfold upTo in *; simpl in *; lia.
Qed.

Lemma segment_widen (a : list Pdf.Command) (p y p' y' y'' : Z) :
  segment a p y p' y' -> y' <= y'' -> segment a p y p' y''.
Proof.
  intros (Pa & Ua & Ha) L.
  split; [exact Pa|]. split; [unfold upTo in *; simpl in *; lia|].
  intros size. destruct (Ha size) as [Sa Fa]. split; [exact Sa|].
  rewrite Forall_forall in *. intros t It.
  destruct (Fa t It) as (A0 & A1 & A2 & A3).
  repeat split; try assumption. lia.
Qed.

Lemma Some_eq {A : Type} (a b : A) : Some a = Some b -> a = b.
Proof. now intros [= ->]. Qed.

Lemma segment_nil (p y : Z) : segment [] p y p y.
Proof.
  split; [reflexivity|]. split; [unfold upTo; simpl; lia|].
  intros size; split; constructor.
Qed.

(** The calls of a few texts, each preceded by the calls that set its page
    and size. *)
Ltac few_texts :=
  split; [reflexivity|];
  split; [unfold upTo; simpl; lia|];
  intros ?size; split;
  [ repeat (apply SSorted_cons || apply SSorted_nil
            || apply Forall_cons || apply Forall_nil);
    unfold above; simpl; lia
  | repeat (apply Forall_cons || apply Forall_nil);
    unfold upTo; simpl; (repeat split); try lia; intros; lia ].

Lemma segment_pageBreak (limit p y : Z) :
  20 <= y ->
  let '(break, y1) := Report.pageBreak limit y in
  segment break p y (pageAfter break p) y1 /\ 20 <= y1 <= Z.max limit 20.
Proof.
  intros H. unfold Report.pageBreak.
  destruct (limit <? y) eqn:E.
  - split; [few_texts | lia].
  - apply Z.ltb_ge in E. split; [apply segment_nil | lia].
Qed.

Section Layout.
Variables (numberToString toLocaleString : Js.number -> string).

Lemma segment_entryLines (entries : list Customer.t) (i y0 p : Z) :
  0 <= i -> 20 <= y0 ->
  segment (Report.entryLines numberToString toLocaleString entries i y0)
          p (y0 + 32 + i * 8)
          p (y0 + 32 + (i + Z.of_nat (List.length entries)) * 8).
Proof.
  revert i; induction entries as [|e r IH]; intros i Hi Hy.
  - simpl. replace (i + 0) with i by lia. apply segment_nil.
  - cbn [Report.entryLines].
    apply (segment_app _ _ p _ p (y0 + 32 + (i + 1) * 8)).
    + few_texts.
    + replace (i + Z.of_nat (List.length (e :: r)))
        with (i + 1 + Z.of_nat (List.length r)) by (simpl List.length; lia).
      apply IH; lia.
Qed.

Lemma segment_groupBlock (g : PdfGroup.t) (index p y : Z) :
  20 <= y ->
  let '(calls, y') := Report.groupBlock numberToString toLocaleString g index y in
  segment calls p y (pageAfter calls p) y' /\ 20 <= y'.
Proof.
  intros Hy. unfold Report.groupBlock.
  pose proof (segment_pageBreak 240 p y Hy) as B.
  destruct (Report.pageBreak 240 y) as [brk y1]. destruct B as [Sb By].
  split; [|lia].
  rewrite pageAfter_app.
  apply (segment_app _ _ p y (pageAfter brk p) y1); [exact Sb|].
  set (p1 := pageAfter brk p).
  rewrite pageAfter_app.
  apply (segment_app _ _ p1 y1 p1 (y1 + 32 + 0 * 8)).
  - few_texts.
  - cbn [pageAfter].
    assert (P : forall es i q,
              pageAfter (Report.entryLines numberToString toLocaleString es i y1) q = q).
    { induction es as [|e r IH]; intros i q; [reflexivity|]. simpl. apply IH. }
    rewrite P.
    apply (segment_widen _ _ _ _
             (y1 + 32 + (0 + Z.of_nat (List.length (PdfGroup.entries g))) * 8));
      [|lia].
    apply segment_entryLines; lia.
Qed.

Lemma segment_groupBlocks (gs : list PdfGroup.t) (index p y : Z) :
  20 <= y ->
  let '(calls, y') := Report.groupBlocks numberToString toLocaleString gs index y in
  segment calls p y (pageAfter calls p) y' /\ 20 <= y'.
Proof.
  revert index p y; induction gs as [|g r IH]; intros index p y Hy.
  - simpl. split; [apply segment_nil | exact Hy].
  - cbn [Report.groupBlocks].
    pose proof (segment_groupBlock g index p y Hy) as B.
    destruct (Report.groupBlock numberToString toLocaleString g index y)
      as [calls y1]. destruct B as [S1 H1].
    specialize (IH (index + 1) (pageAfter calls p) y1 H1).
    destruct (Report.groupBlocks numberToString toLocaleString r (index + 1) y1)
      as [calls' y2]. destruct IH as [S2 H2].
    split; [|exact H2]. rewrite pageAfter_app.
    exact (segment_app _ _ _ _ _ _ _ _ S1 S2).
Qed.

Lemma segment_expenseLine (e : Expense.t) (index p y : Z) :
  20 <= y ->
  let '(calls, y') := Report.expenseLine numberToString toLocaleString e index y in
  segment calls p y (pageAfter calls p) y' /\ 20 <= y'.
Proof.
  intros Hy. unfold Report.expenseLine.
  pose proof (segment_pageBreak 250 p y Hy) as B.
  destruct (Report.pageBreak 250 y) as [brk y1]. destruct B as [Sb By].
  split; [|lia].
  rewrite pageAfter_app.
  apply (segment_app _ _ p y (pageAfter brk p) y1); [exact Sb|].
  few_texts.
Qed.

Lemma segment_expenseLines (es : list Expense.t) (index p y : Z) :
  20 <= y ->
  let '(calls, y') := Report.expenseLines numberToString toLocaleString es index y in
  segment calls p y (pageAfter calls p) y' /\ 20 <= y'.
Proof.
  revert index p y; induction es as [|e r IH]; intros index p y Hy.
  - simpl. split; [apply segment_nil | exact Hy].
  - cbn [Report.expenseLines].
    pose proof (segment_expenseLine e index p y Hy) as B.
    destruct (Report.expenseLine numberToString toLocaleString e index y)
      as [calls y1]. destruct B as [S1 H1].
    specialize (IH (index + 1) (pageAfter calls p) y1 H1).
    destruct (Report.expenseLines numberToString toLocaleString r (index + 1) y1)
      as [calls' y2]. destruct IH as [S2 H2].
    split; [|exact H2]. rewrite pageAfter_app.
    exact (segment_app _ _ _ _ _ _ _ _ S1 S2).
Qed.

Variables (dateTimeFormat toISOString : Z -> string).

(** The whole report is one segment, from the top of the first page. *)
Lemma segment_generatePDF (customers : list Customer.t)
  (expenses : list Expense.t) (summary : option Routes.Summary)
  (reportTime saveTime : Z) (calls : list Pdf.Command) :
  Report.generatePDF dateTimeFormat numberToString toLocaleString toISOString
    customers expenses summary reportTime saveTime = Some calls ->
  exists p' y', segment calls 1 20 p' y'.
Proof.
  unfold Report.generatePDF.
  destruct (Home.pdfGroups customers) as [groups|]; [|discriminate].
  pose proof (segment_groupBlocks groups 0 1 (50 + 15) ltac:(lia)) as B1.
  destruct (Report.groupBlocks numberToString toLocaleString groups 0 (50 + 15))
    as [blocks y1]. destruct B1 as [S1 H1].
  set (p1 := pageAfter blocks 1) in *.
  pose proof (segment_pageBreak 240 p1 (y1 + 10) ltac:(lia)) as B2.
  destruct (Report.pageBreak 240 (y1 + 10)) as [break1 y2].
  destruct B2 as [S2 H2]. set (p2 := pageAfter break1 p1) in *.
  pose proof (segment_expenseLines expenses 0 p2 (y2 + 15) ltac:(lia)) as B3.
  destruct (Report.expenseLines numberToString toLocaleString expenses 0 (y2 + 15))
    as [lines y3]. destruct B3 as [S3 H3].
  set (p3 := pageAfter lines p2) in *.
  pose proof (segment_pageBreak 240 p3 (y3 + 15) ltac:(lia)) as B4.
  destruct (Report.pageBreak 240 (y3 + 15)) as [break2 y4].
  destruct B4 as [S4 H4]. set (p4 := pageAfter break2 p3) in *.
  intros E. apply Some_eq in E. subst calls. exists p4, (y4 + 40).
  apply (segment_app _ _ 1 20 1 50); [few_texts|].
  apply (segment_app _ _ 1 50 1 (50 + 15)); [few_texts|].
  apply (segment_app _ _ 1 (50 + 15) p1 (y1 + 10));
    [apply (segment_widen _ _ _ _ y1); [exact S1 | lia]|].
  apply (segment_app _ _ p1 (y1 + 10) p2 y2); [exact S2|].
  apply (segment_app _ _ p2 y2 p2 (y2 + 15)); [few_texts|].
  apply (segment_app _ _ p2 (y2 + 15) p3 (y3 + 15));
    [apply (segment_widen _ _ _ _ y3); [exact S3 | lia]|].
  apply (segment_app _ _ p3 (y3 + 15) p4 y4); [exact S4|].
  apply (segment_app _ _ p4 y4 p4 (y4 + 15)); [few_texts|].
  apply (segment_app _ _ p4 (y4 + 15) p4 (y4 + 40)); [few_texts|].
  few_texts.
Qed.

End Layout.

(** X12.  Whenever the report is produced, its texts are drawn in reading
    order: each text is on a later page than the text drawn before it, or
    lower on the same page; so that no two texts are drawn at one place.
    The report is produced exactly when no customer name is the name of an
    inherited property. *)
Theorem report_in_reading_order
  (dateTimeFormat : Z -> string) (numberToString toLocaleString : Js.number -> string)
  (toISOString : Z -> string)
  (customers : list Customer.t) (expenses : list Expense.t)
  (summary : option Routes.Summary) (reportTime saveTime : Z)
  (Hn : noInheritedKey Customer.name customers) :
  exists calls,
    Report.generatePDF dateTimeFormat numberToString toLocaleString toISOString
      customers expenses summary reportTime saveTime = Some calls
    /\ forall size, StronglySorted above (placed calls 1 size).
Proof.
  destruct (groupBy_total Customer.name Home.pdfNewGroup Home.pdfAddEntry
              customers Hn) as [o E].
  rewrite <- pdfStep_shape in E. fold (Home.groupedCustomers customers) in E.
  destruct (Report.generatePDF dateTimeFormat numberToString toLocaleString
              toISOString customers expenses summary reportTime saveTime)
    as [calls|] eqn:G.
  - exists calls. split; [reflexivity|]. intros size.
    destruct (segment_generatePDF _ _ _ _ _ _ _ _ _ _ G) as (p' & y' & _ & _ & H).
    exact (proj1 (H size)).
  - exfalso. unfold Report.generatePDF, Home.pdfGroups in G. rewrite E in G.
    cbn [option_map] in G.
    destruct (Report.groupBlocks _ _ _ _ _) as [? ?].
    destruct (Report.pageBreak 240 _) as [? ?].
    destruct (Report.expenseLines _ _ _ _ _) as [? ?].
    destruct (Report.pageBreak 240 _) as [? ?].
    discriminate.
Qed.

(** X13.  In a report that is produced, every text is on a page from the
    first on and at a height of 20 at least, and every text not of font
    size 8, the size of the lines of the entries, is at a height of 279 at
    most: so are the headings, the lines of a group above its entries, the
    lines of the expenses and the totals. *)
Theorem report_text_bounds
  (dateTimeFormat : Z -> string) (numberToString toLocaleString : Js.number -> string)
  (toISOString : Z -> string)
  (customers : list Customer.t) (expenses : list Expense.t)
  (summary : option Routes.Summary) (reportTime saveTime : Z)
  (calls : list Pdf.Command)
  (G : Report.generatePDF dateTimeFormat numberToString toLocaleString toISOString
         customers expenses summary reportTime saveTime = Some calls) :
  forall size t, In t (placed calls 1 size) ->
    1 <= page t /\ 20 <= top t /\ (fontSize t <> 8 -> top t <= 279).
Proof.
  intros size t It.
  destruct (segment_generatePDF _ _ _ _ _ _ _ _ _ _ G) as (p' & y' & _ & _ & H).
  destruct (H size) as [_ F]. rewrite Forall_forall in F.
  destruct (F t It) as (U & _ & L & B).
  split; [unfold upTo in U; simpl in U; lia|]. split; [exact L | exact B].
Qed.

(** ** The entries of a group are not moved to a new page *)

Section EntryLines.
Variables (numberToString toLocaleString : Js.number -> string).

Lemma entryLines_placed (es : list Customer.t) (i0 y p z : Z) (j : nat) :
  (j < List.length es)%nat ->
  exists s,
    In (mkPlaced p 8 (y + 32 + (i0 + Z.of_nat j) * 8) s)
       (placed (Report.entryLines numberToString toLocaleString es i0 y) p z).
Proof.
  revert i0 z j; induction es as [|e r IH]; intros i0 z j Hj; [simpl in Hj; lia|].
  cbn [Report.entryLines app placed].
  destruct j as [|j].
  - eexists. left. f_equal. simpl; lia.
  - destruct (IH (i0 + 1) 8 j) as [s Hs]; [simpl in Hj; lia|].
    exists s. right.
    replace (i0 + Z.of_nat (S j)) with (i0 + 1 + Z.of_nat j) by lia.
    exact Hs.
Qed.

End EntryLines.

Lemma first_pdf_group (c : Customer.t) (rest : list Customer.t) :
  noInheritedKey Customer.name (c :: rest) ->
  Forall (fun x => JsObject.arrayIndex (Customer.name x) = None) (c :: rest) ->
  exists g gs,
    Home.pdfGroups (c :: rest) = Some (g :: gs)
    /\ PdfGroup.entries g = withKey Customer.name (Customer.name c) (c :: rest).
Proof.
  intros Hn Hp.
  destruct (groupBy_total Customer.name Home.pdfNewGroup Home.pdfAddEntry
              (c :: rest) Hn) as [o E].
  pose proof (groupBy_keys _ _ _ _ _ E) as K.
  rewrite <- pdfStep_shape in E. fold (Home.groupedCustomers (c :: rest)) in E.
  destruct (groupedCustomers_groups _ o E) as (_ & Hg & _).
  unfold Home.pdfGroups. rewrite E. cbn [option_map].
  assert (Eo : JsObject.entries o = o).
  { apply entries_creation_order. apply Forall_forall. intros [k g] I.
    assert (Ik : In k (map fst o))
      by (change k with (fst (k, g)); now apply in_map).
    rewrite K in Ik. apply distinct_In, in_map_iff in Ik.
    destruct Ik as [x [<- Ix]]. simpl.
    exact (proj1 (Forall_forall _ _) Hp x Ix). }
  unfold JsObject.values. rewrite Eo.
  destruct o as [|[k g] o']; [discriminate K|].
  simpl in K. injection K as Ek _. subst k.
  exists g, (map snd o'). split; [reflexivity|].
  now destruct (Hg (Customer.name c) g (or_introl eq_refl)) as (_ & Ee & _).
Qed.

(** X14.  The entries of the first group of the report (the group of the
    first customer's name, no name being an array index) are all drawn on
    the first page, the entry number [j], counted from 0, at the height
    [97 + 8 j], however many they are: the report breaks the page between
    groups only, never inside one. *)
Theorem first_group_entries_on_first_page
  (dateTimeFormat : Z -> string) (numberToString toLocaleString : Js.number -> string)
  (toISOString : Z -> string)
  (c : Customer.t) (rest : list Customer.t) (expenses : list Expense.t)
  (summary : option Routes.Summary) (reportTime saveTime : Z)
  (Hn : noInheritedKey Customer.name (c :: rest))
  (Hp : Forall (fun x => JsObject.arrayIndex (Customer.name x) = None) (c :: rest)) :
  exists calls,
    Report.generatePDF dateTimeFormat numberToString toLocaleString toISOString
      (c :: rest) expenses summary reportTime saveTime = Some calls
    /\ forall size j,
         (j < List.length (withKey Customer.name (Customer.name c) (c :: rest)))%nat ->
         exists s,
           In (mkPlaced 1 8 (97 + 8 * Z.of_nat j) s) (placed calls 1 size).
Proof.
  destruct (first_pdf_group c rest Hn Hp) as (g & gs & Eg & Ee).
  unfold Report.generatePDF. rewrite Eg.
  cbn [Report.groupBlocks].
  unfold Report.groupBlock at 1.
  change (Report.pageBreak 240 (50 + 15)) with (@nil Pdf.Command, 65).
  cbv iota beta.
  destruct (Report.groupBlocks _ _ gs _ _) as [blocks' y1].
  destruct (Report.pageBreak 240 _) as [break1 y2].
  destruct (Report.expenseLines _ _ _ _ _) as [lines y3].
  destruct (Report.pageBreak 240 _) as [break2 y4].
  eexists. split; [reflexivity|].
  intros size j Hj. rewrite <- Ee in Hj.
  rewrite placed_app. cbn [placed pageAfter sizeAfter app].
  destruct (entryLines_placed numberToString toLocaleString
              (PdfGroup.entries g) 0 65 1 10 j Hj) as [s Hs].
  exists s. right. right. right. right. right. right. right.
  rewrite <- app_assoc. rewrite placed_app. apply in_or_app. left.
  replace (97 + 8 * Z.of_nat j) with (65 + 32 + (0 + Z.of_nat j) * 8) by lia.
  exact Hs.
Qed.

(** ** Products of integers held in numbers *)

Section Binary64Mul.

(** The integer [n < 2^53], given as a mantissa [n * 2^k] of 53 bits or
    more with the exponent [-k], rounds to itself. *)
Lemma round_aux_int (s : bool) (n q : positive) (k : Z) :
  0 <= k -> Zpos n < 2 ^ 53 -> Zpos q = Zpos n * 2 ^ k ->
  53 - Zpos (digits2_pos n) <= k ->
  binary_round_aux Js.prec Js.emax s (Zpos q) (- k) loc_Exact
  = S754_finite s (Z.to_pos (Zpos n * 2 ^ (53 - Zpos (digits2_pos n))))
                (Zpos (digits2_pos n) - 53).
Proof.
  intros Hk Hn Hq Hs.
  pose proof (digits2_le_53 n Hn) as Hd.
  set (d := Zpos (digits2_pos n)) in *.
  assert (Hpos : 0 < Zpos n * 2 ^ (53 - d))
    by (apply Z.mul_pos_pos; [lia | apply Z.pow_pos_nonneg; lia]).
  assert (HM : Zpos (digits2_pos (Z.to_pos (Zpos n * 2 ^ (53 - d)))) = 53).
  { rewrite (digits2_shift n _ (53 - d)); [fold d; lia | lia |].
    rewrite Z2Pos.id; [reflexivity | exact Hpos]. }
  assert (Hdq : Zpos (digits2_pos q) = d + k) by (now apply digits2_shift).
  apply round_aux_step; [|exact HM|lia].
  unfold shr_fexp; cbn [Zdigits2]. rewrite Hdq.
  replace (d + k + - k) with d by lia. rewrite fexp_small by lia.
  destruct (d - 53 - - k) as [|j|j] eqn:Ej; [| |lia].
  - cbn [shr shr_record_of_loc].
    replace (- k) with (d - 53) by lia.
    unfold exactRecord; rewrite Z2Pos.id by exact Hpos.
    rewrite Hq; replace k with (53 - d) by lia; reflexivity.
  - cbn [shr shr_record_of_loc].
    fold (exactRecord (Zpos q)).
    replace (Zpos q) with ((Zpos n * 2 ^ (53 - d)) * 2 ^ Zpos j).
    + rewrite iter_shr_exact by lia.
      rewrite Z2Pos.id by exact Hpos. f_equal; lia.
    + rewrite Hq, <- Z.mul_assoc, <- Z.pow_add_r by lia. f_equal; f_equal; lia.
Qed.

Lemma digits2_mono (p q : positive) :
  Zpos p <= Zpos q -> Zpos (digits2_pos p) <= Zpos (digits2_pos q).
Proof.
  intros H. pose proof (digits2_bounds p) as [L _].
  pose proof (digits2_bounds q) as [_ U].
  assert (X : 2 ^ (Zpos (digits2_pos p) - 1) < 2 ^ Zpos (digits2_pos q)) by lia.
  apply Z.pow_lt_mono_r_iff in X; lia.
Qed.

(** Two non-negative integers whose product is below 2^53 are multiplied
    exactly. *)
Lemma mul_ofZ (a b : Z) :
  0 <= a < 2 ^ 53 -> 0 <= b < 2 ^ 53 -> a * b < 2 ^ 53 ->
  JsNumber.mul (Js.ofZ a) (Js.ofZ b) = Js.ofZ (a * b).
Proof.
  intros Ha Hb Hab.
  destruct a as [|pa|pa]; [|destruct b as [|pb|pb]|]; try lia.
  - destruct b as [|pb|pb]; [reflexivity| |lia].
    rewrite Z.mul_0_l, ofZ_pos by lia. reflexivity.
  - rewrite Z.mul_0_r, ofZ_pos by lia. reflexivity.
  - assert (Ba : Zpos pa < 2 ^ 53) by lia.
    assert (Bb : Zpos pb < 2 ^ 53) by lia.
    pose proof (digits2_le_53 pa Ba) as Hda.
    pose proof (digits2_le_53 pb Bb) as Hdb.
    rewrite (ofZ_pos pa), (ofZ_pos pb) by assumption.
    change (Zpos pa * Zpos pb) with (Zpos (pa * pb)) in *.
    rewrite (ofZ_pos (pa * pb)) by exact Hab.
    pose proof (digits2_mono pa (pa * pb) ltac:(nia)) as Ma.
    set (da := Zpos (digits2_pos pa)) in *.
    set (db := Zpos (digits2_pos pb)) in *.
    assert (Pa : 0 < Zpos pa * 2 ^ (53 - da))
      by (apply Z.mul_pos_pos; [lia | apply Z.pow_pos_nonneg; lia]).
    assert (Pb : 0 < Zpos pb * 2 ^ (53 - db))
      by (apply Z.mul_pos_pos; [lia | apply Z.pow_pos_nonneg; lia]).
    unfold JsNumber.mul, SFmul. cbn [xorb].
    replace (da - 53 + (db - 53)) with (- (106 - da - db)) by lia.
    apply round_aux_int; [lia | exact Hab | | lia].
    rewrite Pos2Z.inj_mul, !Z2Pos.id by assumption.
    change (Zpos (pa * pb)) with (Zpos pa * Zpos pb).
    replace (106 - da - db) with ((53 - da) + (53 - db)) by lia.
    rewrite Z.pow_add_r by lia. ring.
Qed.

End Binary64Mul.

(** ** Strings *)

Lemma sapp_assoc (a b c : string) : ((a ++ b) ++ c = a ++ (b ++ c))%string.
Proof. induction a as [|x a IH]; simpl; [reflexivity | now rewrite IH]. Qed.

Lemma sapp_nil_r (a : string) : (a ++ "" = a)%string.
Proof. induction a as [|x a IH]; simpl; [reflexivity | now rewrite IH]. Qed.

Lemma allDigits_app (a b : string) :
  allDigits (a ++ b) = (allDigits a && allDigits b)%bool.
Proof.
  induction a as [|x a IH]; simpl; [reflexivity|].
  now rewrite IH, andb_assoc.
Qed.

Lemma digitsValue_app (a b : string) (acc : Z) :
  digitsValue (a ++ b) acc = digitsValue b (digitsValue a acc).
Proof. revert acc; induction a as [|x a IH]; intros acc; simpl; [reflexivity | apply IH]. Qed.

Lemma digit_not_dot (c : ascii) : Js.isDigit c = true -> c <> "."%char.
Proof. intros H ->. vm_compute in H. discriminate. Qed.

Lemma indexOf_no_dot (s : string) : allDigits s = true -> indexOf s "." = -1.
Proof.
  unfold indexOf. intros H.
  assert (E : String.index 0 "." s = None).
  { revert H. induction s as [|c r IH]; intros H; [reflexivity|].
    simpl in H. apply andb_prop in H. destruct H as [Hc Hr].
    specialize (IH Hr).
    change (String.index 0 "." (String c r))
      with (if prefix "." (String c r) then Some O
            else match String.index 0 "." r with
                 | Some n => Some (S n)
                 | None => None
                 end).
    rewrite IH. cbn [prefix].
    destruct (ascii_dec "." c) as [E|N]; [|reflexivity].
    symmetry in E. now apply digit_not_dot in Hc. }
  now rewrite E.
Qed.

Lemma indexOf_dot (ip fp : string) : indexOf (ip ++ "." ++ fp)%string "." <> -1.
Proof.
  unfold indexOf.
  assert (E : exists n, String.index 0 "." (ip ++ "." ++ fp)%string = Some n).
  { induction ip as [|c r IH].
    - exists O. cbn. destruct fp; reflexivity.
    - destruct IH as [n IH].
      change (String.index 0 "." (String c r ++ "." ++ fp)%string)
        with (if prefix "." (String c (r ++ "." ++ fp)%string) then Some O
              else match String.index 0 "." (r ++ "." ++ fp)%string with
                   | Some n => Some (S n)
                   | None => None
                   end).
      rewrite IH. destruct (prefix "." (String c (r ++ "." ++ fp)%string)); eauto. }
  destruct E as [n ->]. lia.
Qed.

(** ** The calculator *)

Section CalculatorFacts.
Import Calculator.
Variable toString : Js.number -> string.

Lemma digitString_whole (d : Digit) :
  wholePart (digitString d) /\ wholeValue (digitString d) = digitValue d
  /\ exists c, digitString d = String c "" /\ Js.isDigit c = true.
Proof.
  destruct d; (split; [split; [reflexivity|]|split; [reflexivity|eexists; split; reflexivity]]);
    try (left; reflexivity);
    right; eexists; eexists; (split; [reflexivity | discriminate]).
Qed.

Lemma wholePart_app_digit (ip : string) (d : Digit) :
  wholePart ip -> ip <> "0" -> wholePart (ip ++ digitString d).
Proof.
  intros [W [E|(c & r & E & N)]] H; [contradiction|]. subst ip.
  split.
  - change (allDigits (String c r ++ digitString d) = true).
    change (allDigits (String c r) = true) in W.
    rewrite allDigits_app, W. now destruct d.
  - right. exists c, (r ++ digitString d)%string. split; [reflexivity | exact N].
Qed.

Lemma typedLiteral_inputNumber (disp : string) (d : Digit) :
  typedLiteral disp ->
  typedLiteral (if String.eqb disp "0" then digitString d
                else (disp ++ digitString d)%string).
Proof.
  intros (ip & Wp & [->|(fp & Hf & ->)]).
  - destruct (String.eqb_spec ip "0") as [E|N].
    + exists (digitString d). split; [apply digitString_whole | now left].
    + exists (ip ++ digitString d)%string. split; [|now left].
      now apply wholePart_app_digit.
  - assert (N : (ip ++ "." ++ fp)%string <> "0").
    { destruct Wp as [W _]. destruct ip as [|c r]; [discriminate W|].
      simpl. intros [= _ E]. destruct r; discriminate E. }
    apply String.eqb_neq in N. rewrite N.
    exists ip. split; [exact Wp|]. right.
    exists (fp ++ digitString d)%string. split.
    + rewrite allDigits_app, Hf. now destruct d.
    + now rewrite !sapp_assoc.
Qed.

Lemma typedLiteral_inputDot (disp : string) :
  typedLiteral disp ->
  typedLiteral (if indexOf disp "." =? -1 then (disp ++ ".")%string else disp).
Proof.
  intros (ip & Wp & [->|(fp & Hf & ->)]).
  - assert (A : allDigits ip = true).
    { destruct Wp as [W _]. destruct ip; [discriminate W | exact W]. }
    rewrite (indexOf_no_dot ip A). simpl.
    exists ip. split; [exact Wp|]. right. exists "". split; [reflexivity|].
    reflexivity.
  - pose proof (indexOf_dot ip fp) as N. apply Z.eqb_neq in N. rewrite N.
    exists ip. split; [exact Wp|]. right. now exists fp.
Qed.

Lemma entering_press (b : Button) (st : State) :
  entering st -> entering (press toString b st).
Proof.
  intros I. destruct b as [d| | |o|]; simpl.
  - unfold inputNumber. destruct (waitingForNewValue st) eqn:W.
    + right. simpl. exists (digitString d). split; [apply digitString_whole | now left].
    + right. simpl. destruct I as [I|I]; [congruence|].
      now apply typedLiteral_inputNumber.
  - unfold inputDot. destruct (waitingForNewValue st) eqn:W.
    + right. simpl. exists "0". split; [split; [reflexivity | now left]|].
      right. exists "". now split.
    + destruct I as [I|I]; [congruence|].
      pose proof (typedLiteral_inputDot _ I) as T.
      destruct (indexOf (display st) "." =? -1); right; [exact T | exact I].
  - right. simpl. exists "0". split; [split; [reflexivity | now left] | now left].
  - left. unfold performOperation.
    destruct (previousValue st); [|reflexivity].
    destruct (operation st) as [op|]; [|reflexivity].
    now destruct (truthyString op).
  - unfold handleEquals.
    destruct (previousValue st); [|exact I].
    destruct (operation st) as [op|]; [|exact I].
    destruct (truthyString op); [now left | exact I].
Qed.

Lemma entering_run (buttons : list Button) (st : State) :
  entering st -> entering (run toString buttons st).
Proof.
  revert st; induction buttons as [|b r IH]; intros st I; [exact I|].
  simpl. apply IH. now apply entering_press.
Qed.

End CalculatorFacts.

(** ** The number read from a display that is being typed *)

Section RoundSign.

Lemma shr_1_nonneg (mrs : shr_record) : 0 <= shr_m mrs -> 0 <= shr_m (shr_1 mrs).
Proof. destruct mrs as [m r s]; destruct m as [|[p|p|]|p]; simpl; lia. Qed.

Lemma iter_shr_nonneg (p : positive) (mrs : shr_record) :
  0 <= shr_m mrs -> 0 <= shr_m (iter_pos shr_1 p mrs).
Proof.
  revert mrs; induction p as [p IH|p IH|]; intros mrs H; simpl.
  - apply IH, IH. now apply shr_1_nonneg.
  - now apply IH, IH.
  - now apply shr_1_nonneg.
Qed.

Lemma shr_fexp_nonneg (m e : Z) (l : location) :
  0 <= m -> 0 <= shr_m (fst (shr_fexp Js.prec Js.emax m e l)).
Proof.
  intros H. unfold shr_fexp, shr.
  assert (R : 0 <= shr_m (shr_record_of_loc m l)) by (destruct l as [|[]]; exact H).
  destruct (fexp Js.prec Js.emax (Zdigits2 m + e) - e); cbn [fst];
    [exact R | now apply iter_shr_nonneg | exact R].
Qed.

Lemma round_nearest_even_nonneg (m : Z) (l : location) :
  0 <= m -> 0 <= round_nearest_even m l.
Proof.
  intros H. destruct l as [|[]]; simpl; try lia.
  destruct (Z.even m); lia.
Qed.

Lemma round_aux_sign (s : bool) (m e : Z) (l : location) :
  0 <= m -> hasSign s (binary_round_aux Js.prec Js.emax s m e l).
Proof.
  intros H. unfold binary_round_aux.
  pose proof (shr_fexp_nonneg m e l H) as H1.
  destruct (shr_fexp Js.prec Js.emax m e l) as [mrs' e']. cbn [fst] in H1.
  pose proof (shr_fexp_nonneg _ e' loc_Exact
                (round_nearest_even_nonneg _ (loc_of_shr_record mrs') H1)) as H2.
  destruct (shr_fexp Js.prec Js.emax _ e' loc_Exact) as [mrs'' e'']. cbn [fst] in H2.
  destruct (shr_m mrs'') as [|q|q]; [reflexivity | | lia].
  destruct (e'' <=? Js.emax - Js.prec); reflexivity.
Qed.

Lemma ofDecimal_sign (m e : Z) : 0 <= m -> hasSign false (Js.ofDecimal false m e).
Proof.
  intros H. unfold Js.ofDecimal. destruct (0 <=? e) eqn:E.
  - unfold binary_normalize.
    assert (P : 0 <= m * 10 ^ e)
      by (apply Z.mul_nonneg_nonneg; [exact H | apply Z.pow_nonneg; lia]).
    destruct (m * 10 ^ e) as [|q|q]; [reflexivity | | lia].
    unfold binary_round.
    destruct (shl_align q 0 _) as [mz ez]. apply round_aux_sign. lia.
  - apply Z.leb_gt in E. unfold SFdiv_core_binary.
    set (s := 0 - 0 - _).
    set (m' := match s with Z.pos _ => Z.shiftl m s | 0 => m | Z.neg _ => 0 end).
    assert (Hm' : 0 <= m').
    { subst m'. destruct s; [exact H | apply Z.shiftl_nonneg; exact H | lia]. }
    assert (D : 0 < 10 ^ (- e)) by (apply Z.pow_pos_nonneg; lia).
    pose proof (Z.div_pos m' (10 ^ (- e)) Hm' D) as Q.
    unfold Z.div in Q.
    destruct (Z.div_eucl m' (10 ^ (- e))) as [q r]. cbn [fst] in Q.
    now apply round_aux_sign.
Qed.

End RoundSign.

Lemma digits_stop (ip rest : string) (acc n : Z) :
  allDigits ip = true ->
  match rest with
  | EmptyString => True
  | String c _ => Js.isDigit c = false
  end ->
  Js.digits (ip ++ rest) acc n
  = (digitsValue ip acc, n + Z.of_nat (String.length ip), rest).
Proof.
  revert acc n; induction ip as [|c r IH]; intros acc n H R.
  - simpl. replace (n + 0) with n by lia.
    destruct rest as [|c r]; [reflexivity|]. simpl. now rewrite R.
  - simpl in H. apply andb_prop in H. destruct H as [Hc Hr].
    cbn [append Js.digits digitsValue String.length]. rewrite Hc.
    rewrite IH by assumption. f_equal; f_equal; lia.
Qed.

(** The number read from a typed display is not [NaN] and not negative. *)
Lemma typedLiteral_parseFloat (d : string) :
  typedLiteral d -> hasSign false (Js.parseFloat d).
Proof.
  intros (ip & [W _] & Hd).
  destruct ip as [|c r]; [discriminate W|].
  assert (Hc : Js.isDigit c = true) by (simpl in W; now apply andb_prop in W).
  change (allDigits (String c r) = true) in W.
  assert (E : exists rest,
             d = (String c r ++ rest)%string
             /\ (rest = ""
                 \/ exists fp, allDigits fp = true /\ rest = String "."%char fp)).
  { destruct Hd as [->|(fp & Hf & ->)].
    - exists "". split; [now rewrite sapp_nil_r | now left].
    - exists ("." ++ fp)%string. split; [reflexivity | right; now exists fp]. }
  destruct E as (rest & -> & Hr).
  unfold Js.parseFloat.
  change (String c r ++ rest)%string with (String c (r ++ rest)%string).
  rewrite (trimStart_digit c (r ++ rest) Hc).
  destruct (digit_head c (r ++ rest) Hc) as [-> ->].
  change (String c (r ++ rest)%string) with (String c r ++ rest)%string.
  rewrite (digits_stop (String c r) rest 0 0 W)
    by (destruct Hr as [->|(fp & _ & ->)]; [exact I | reflexivity]).
  assert (V : 0 <= digitsValue (String c r) 0)
    by (apply digitsValue_bounds; [exact W | lia]).
  destruct Hr as [->|(fp & Hf & ->)].
  - replace (0 + Z.of_nat (String.length (String c r)) + 0 =? 0) with false
      by (symmetry; apply Z.eqb_neq; simpl String.length; lia).
    now apply ofDecimal_sign.
  - rewrite digits_all by exact Hf.
    replace (0 + Z.of_nat (String.length (String c r))
             + (0 + Z.of_nat (String.length fp)) =? 0) with false
      by (symmetry; apply Z.eqb_neq; simpl String.length; lia).
    apply ofDecimal_sign.
    pose proof (digitsValue_bounds fp _ Hf V). lia.
Qed.

Lemma or_zero_hasSign (x : Js.number) :
  hasSign false x -> JsNumber.or x Js.zero = x.
Proof.
  destruct x as [s|s| |s m e]; simpl; intros H; try reflexivity; try contradiction.
  now subst s.
Qed.

Section CalculatorRuns.
Import Calculator.
Variable toString : Js.number -> string.

Lemma run_app (a b : list Button) (st : State) :
  run toString (a ++ b) st = run toString b (run toString a st).
Proof. unfold run. apply fold_left_app. Qed.

Lemma state_eq (st : State) (d : string) (p : option Js.number)
  (o : option string) (w : bool) :
  display st = d -> previousValue st = p -> operation st = o ->
  waitingForNewValue st = w -> st = mkState d p o w.
Proof. destruct st; simpl; intros; now subst. Qed.

(** The first digit or point pressed while a result is shown starts the
    display as on the calculator just opened. *)
Lemma entry_first (e : Entry) (st : State) :
  waitingForNewValue st = true ->
  press toString (entryButton e) st
  = mkState (display (press toString (entryButton e) initial))
            (previousValue st) (operation st) false.
Proof.
  intros W. destruct e as [d|]; simpl.
  - unfold inputNumber. rewrite W. reflexivity.
  - unfold inputDot. rewrite W. reflexivity.
Qed.

(** The digits and the point change the display only, and by what it
    shows only. *)
Lemma entry_frame (es : list Entry) (st st' : State) :
  waitingForNewValue st = false -> waitingForNewValue st' = false ->
  display st = display st' ->
  display (run toString (map entryButton es) st)
  = display (run toString (map entryButton es) st')
  /\ waitingForNewValue (run toString (map entryButton es) st) = false
  /\ previousValue (run toString (map entryButton es) st) = previousValue st
  /\ operation (run toString (map entryButton es) st) = operation st.
Proof.
  revert st st'; induction es as [|e es IH]; intros st st' W W' D.
  - simpl. now repeat split.
  - cbn [map run fold_left]. fold (run toString).
    assert (S : display (press toString (entryButton e) st)
                = display (press toString (entryButton e) st')
                /\ waitingForNewValue (press toString (entryButton e) st) = false
                /\ waitingForNewValue (press toString (entryButton e) st') = false
                /\ previousValue (press toString (entryButton e) st) = previousValue st
                /\ operation (press toString (entryButton e) st) = operation st).
    { destruct e as [d|]; simpl.
      - unfold inputNumber. rewrite W, W', D. simpl. now repeat split.
      - unfold inputDot. rewrite W, W', D.
        destruct (indexOf (display st') "." =? -1); simpl; now repeat split. }
    destruct S as (S1 & S2 & S3 & S4 & S5).
    change (fold_left (fun st b => press toString b st) (map entryButton es))
      with (run toString (map entryButton es)).
    destruct (IH _ _ S2 S3 S1) as (I1 & I2 & I3 & I4).
    split; [exact I1|]. split; [exact I2|]. split; congruence.
Qed.

(** A number entered while a result is shown: the display is what the
    calculator just opened would show, the rest of the state stays. *)
Lemma entered_after_result (e : Entry) (es : list Entry) (st : State) :
  waitingForNewValue st = true ->
  run toString (map entryButton (e :: es)) st
  = mkState (entered toString (e :: es))
            (previousValue st) (operation st) false.
Proof.
  intros W. unfold entered. cbn [map run fold_left].
  change (fold_left (fun st b => press toString b st) (map entryButton es))
    with (run toString (map entryButton es)).
  rewrite (entry_first e st W).
  set (s1 := mkState _ (previousValue st) (operation st) false).
  assert (W1 : waitingForNewValue (press toString (entryButton e) initial) = false).
  { destruct e as [d|]; reflexivity. }
  destruct (entry_frame es s1 (press toString (entryButton e) initial)
              eq_refl W1 eq_refl) as (I1 & I2 & I3 & I4).
  now apply state_eq.
Qed.

Lemma entered_at_start (e : Entry) (es : list Entry) :
  run toString (map entryButton (e :: es)) initial
  = mkState (entered toString (e :: es)) None None false.
Proof.
  unfold entered.
  destruct (entry_frame (e :: es) initial initial eq_refl eq_refl eq_refl)
    as (_ & I2 & I3 & I4).
  now apply state_eq.
Qed.

Lemma entered_typed (es : list Entry) : typedLiteral (entered toString es).
Proof.
  unfold entered.
  assert (I : entering initial).
  { right. exists "0". split; [split; [reflexivity | now left] | now left]. }
  pose proof (entering_run toString (map entryButton es) initial I) as [H|H];
    [|exact H].
  destruct (entry_frame es initial initial eq_refl eq_refl eq_refl)
    as (_ & I2 & _). congruence.
Qed.

Lemma operator_truthy (o : Operator) : truthyString (operatorString o) = true.
Proof. now destruct o. Qed.

Lemma run_one (b : Button) (st : State) : run toString [b] st = press toString b st.
Proof. reflexivity. Qed.

Lemma press_op_first (d : string) (o : Operator) (w : bool) :
  press toString (Op o) (mkState d None None w)
  = mkState d (Some (Js.parseFloat d)) (Some (operatorString o)) true.
Proof. reflexivity. Qed.

Lemma press_op_next (d : string) (pv : Js.number) (o1 o2 : Operator) (w : bool) :
  press toString (Op o2) (mkState d (Some pv) (Some (operatorString o1)) w)
  = mkState (toString (calculate (JsNumber.or pv Js.zero) (Js.parseFloat d)
                                 (operatorString o1)))
            (Some (calculate (JsNumber.or pv Js.zero) (Js.parseFloat d)
                             (operatorString o1)))
            (Some (operatorString o2)) true.
Proof.
  cbn [press]. unfold performOperation.
  cbn [previousValue operation display]. now rewrite operator_truthy.
Qed.

Lemma press_equals (d : string) (pv : Js.number) (o : Operator) (w : bool) :
  press toString Equals (mkState d (Some pv) (Some (operatorString o)) w)
  = mkState (toString (calculate pv (Js.parseFloat d) (operatorString o)))
            None None true.
Proof.
  cbn [press]. unfold handleEquals.
  cbn [previousValue operation display]. now rewrite operator_truthy.
Qed.

End CalculatorRuns.

(** X15.  Whatever buttons are pressed on the calculator, it either shows a
    result and waits for a new number, or its display is a number being
    typed: digits with no superfluous zero in front, alone or followed by
    one point and digits; never an empty display, a second point or a
    sign.  The number read from such a display is not NaN and not
    negative. *)
Theorem calculator_display_well_formed (toString : Js.number -> string)
  (buttons : list Calculator.Button) :
  let st := Calculator.run toString buttons Calculator.initial in
  (Calculator.waitingForNewValue st = true
   \/ typedLiteral (Calculator.display st))
  /\ (Calculator.waitingForNewValue st = true
      \/ hasSign false (Js.parseFloat (Calculator.display st))).
Proof.
  cbv zeta.
  assert (I : entering Calculator.initial).
  { right. exists "0". split; [split; [reflexivity | now left] | now left]. }
  pose proof (entering_run toString buttons Calculator.initial I) as H.
  split; [exact H|].
  destruct H as [H|H]; [now left | right; now apply typedLiteral_parseFloat].
Qed.

(** X16.  The calculator evaluates from left to right, without precedence:
    a number, an operator, a number and [=] show the result of that
    operation on the two numbers entered; a number, an operator, a number,
    a second operator, a number and [=] show the second operation applied
    to the result of the first and the third number. *)
Theorem calculator_left_to_right (toString : Js.number -> string)
  (a b c : Calculator.Entry) (a' b' c' : list Calculator.Entry)
  (op1 op2 : Calculator.Operator) :
  let A := Js.parseFloat (Calculator.entered toString (a :: a')) in
  let B := Js.parseFloat (Calculator.entered toString (b :: b')) in
  let C := Js.parseFloat (Calculator.entered toString (c :: c')) in
  let first := Calculator.calculate A B (Calculator.operatorString op1) in
  Calculator.display
    (Calculator.run toString
       (map Calculator.entryButton (a :: a') ++ [Calculator.Op op1]
        ++ map Calculator.entryButton (b :: b') ++ [Calculator.Equals])
       Calculator.initial)
  = toString first
  /\ Calculator.display
       (Calculator.run toString
          (map Calculator.entryButton (a :: a') ++ [Calculator.Op op1]
           ++ map Calculator.entryButton (b :: b') ++ [Calculator.Op op2]
           ++ map Calculator.entryButton (c :: c') ++ [Calculator.Equals])
          Calculator.initial)
     = toString (Calculator.calculate first C (Calculator.operatorString op2)).
Proof.
  cbv zeta. split.
  - rewrite !run_app, !run_one, entered_at_start, press_op_first.
    rewrite entered_after_result by reflexivity.
    cbn [Calculator.previousValue Calculator.operation].
    now rewrite press_equals.
  - rewrite !run_app, !run_one, entered_at_start, press_op_first.
    rewrite (entered_after_result toString b b') by reflexivity.
    cbn [Calculator.previousValue Calculator.operation].
    rewrite press_op_next.
    rewrite (entered_after_result toString c c') by reflexivity.
    cbn [Calculator.previousValue Calculator.operation].
    rewrite press_equals.
    rewrite or_zero_hasSign
      by (apply typedLiteral_parseFloat, entered_typed).
    reflexivity.
Qed.

(** X17.  An operator pressed right after an operator does not replace it:
    the pending operation is applied to the number entered and to that same
    number, read again from the display, and the result is shown; the
    operator pressed last becomes the pending one.  And [=] pressed again
    changes nothing. *)
Theorem calculator_repeated_operator (toString : Js.number -> string)
  (a : Calculator.Entry) (a' : list Calculator.Entry)
  (op1 op2 : Calculator.Operator) (st : Calculator.State) :
  let A := Js.parseFloat (Calculator.entered toString (a :: a')) in
  let result := Calculator.calculate A A (Calculator.operatorString op1) in
  Calculator.run toString
    (map Calculator.entryButton (a :: a')
     ++ [Calculator.Op op1; Calculator.Op op2])
    Calculator.initial
  = Calculator.mkState (toString result) (Some result)
      (Some (Calculator.operatorString op2)) true
  /\ Calculator.handleEquals toString (Calculator.handleEquals toString st)
     = Calculator.handleEquals toString st.
Proof.
  cbv zeta. split.
  - rewrite run_app, entered_at_start.
    change (Calculator.run toString [Calculator.Op op1; Calculator.Op op2] ?s)
      with (Calculator.press toString (Calculator.Op op2)
              (Calculator.press toString (Calculator.Op op1) s)).
    rewrite press_op_first, press_op_next.
    rewrite or_zero_hasSign
      by (apply typedLiteral_parseFloat, entered_typed).
    reflexivity.
  - unfold Calculator.handleEquals.
    destruct (Calculator.previousValue st) as [p|] eqn:P.
    + destruct (Calculator.operation st) as [o|] eqn:O.
      * destruct (Calculator.truthyString o) eqn:T.
        -- reflexivity.
        -- now rewrite P, O, T.
      * now rewrite P, O.
    + now rewrite P.
Qed.

Section CalculatorWhole.
Import Calculator.
Variable toString : Js.number -> string.

Lemma digitString_value (d : Digit) (acc : Z) :
  digitsValue (digitString d) acc = 10 * acc + digitValue d.
Proof. destruct d; cbn [digitString digitsValue digitValue]; vm_compute (Js.code _ - 48); reflexivity. Qed.

Lemma digits_entered (ds : list Digit) (st : State) :
  waitingForNewValue st = false -> wholePart (display st) ->
  wholePart (display (run toString (map Num ds) st))
  /\ wholeValue (display (run toString (map Num ds) st))
     = fold_left (fun acc d => 10 * acc + digitValue d) ds (wholeValue (display st)).
Proof.
  revert st; induction ds as [|d ds IH]; intros st W P; [now split|].
  cbn [map run fold_left press].
  change (fold_left (fun st b => press toString b st) (map Num ds))
    with (run toString (map Num ds)).
  assert (S : waitingForNewValue (inputNumber (digitString d) st) = false
              /\ wholePart (display (inputNumber (digitString d) st))
              /\ wholeValue (display (inputNumber (digitString d) st))
                 = 10 * wholeValue (display st) + digitValue d).
  { unfold inputNumber. rewrite W. cbn [waitingForNewValue display].
    split; [first [exact W | reflexivity]|].
    destruct (String.eqb_spec (display st) "0") as [E|N].
    - split; [apply digitString_whole|]. rewrite E.
      unfold wholeValue. now rewrite digitString_value.
    - split; [now apply wholePart_app_digit|].
      unfold wholeValue. now rewrite digitsValue_app, digitString_value. }
  destruct S as (S1 & S2 & S3).
  destruct (IH _ S1 S2) as [I1 I2]. split; [exact I1|].
  rewrite I2, S3. reflexivity.
Qed.

Lemma entered_digits (d : Digit) (ds : list Digit) :
  digitsNumber (d :: ds) < 2 ^ 53 ->
  Js.parseFloat (entered toString (map EDigit (d :: ds)))
  = Js.ofZ (digitsNumber (d :: ds))
  /\ 0 <= digitsNumber (d :: ds).
Proof.
  intros B. unfold entered. rewrite map_map.
  change (map (fun x => entryButton (EDigit x)) (d :: ds)) with (map Num (d :: ds)).
  assert (P0 : wholePart (display initial))
    by (split; [reflexivity | now left]).
  destruct (digits_entered (d :: ds) initial eq_refl P0) as [[W _] V].
  change (wholeValue (display initial)) with 0 in V.
  fold (digitsNumber (d :: ds)) in V.
  rewrite parseFloat_whole by exact W. rewrite V. split; [reflexivity|].
  rewrite <- V. now apply wholeValue_nonneg.
Qed.

End CalculatorWhole.

(** X18.  On whole numbers the calculator is exact: the digits of [a], an
    operator, the digits of [b] and [=] show the sum when it is below 2^53,
    the difference, negative when [b] exceeds [a], and the product when it
    is below 2^53; [a] and [b] being themselves below 2^53. *)
Theorem calculator_whole_arithmetic (toString : Js.number -> string)
  (a b : Calculator.Digit) (a' b' : list Calculator.Digit)
  (Ha : Calculator.digitsNumber (a :: a') < 2 ^ 53)
  (Hb : Calculator.digitsNumber (b :: b') < 2 ^ 53) :
  let va := Calculator.digitsNumber (a :: a') in
  let vb := Calculator.digitsNumber (b :: b') in
  let shown op :=
    Calculator.display
      (Calculator.run toString
         (map Calculator.Num (a :: a') ++ [Calculator.Op op]
          ++ map Calculator.Num (b :: b') ++ [Calculator.Equals])
         Calculator.initial) in
  (va + vb < 2 ^ 53 -> shown Calculator.Plus = toString (Js.ofZ (va + vb)))
  /\ shown Calculator.Minus = toString (Js.ofZ (va - vb))
  /\ (va * vb < 2 ^ 53 -> shown Calculator.Times = toString (Js.ofZ (va * vb))).
Proof.
  cbv zeta.
  destruct (entered_digits toString a a' Ha) as [Ea Na].
  destruct (entered_digits toString b b' Hb) as [Eb Nb].
  assert (S : forall op,
    Calculator.display
      (Calculator.run toString
         (map Calculator.Num (a :: a') ++ [Calculator.Op op]
          ++ map Calculator.Num (b :: b') ++ [Calculator.Equals])
         Calculator.initial)
    = toString (Calculator.calculate
                  (Js.ofZ (Calculator.digitsNumber (a :: a')))
                  (Js.ofZ (Calculator.digitsNumber (b :: b')))
                  (Calculator.operatorString op))).
  { intros op.
    change (map Calculator.Num (a :: a'))
      with (map (fun x => Calculator.entryButton (Calculator.EDigit x)) (a :: a')).
    change (map Calculator.Num (b :: b'))
      with (map (fun x => Calculator.entryButton (Calculator.EDigit x)) (b :: b')).
    rewrite <- !(map_map Calculator.EDigit Calculator.entryButton).
    change (map Calculator.EDigit (a :: a'))
      with (Calculator.EDigit a :: map Calculator.EDigit a').
    change (map Calculator.EDigit (b :: b'))
      with (Calculator.EDigit b :: map Calculator.EDigit b').
    rewrite !run_app, !run_one.
    rewrite (entered_at_start toString).
    rewrite press_op_first.
    match goal with
    | |- context [Calculator.run toString (map Calculator.entryButton ?l) ?s] =>
        rewrite (entered_after_result toString (Calculator.EDigit b)
                   (map Calculator.EDigit b') s eq_refl)
    end.
    cbn [Calculator.previousValue Calculator.operation].
    rewrite press_equals. cbn [Calculator.display].
    change (Calculator.EDigit a :: map Calculator.EDigit a')
      with (map Calculator.EDigit (a :: a')).
    change (Calculator.EDigit b :: map Calculator.EDigit b')
      with (map Calculator.EDigit (b :: b')).
    now rewrite Ea, Eb. }
  split; [|split].
  - intros B. rewrite S.
    change (Calculator.calculate ?x ?y (Calculator.operatorString Calculator.Plus))
      with (Js.add x y).
    now rewrite add_ofZ.
  - rewrite S.
    change (Calculator.calculate ?x ?y (Calculator.operatorString Calculator.Minus))
      with (Js.sub x y).
    rewrite sub_ofZ; [reflexivity | lia | lia].
  - intros B. rewrite S.
    change (Calculator.calculate ?x ?y (Calculator.operatorString Calculator.Times))
      with (JsNumber.mul x y).
    rewrite mul_ofZ; [reflexivity | lia | lia | exact B].
Qed.

(** ** The view of the listing *)

Lemma sample_reachable : reachable Ex.store /\ reachable Sample.store2.
Proof.
  assert (R : reachable Ex.store).
  { unfold Ex.store. apply reach_createExpense, reach_createCustomer, reach_new. }
  split; [exact R|].
  unfold Sample.store2. now apply reach_createExpense, reach_createCustomer.
Qed.




(** ** Division by zero, and NaN in a chain *)

Lemma calculate_nan (y : Js.number) (o : Calculator.Operator) :
  Calculator.calculate Js.NaN y (Calculator.operatorString o) = Js.NaN.
Proof. destruct o; destruct y; reflexivity. Qed.

(** X20.  Division by zero is no error on the calculator: a number divided
    by a number that reads as zero shows the string of [Infinity], and zero
    divided by zero the string of [NaN]. *)
Theorem calculator_division_by_zero (toString : Js.number -> string)
  (a b : Calculator.Entry) (a' b' : list Calculator.Entry)
  (Hb : Js.parseFloat (Calculator.entered toString (b :: b')) = Js.zero) :
  Calculator.display
    (Calculator.run toString
       (map Calculator.entryButton (a :: a') ++ [Calculator.Op Calculator.Divide]
        ++ map Calculator.entryButton (b :: b') ++ [Calculator.Equals])
       Calculator.initial)
  = toString
      (if JsNumber.truthy (Js.parseFloat (Calculator.entered toString (a :: a')))
       then Js.Infinity false else Js.NaN).
Proof.
  rewrite !run_app, !run_one, entered_at_start, press_op_first.
  rewrite (entered_after_result toString b b') by reflexivity.
  cbn [Calculator.previousValue Calculator.operation].
  rewrite press_equals. cbn [Calculator.display]. rewrite Hb.
  pose proof (typedLiteral_parseFloat _ (entered_typed toString (a :: a'))) as S.
  destruct (Js.parseFloat (Calculator.entered toString (a :: a')))
    as [s|s| |s m e]; simpl in S; try contradiction; subst s; reflexivity.
Qed.

(** X21.  When the result of a first operation is [NaN], a further number
    followed by [=] shows the string of [NaN], but a further number followed
    by an operator shows the pending operation applied to 0 and that
    number: in a chain, performOperation reads [previousValue || 0]. *)
Theorem calculator_nan_in_chain (toString : Js.number -> string)
  (a b c : Calculator.Entry) (a' b' c' : list Calculator.Entry)
  (op1 op2 op3 : Calculator.Operator)
  (Hn : Calculator.calculate
          (Js.parseFloat (Calculator.entered toString (a :: a')))
          (Js.parseFloat (Calculator.entered toString (b :: b')))
          (Calculator.operatorString op1) = Js.NaN) :
  Calculator.display
    (Calculator.run toString
       (map Calculator.entryButton (a :: a') ++ [Calculator.Op op1]
        ++ map Calculator.entryButton (b :: b') ++ [Calculator.Op op2]
        ++ map Calculator.entryButton (c :: c') ++ [Calculator.Equals])
       Calculator.initial)
  = toString Js.NaN
  /\ Calculator.display
       (Calculator.run toString
          (map Calculator.entryButton (a :: a') ++ [Calculator.Op op1]
           ++ map Calculator.entryButton (b :: b') ++ [Calculator.Op op2]
           ++ map Calculator.entryButton (c :: c') ++ [Calculator.Op op3])
          Calculator.initial)
     = toString
         (Calculator.calculate Js.zero
            (Js.parseFloat (Calculator.entered toString (c :: c')))
            (Calculator.operatorString op2)).
Proof.
  assert (O : JsNumber.or (Js.parseFloat (Calculator.entered toString (a :: a')))
                Js.zero
              = Js.parseFloat (Calculator.entered toString (a :: a')))
    by (apply or_zero_hasSign, typedLiteral_parseFloat, entered_typed).
  split.
  - rewrite !run_app, !run_one, entered_at_start, press_op_first.
    rewrite (entered_after_result toString b b') by reflexivity.
    cbn [Calculator.previousValue Calculator.operation].
    rewrite press_op_next.
    rewrite (entered_after_result toString c c') by reflexivity.
    cbn [Calculator.previousValue Calculator.operation].
    rewrite press_equals. cbn [Calculator.display].
    rewrite O, Hn. now rewrite calculate_nan.
  - rewrite !run_app, !run_one, entered_at_start, press_op_first.
    rewrite (entered_after_result toString b b') by reflexivity.
    cbn [Calculator.previousValue Calculator.operation].
    rewrite press_op_next.
    rewrite (entered_after_result toString c c') by reflexivity.
    cbn [Calculator.previousValue Calculator.operation].
    rewrite press_op_next. cbn [Calculator.display].
    rewrite O, Hn. reflexivity.
Qed.

(** X20 on 5 divided by 0. *)
Lemma calculator_division_by_zero_witness :
  Js.parseFloat (Calculator.entered Sample.showNumber
                   [Calculator.EDigit Calculator.D0]) = Js.zero
  /\ Calculator.display
       (Calculator.run Sample.showNumber
          [ Calculator.Num Calculator.D5; Calculator.Op Calculator.Divide;
            Calculator.Num Calculator.D0; Calculator.Equals ]
          Calculator.initial)
     = Sample.showNumber (Js.Infinity false).
Proof.
  assert (Hb : Js.parseFloat (Calculator.entered Sample.showNumber
                                [Calculator.EDigit Calculator.D0]) = Js.zero)
    by (vm_compute; reflexivity).
  split; [exact Hb|].
  exact (calculator_division_by_zero Sample.showNumber
           (Calculator.EDigit Calculator.D5) (Calculator.EDigit Calculator.D0)
           [] [] Hb).
Defined.

(** X21 on 0 divided by 0, then plus 5. *)
Lemma calculator_nan_in_chain_witness :
  Calculator.calculate
    (Js.parseFloat (Calculator.entered Sample.showNumber
                      [Calculator.EDigit Calculator.D0]))
    (Js.parseFloat (Calculator.entered Sample.showNumber
                      [Calculator.EDigit Calculator.D0]))
    (Calculator.operatorString Calculator.Divide) = Js.NaN
  /\ Calculator.display
       (Calculator.run Sample.showNumber
          [ Calculator.Num Calculator.D0; Calculator.Op Calculator.Divide;
            Calculator.Num Calculator.D0; Calculator.Op Calculator.Plus;
            Calculator.Num Calculator.D5; Calculator.Op Calculator.Plus ]
          Calculator.initial)
     = Sample.showNumber (Js.ofZ 5).
Proof.
  assert (Hn : Calculator.calculate
                 (Js.parseFloat (Calculator.entered Sample.showNumber
                                   [Calculator.EDigit Calculator.D0]))
                 (Js.parseFloat (Calculator.entered Sample.showNumber
                                   [Calculator.EDigit Calculator.D0]))
                 (Calculator.operatorString Calculator.Divide) = Js.NaN)
    by (vm_compute; reflexivity).
  split; [exact Hn|].
  destruct (calculator_nan_in_chain Sample.showNumber
              (Calculator.EDigit Calculator.D0) (Calculator.EDigit Calculator.D0)
              (Calculator.EDigit Calculator.D5) [] [] []
              Calculator.Divide Calculator.Plus Calculator.Plus Hn) as [_ H].
  exact H.
Defined.

(** ** Identifiers are not used again *)

(** X22.  In a store the program can be in, with the counters below
    2^53 - 2: a customer created and then deleted leaves its id unused; the
    customer created next gets the id after it, and the lookup of the
    deleted id still returns nothing.  The same holds of the expenses. *)
Theorem deleted_id_not_reused (s : MemStorage.t) (now now' : Z)
  (ic ic' : InsertCustomer.t) (ie ie' : InsertExpense.t)
  (R : reachable s)
  (Bc : MemStorage.currentCustomerId s + 2 < 2 ^ 53)
  (Be : MemStorage.currentExpenseId s + 2 < 2 ^ 53) :
  (let c := fst (MemStorage.createCustomer now ic s) in
   let s1 := snd (MemStorage.createCustomer now ic s) in
   let s2 := snd (MemStorage.deleteCustomer (Customer.id c) s1) in
   let c' := fst (MemStorage.createCustomer now' ic' s2) in
   let s3 := snd (MemStorage.createCustomer now' ic' s2) in
   Customer.id c' = Customer.id c + 1
   /\ MemStorage.getCustomer (Customer.id c) s3 = None
   /\ MemStorage.getCustomer (Customer.id c') s3 = Some c')
  /\
  (let e := fst (MemStorage.createExpense now ie s) in
   let s1 := snd (MemStorage.createExpense now ie s) in
   let s2 := snd (MemStorage.deleteExpense (Expense.id e) s1) in
   let e' := fst (MemStorage.createExpense now' ie' s2) in
   let s3 := snd (MemStorage.createExpense now' ie' s2) in
   Expense.id e' = Expense.id e + 1
   /\ MemStorage.getExpense (Expense.id e) s3 = None
   /\ MemStorage.getExpense (Expense.id e') s3 = Some e').
Proof.
  destruct (reachable_countersAhead s R) as ((Cc & _) & (Ce & _) & _ & _).
  cbv zeta.
  unfold MemStorage.createCustomer, MemStorage.createExpense,
    MemStorage.deleteCustomer, MemStorage.deleteExpense, JsMap.delete,
    MemStorage.getCustomer, MemStorage.getExpense.
  cbn [fst snd Customer.id Expense.id MemStorage.customers MemStorage.expenses
       MemStorage.currentCustomerId MemStorage.currentExpenseId].
  rewrite !postIncrement_exact by lia.
  split.
  - split; [reflexivity|]. split; [|apply get_set_same].
    rewrite get_set_other by lia. apply get_remove_same.
  - split; [reflexivity|]. split; [|apply get_set_same].
    rewrite get_set_other by lia. apply get_remove_same.
Qed.

(** X22 on a store of two customers. *)
Lemma deleted_id_not_reused_witness :
  reachable Sample.store2
  /\ MemStorage.currentCustomerId Sample.store2 + 2 < 2 ^ 53
  /\ MemStorage.currentExpenseId Sample.store2 + 2 < 2 ^ 53
  /\ (let c := fst (MemStorage.createCustomer Ex.day3 Sample.newCustomer
                      Sample.store2) in
      let s1 := snd (MemStorage.createCustomer Ex.day3 Sample.newCustomer
                       Sample.store2) in
      let s2 := snd (MemStorage.deleteCustomer (Customer.id c) s1) in
      let c' := fst (MemStorage.createCustomer Ex.day3 Sample.newCustomer s2) in
      Customer.id c' = Customer.id c + 1).
Proof.
  assert (R : reachable Sample.store2) by apply sample_reachable.
  assert (Bc : MemStorage.currentCustomerId Sample.store2 + 2 < 2 ^ 53)
    by (vm_compute; reflexivity).
  assert (Be : MemStorage.currentExpenseId Sample.store2 + 2 < 2 ^ 53)
    by (vm_compute; reflexivity).
  destruct (deleted_id_not_reused Sample.store2 Ex.day3 Ex.day3
              Sample.newCustomer Sample.newCustomer
              Sample.newExpense Sample.newExpense R Bc Be) as ((E & _) & _).
  split; [exact R|]. split; [exact Bc|]. split; [exact Be | exact E].
Defined.

(** ** The further theorems at concrete inputs *)

(** X1 on a store of two customers and two expenses. *)
Lemma listing_complete_newest_first_witness :
  MemStorage.wf Sample.store2
  /\ map Customer.id (MemStorage.getAllCustomers Sample.store2) = [2; 1]
  /\ newestFirst Customer.createdAt (MemStorage.getAllCustomers Sample.store2)
  /\ NoDup (map Expense.id (MemStorage.getAllExpenses Sample.store2)).
Proof.
  assert (W : MemStorage.wf Sample.store2)
    by (apply reachable_wf, sample_reachable).
  destruct (listing_complete_newest_first Sample.store2 W)
    as ((_ & S & _ & _) & (_ & _ & N & _)).
  split; [exact W|]. split; [vm_compute; reflexivity|].
  split; [exact S | exact N].
Defined.

(** X2 on that store: the customer created gets the id 3. *)
Lemma create_assigns_fresh_id_witness :
  reachable Sample.store2
  /\ MemStorage.currentCustomerId Sample.store2 + 1 < 2 ^ 53
  /\ MemStorage.currentExpenseId Sample.store2 + 1 < 2 ^ 53
  /\ (let c := fst (MemStorage.createCustomer Ex.day3 Sample.newCustomer
                      Sample.store2) in
      let s' := snd (MemStorage.createCustomer Ex.day3 Sample.newCustomer
                       Sample.store2) in
      Customer.id c = 3
      /\ MemStorage.getCustomer 3 Sample.store2 = None
      /\ MemStorage.getCustomer (Customer.id c) s' = Some c
      /\ MemStorage.currentCustomerId s'
         = MemStorage.currentCustomerId Sample.store2 + 1).
Proof.
  assert (R : reachable Sample.store2) by apply sample_reachable.
  assert (Bc : MemStorage.currentCustomerId Sample.store2 + 1 < 2 ^ 53)
    by (vm_compute; reflexivity).
  assert (Be : MemStorage.currentExpenseId Sample.store2 + 1 < 2 ^ 53)
    by (vm_compute; reflexivity).
  destruct (create_assigns_fresh_id Sample.store2 Ex.day3 Sample.newCustomer
              Sample.newExpense R Bc Be) as ((E & F & _ & G & _ & N) & _).
  split; [exact R|]. split; [exact Bc|]. split; [exact Be|].
  cbv zeta. split; [vm_compute; reflexivity|].
  split; [exact F|]. split; [exact G | exact N].
Defined.

(** X3 on that store: the customer created on the third day heads the
    listing. *)
Lemma create_enters_listing_witness :
  reachable Sample.store2
  /\ MemStorage.currentCustomerId Sample.store2 + 1 < 2 ^ 53
  /\ MemStorage.currentExpenseId Sample.store2 + 1 < 2 ^ 53
  /\ (forall c0, In c0 (MemStorage.getAllCustomers Sample.store2) ->
                 Customer.createdAt c0 < Ex.day3)
  /\ MemStorage.getAllCustomers
       (snd (MemStorage.createCustomer Ex.day3 Sample.newCustomer Sample.store2))
     = fst (MemStorage.createCustomer Ex.day3 Sample.newCustomer Sample.store2)
       :: MemStorage.getAllCustomers Sample.store2.
Proof.
  assert (R : reachable Sample.store2) by apply sample_reachable.
  assert (Bc : MemStorage.currentCustomerId Sample.store2 + 1 < 2 ^ 53)
    by (vm_compute; reflexivity).
  assert (Be : MemStorage.currentExpenseId Sample.store2 + 1 < 2 ^ 53)
    by (vm_compute; reflexivity).
  assert (H : forall c0, In c0 (MemStorage.getAllCustomers Sample.store2) ->
                         Customer.createdAt c0 < Ex.day3).
  { assert (El : map Customer.createdAt (MemStorage.getAllCustomers Sample.store2)
                 = [Ex.day2; Ex.day1]) by (vm_compute; reflexivity).
    intros c0 I. apply (in_map Customer.createdAt) in I. rewrite El in I.
    destruct I as [<-|[<-|[]]]; vm_compute; reflexivity. }
  destruct (create_enters_listing Sample.store2 Ex.day3 Sample.newCustomer
              Sample.newExpense R Bc Be) as ((_ & L) & _).
  split; [exact R|]. split; [exact Bc|]. split; [exact Be|].
  split; [exact H | exact (L H)].
Defined.

(** X4 on that store: the delete of the customer 1 leaves the customer 2. *)
Lemma delete_keeps_order_witness :
  MemStorage.wf Sample.store2
  /\ fst (MemStorage.deleteCustomer 1 Sample.store2) = true
  /\ map Customer.id
         (MemStorage.getAllCustomers (snd (MemStorage.deleteCustomer 1 Sample.store2)))
     = [2]
  /\ MemStorage.getAllCustomers (snd (MemStorage.deleteCustomer 1 Sample.store2))
     = filter (fun c => negb (Customer.id c =? 1))
              (MemStorage.getAllCustomers Sample.store2).
Proof.
  assert (W : MemStorage.wf Sample.store2)
    by (apply reachable_wf, sample_reachable).
  destruct (delete_keeps_order Sample.store2 1 W) as ((_ & L) & _).
  split; [exact W|]. split; [vm_compute; reflexivity|].
  split; [vm_compute; reflexivity | exact L].
Defined.

(** X5 on that store: the update of the amount of the customer 1. *)
Lemma update_in_place_witness :
  MemStorage.wf Sample.store2
  /\ map (fun c => (Customer.id c, Customer.amount c))
         (MemStorage.getAllCustomers
            (snd (MemStorage.updateCustomer 1
                    (PartialCustomer.mk None None None (Some "120") None)
                    Sample.store2)))
     = [(2, "40"); (1, "120")]
  /\ JsMap.keys (MemStorage.customers
                   (snd (MemStorage.updateCustomer 1
                           (PartialCustomer.mk None None None (Some "120") None)
                           Sample.store2)))
     = JsMap.keys (MemStorage.customers Sample.store2).
Proof.
  assert (W : MemStorage.wf Sample.store2)
    by (apply reachable_wf, sample_reachable).
  destruct (update_in_place Sample.store2 1
              (PartialCustomer.mk None None None (Some "120") None)
              (PartialExpense.mk None None) W) as ((_ & K & _) & _).
  split; [exact W|]. split; [vm_compute; reflexivity | exact K].
Defined.

(** X6 on that store: revenue 140, expenses 35, net total 105, 5 cars. *)
Lemma summary_exact_on_whole_data_witness :
  wholeAmounts (JsMap.values (MemStorage.customers Sample.store2))
  /\ wholeExpenses (JsMap.values (MemStorage.expenses Sample.store2))
  /\ wholeCars (JsMap.values (MemStorage.customers Sample.store2))
  /\ amountsTotal (JsMap.values (MemStorage.customers Sample.store2)) < 2 ^ 53
  /\ expensesTotal (JsMap.values (MemStorage.expenses Sample.store2)) < 2 ^ 53
  /\ carsTotal (JsMap.values (MemStorage.customers Sample.store2)) < 2 ^ 53
  /\ Routes.getSummary Sample.store2
     = (200, Routes.mkSummary (Js.ofZ 140) (Js.ofZ 35) (Js.ofZ 105) (Js.ofZ 5) 2 2).
Proof.
  assert (Hc : wholeAmounts (JsMap.values (MemStorage.customers Sample.store2)))
    by (repeat constructor).
  assert (He : wholeExpenses (JsMap.values (MemStorage.expenses Sample.store2)))
    by (repeat constructor).
  assert (Hk : wholeCars (JsMap.values (MemStorage.customers Sample.store2))).
  { repeat constructor; vm_compute; discriminate. }
  assert (Br : amountsTotal (JsMap.values (MemStorage.customers Sample.store2))
               < 2 ^ 53) by (vm_compute; reflexivity).
  assert (Bx : expensesTotal (JsMap.values (MemStorage.expenses Sample.store2))
               < 2 ^ 53) by (vm_compute; reflexivity).
  assert (Bk : carsTotal (JsMap.values (MemStorage.customers Sample.store2))
               < 2 ^ 53) by (vm_compute; reflexivity).
  pose proof (summary_exact_on_whole_data Sample.store2 Hc He Hk Br Bx Bk) as S.
  repeat (split; [assumption|]).
  rewrite S. vm_compute. reflexivity.
Defined.

(** X7 on customers B, A, B: the groups are B, then A. *)
Lemma groups_in_order_of_first_occurrence_witness :
  noInheritedKey Customer.name
    [ Ex.customer 1 "B" "10" "paid" 1 Ex.day1;
      Ex.customer 2 "A" "20" "paid" 1 Ex.day1;
      Ex.customer 3 "B" "30" "paid" 1 Ex.day1 ]
  /\ exists groups,
       Home.pdfGroups
         [ Ex.customer 1 "B" "10" "paid" 1 Ex.day1;
           Ex.customer 2 "A" "20" "paid" 1 Ex.day1;
           Ex.customer 3 "B" "30" "paid" 1 Ex.day1 ] = Some groups
       /\ map PdfGroup.name groups = ["B"; "A"].
Proof.
  assert (Hn : noInheritedKey Customer.name
                 [ Ex.customer 1 "B" "10" "paid" 1 Ex.day1;
                   Ex.customer 2 "A" "20" "paid" 1 Ex.day1;
                   Ex.customer 3 "B" "30" "paid" 1 Ex.day1 ])
    by (repeat constructor).
  destruct (groups_in_order_of_first_occurrence _ Hn)
    as ((groups & E & _ & _ & P) & _).
  split; [exact Hn|]. exists groups. split; [exact E|].
  rewrite P; [reflexivity|]. repeat constructor.
Defined.

(** X8 on five customers over four days: the view has the three most
    recent days, and the total of the third, with two customers, is 70. *)
Lemma day_section_totals_witness :
  exists d1 d2 d3,
    Home.dailyOperations EnGB.format Ex.fourDays = Some [d1; d2; d3]
    /\ map Customer.id (customersOfDate EnGB.format (Home.dateKey d3) Ex.fourDays)
       = [3; 2]
    /\ wholeAmounts (customersOfDate EnGB.format (Home.dateKey d3) Ex.fourDays)
    /\ amountsTotal (customersOfDate EnGB.format (Home.dateKey d3) Ex.fourDays)
       < 2 ^ 53
    /\ Home.totalDayAmount d3 = Js.ofZ 70.
Proof.
  do 3 eexists.
  assert (Ev : Home.dailyOperations EnGB.format Ex.fourDays = Some [_; _; _])
    by (vm_compute; reflexivity).
  pose proof (proj2 (day_section_totals EnGB.format Ex.fourDays _ Ev) _
                (or_intror (or_intror (or_introl eq_refl))))
    as (_ & _ & _ & T).
  split; [exact Ev|].
  assert (Ec : customersOfDate EnGB.format "03/11/2024" Ex.fourDays
               = [Ex.customer 3 "B" "20" "paid" 3 (Ex.day2 + 3000);
                  Ex.customer 2 "A" "50" "paid" 1 (Ex.day2 + 2000)])
    by (vm_compute; reflexivity).
  split; [vm_compute; reflexivity|].
  assert (Hw : wholeAmounts
                 (customersOfDate EnGB.format "03/11/2024" Ex.fourDays))
    by (rewrite Ec; repeat constructor).
  assert (Hb : amountsTotal
                 (customersOfDate EnGB.format "03/11/2024" Ex.fourDays) < 2 ^ 53)
    by (vm_compute; reflexivity).
  split; [exact Hw|]. split; [exact Hb|].
  exact (T Hw Hb).
Defined.

(** X11 on the amount 150. *)
Lemma amount_accepted_iff_positive_witness :
  wholeNumber "150" = true
  /\ wholeValue "150" < 2 ^ 53
  /\ HomePage.amountRefine "150" = true
  /\ HomePage.amountRefine "-150" = false.
Proof.
  assert (Hw : wholeNumber "150" = true) by reflexivity.
  assert (Hb : wholeValue "150" < 2 ^ 53) by (vm_compute; reflexivity).
  destruct (amount_accepted_iff_positive "150" Hw Hb) as [A N].
  split; [exact Hw|]. split; [exact Hb|].
  split; [apply A; vm_compute; reflexivity | exact N].
Defined.

(** X12 on the scenario of the specification. *)
Lemma report_in_reading_order_witness :
  noInheritedKey Customer.name Ex.scenarioC
  /\ exists calls,
       Report.generatePDF EnGB.format Sample.showNumber Sample.showNumber
         Sample.showTime Ex.scenarioC Ex.scenarioE None Ex.day1 Ex.day1
       = Some calls
       /\ StronglySorted above (placed calls 1 16).
Proof.
  assert (Hn : noInheritedKey Customer.name Ex.scenarioC) by (repeat constructor).
  destruct (report_in_reading_order EnGB.format Sample.showNumber
              Sample.showNumber Sample.showTime Ex.scenarioC Ex.scenarioE None
              Ex.day1 Ex.day1 Hn) as (calls & E & S).
  split; [exact Hn|]. exists calls. split; [exact E | exact (S 16)].
Defined.

(** X13 on the scenario of the specification. *)
Lemma report_text_bounds_witness :
  exists calls,
    Report.generatePDF EnGB.format Sample.showNumber Sample.showNumber
      Sample.showTime Ex.scenarioC Ex.scenarioE None Ex.day1 Ex.day1
    = Some calls
    /\ map top (placed calls 1 16)
       = [20; 30; 50; 65; 73; 81; 89; 97; 105; 131; 146; 173; 188; 200; 212]
    /\ forall t, In t (placed calls 1 16) ->
         1 <= page t /\ 20 <= top t /\ (fontSize t <> 8 -> top t <= 279).
Proof.
  eexists.
  assert (G : Report.generatePDF EnGB.format Sample.showNumber Sample.showNumber
                Sample.showTime Ex.scenarioC Ex.scenarioE None Ex.day1 Ex.day1
              = Some _) by (vm_compute; reflexivity).
  split; [exact G|]. split; [vm_compute; reflexivity|].
  intros t It. 
  exact (report_text_bounds EnGB.format Sample.showNumber Sample.showNumber
           Sample.showTime Ex.scenarioC Ex.scenarioE None Ex.day1 Ex.day1 _ G
           16 t It).
Defined.

(** X14 on the scenario of the specification: the two entries of A are on
    the first page, at the heights 97 and 105. *)
Lemma first_group_entries_on_first_page_witness :
  noInheritedKey Customer.name Ex.scenarioC
  /\ Forall (fun x => JsObject.arrayIndex (Customer.name x) = None) Ex.scenarioC
  /\ exists calls,
       Report.generatePDF EnGB.format Sample.showNumber Sample.showNumber
         Sample.showTime Ex.scenarioC Ex.scenarioE None Ex.day1 Ex.day1
       = Some calls
       /\ (exists s, In (mkPlaced 1 8 97 s) (placed calls 1 16))
       /\ (exists s, In (mkPlaced 1 8 105 s) (placed calls 1 16)).
Proof.
  assert (Hn : noInheritedKey Customer.name Ex.scenarioC) by (repeat constructor).
  assert (Hp : Forall (fun x => JsObject.arrayIndex (Customer.name x) = None)
                      Ex.scenarioC) by (repeat constructor).
  destruct (first_group_entries_on_first_page EnGB.format Sample.showNumber
              Sample.showNumber Sample.showTime
              (Ex.customer 1 "A" "100" "paid" 2 Ex.day1)
              [Ex.customer 2 "A" "50" "unpaid" 1 (Ex.day1 + 1000)]
              Ex.scenarioE None Ex.day1 Ex.day1 Hn Hp) as (calls & E & H).
  split; [exact Hn|]. split; [exact Hp|].
  exists calls. split; [exact E|]. split.
  - apply (H 16 0%nat). vm_compute. lia.
  - apply (H 16 1%nat). vm_compute. lia.
Defined.

(** X18 on 12 and 30: the sum 42, the difference -18 and the product 360. *)
Lemma calculator_whole_arithmetic_witness :
  Calculator.digitsNumber [Calculator.D1; Calculator.D2] < 2 ^ 53
  /\ Calculator.digitsNumber [Calculator.D3; Calculator.D0] < 2 ^ 53
  /\ Calculator.display
       (Calculator.run Sample.showNumber
          [ Calculator.Num Calculator.D1; Calculator.Num Calculator.D2;
            Calculator.Op Calculator.Minus;
            Calculator.Num Calculator.D3; Calculator.Num Calculator.D0;
            Calculator.Equals ]
          Calculator.initial)
     = Sample.showNumber (Js.ofZ (-18)).
Proof.
  assert (Ha : Calculator.digitsNumber [Calculator.D1; Calculator.D2] < 2 ^ 53)
    by (vm_compute; reflexivity).
  assert (Hb : Calculator.digitsNumber [Calculator.D3; Calculator.D0] < 2 ^ 53)
    by (vm_compute; reflexivity).
  destruct (calculator_whole_arithmetic Sample.showNumber
              Calculator.D1 Calculator.D3 [Calculator.D2] [Calculator.D0] Ha Hb)
    as (_ & M & _).
  split; [exact Ha|]. split; [exact Hb | exact M].
Defined.

